(** * Transcription pipeline: text normaliser, code-switch annotator,
      model-rotation controller and orchestrator

    A shallow embedding of [gemini_multi_transcribe.py], [gemini_transcribe.py]
    and [transcribe_3.py].  A Python [str] is a list of Unicode code points;
    the builtins the code calls ([str.split], [str.strip], [str.replace],
    [in], [" ".join]) are written out with their Python meaning. *)

From Stdlib Require Import NArith Ascii String.
From stdpp Require Import gmap list.

Local Open Scope list_scope.

(** ** Python strings *)

Abbreviation str := (list N).

(** An ASCII literal as a [str]. *)
Definition u (s : string) : str := map N_of_ascii (list_ascii_of_string s).

(** [str.isspace] of one code point: the code points CPython's
    [_PyUnicode_IsWhitespace] accepts, which [str.split()] and [str.strip()]
    use as separators. *)
Definition isspace (c : N) : bool :=
  ((0x09 <=? c) && (c <=? 0x0D) || (0x1C <=? c) && (c <=? 0x20)
   || (c =? 0x85) || (c =? 0xA0) || (c =? 0x1680)
   || (0x2000 <=? c) && (c <=? 0x200A)
   || (c =? 0x2028) || (c =? 0x2029) || (c =? 0x202F) || (c =? 0x205F)
   || (c =? 0x3000))%N.

(** [s.split()]: the maximal runs of non-whitespace code points, in order. *)
Fixpoint split (s : str) : list str :=
  match s with
  | [] => []
  | c :: s' =>
      if isspace c then split s'
      else match s' with
           | [] => [[c]]
           | d :: _ =>
               if isspace d then [c] :: split s'
               else match split s' with
                    | w :: ws => (c :: w) :: ws
                    | [] => [[c]]
                    end
           end
  end.

(** [sep.join(l)]. *)
Fixpoint join (sep : str) (l : list str) : str :=
  match l with
  | [] => []
  | w :: ws => match ws with
               | [] => w
               | _ :: _ => w ++ sep ++ join sep ws
               end
  end.

Fixpoint lstrip (s : str) : str :=
  match s with
  | [] => []
  | c :: s' => if isspace c then lstrip s' else s
  end.

Definition rstrip (s : str) : str := rev (lstrip (rev s)).

(** [s.strip()]. *)
Definition strip (s : str) : str := rstrip (lstrip s).

Definition str_eqb (a b : str) : bool := bool_decide (a = b).

(** [s.startswith(p)]. *)
Fixpoint startswith (p s : str) : bool :=
  match p, s with
  | [], _ => true
  | _ :: _, [] => false
  | a :: p', b :: s' => (a =? b)%N && startswith p' s'
  end.

(** [s.endswith(p)]. *)
Definition endswith (p s : str) : bool := startswith (rev p) (rev s).

(** [needle in s]. *)
Fixpoint contains (needle s : str) : bool :=
  startswith needle s
  || match s with
     | [] => false
     | _ :: s' => contains needle s'
     end.

(** The scan of [s.replace(old, new)] for a non-empty [old]: left to right,
    every occurrence of [old] that does not overlap an earlier one becomes
    [new].  [skip] counts the code points of the current occurrence still to
    be dropped. *)
Fixpoint replace_scan (old new : str) (skip : nat) (s : str) : str :=
  match s with
  | [] => []
  | c :: s' =>
      match skip with
      | S k => replace_scan old new k s'
      | O => if startswith old s
             then new ++ replace_scan old new (length old - 1) s'
             else c :: replace_scan old new 0 s'
      end
  end.

(** [s.replace(old, new)]; an empty [old] matches between any two code
    points and at both ends. *)
Definition replace (s old new : str) : str :=
  match old with
  | [] => new ++ flat_map (fun c => c :: new) s
  | _ :: _ => replace_scan old new 0 s
  end.

(** ** Text normaliser: the clean-up inside [transcribe_audio] *)

(** [artifacts] of [gemini_multi_transcribe.py]. *)
Definition artifacts_multi : list str :=
  [ u "Here is the transcription:"; u "Transcription:";
    u "**Transcription:**"; u "The transcription is:"; u "Here you go:";
    u "[Music]"; u "[music]"; u "[Applause]"; u "[applause]";
    [0x266A%N]; [0x266B%N]; [0x266C%N];
    u "Thank you for watching"; u "Thanks for watching";
    u "Please subscribe"; u "Like and subscribe"; u "Don't forget to" ].

(** [artifacts] of [gemini_transcribe.py]. *)
Definition artifacts_single : list str :=
  [ u "Here is the transcription:"; u "Transcription:";
    u "**Transcription:**"; u "The transcription is:";
    u "[Music]"; u "[Applause]"; [0x266A%N];
    u "Thank you for watching"; u "Please subscribe" ].

(** [for artifact in artifacts: t = t.replace(artifact, "")]. *)
Definition remove_artifacts (arts : list str) (t : str) : str :=
  fold_left (fun t a => replace t a []) arts t.

(** Strip, remove each string of [arts] in list order, collapse whitespace. *)
Definition normalize (arts : list str) (raw : str) : str :=
  join (u " ") (split (remove_artifacts arts (strip raw))).

(** [gemini_multi_transcribe.py], lines 293-319. *)
Definition normalize_multi (raw : str) : str :=
  let transcription := strip raw in
  let transcription := remove_artifacts artifacts_multi transcription in
  let transcription := replace (replace transcription (u "**") []) (u "*") [] in
  join (u " ") (split transcription).

(** [gemini_transcribe.py], lines 234-253. *)
Definition normalize_single (raw : str) : str :=
  let transcription := strip raw in
  let transcription := remove_artifacts artifacts_single transcription in
  join (u " ") (split transcription).

(** The markdown removal of the multi-model variant is two more removals. *)
Definition removed_multi : list str := artifacts_multi ++ [u "**"; u "*"].

(** ** Code-switch annotator: [detect_code_switching] *)

(** What the annotator and the controller take from Python's Unicode
    database for code points above ASCII.  The database is not part of the
    repository: every result below holds for any such table. *)
Record unicode_db := {
  (** [c.isalnum()] of a code point above ASCII. *)
  uni_isalnum : N -> bool;
  (** [s.lower()] of a text with a code point above ASCII. *)
  uni_lower : str -> str;
  (** under [re.IGNORECASE], does a code point above ASCII match the
      pattern letter [p]? *)
  uni_ignorecase : N -> N -> bool
}.

(** A table that knows no letter above ASCII. *)
Definition ascii_db : unicode_db :=
  {| uni_isalnum := fun _ => false;
     uni_lower := fun s => s;
     uni_ignorecase := fun _ _ => false |}.

Definition is_ascii (c : N) : bool := (c <? 128)%N.

Definition ascii_isalnum (c : N) : bool :=
  ((48 <=? c) && (c <=? 57) || (65 <=? c) && (c <=? 90)
   || (97 <=? c) && (c <=? 122))%N.

(** The regular-expression class [\w]. *)
Definition is_word (U : unicode_db) (c : N) : bool :=
  if is_ascii c then ascii_isalnum c || (c =? 95)%N else uni_isalnum U c.

Definition ascii_lower (c : N) : N :=
  if ((65 <=? c) && (c <=? 90))%N then (c + 32)%N else c.

(** [s.lower()]. *)
Definition lower (U : unicode_db) (s : str) : str :=
  if forallb is_ascii s then map ascii_lower s else uni_lower U s.

(** [re.sub(r"[^\w']+", "", word)]: every run of code points that are
    neither word characters nor apostrophes is deleted. *)
Definition strip_nonword (U : unicode_db) (word : str) : str :=
  List.filter (fun c => is_word U c || (c =? 39)%N) word.

(** [\b] between two neighbours, either of which may be missing. *)
Definition word_boundary (U : unicode_db) (prev next : option N) : bool :=
  xorb (from_option (is_word U) false prev) (from_option (is_word U) false next).

(** One pattern letter (lower-case ASCII) against one code point under
    [re.IGNORECASE]. *)
Definition ci_match (U : unicode_db) (p c : N) : bool :=
  if is_ascii c then (ascii_lower c =? p)%N else uni_ignorecase U p c.

(** The alternative [w] matched at the start of [s]: the last code point it
    consumed and what follows it. *)
Fixpoint match_literal (U : unicode_db) (w s : str) (last : option N)
  : option (option N * str) :=
  match w with
  | [] => Some (last, s)
  | p :: w' =>
      match s with
      | [] => None
      | c :: s' =>
          if ci_match U p c then match_literal U w' s' (Some c) else None
      end
  end.

(** [\b(w1|w2|...)\b] matched at the start of [s], [prev] being the code
    point before it. *)
Definition match_here (U : unicode_db) (alternatives : list str)
    (prev : option N) (s : str) : bool :=
  word_boundary U prev (head s)
  && existsb (fun w =>
                match match_literal U w s prev with
                | Some (last, rest) => word_boundary U last (head rest)
                | None => false
                end) alternatives.

(** [pattern.search(s)] is not [None]: the pattern matches at some
    position. *)
Fixpoint re_search (U : unicode_db) (alternatives : list str)
    (prev : option N) (s : str) : bool :=
  match_here U alternatives prev s
  || match s with
     | [] => false
     | c :: s' => re_search U alternatives (Some c) s'
     end.

(** The word lists of one variant of [detect_code_switching]. *)
Record word_lists := {
  swahili_common : gset str;
  english_words : list str
}.

(** [gemini_multi_transcribe.py] and [gemini_transcribe.py]. *)
Definition lists_gemini : word_lists :=
  {| swahili_common := list_to_set (map u
       [ "na"; "ya"; "wa"; "ni"; "kwa"; "la"; "za"; "katika"; "kama";
         "au"; "lakini"; "pia"; "sana"; "tu"; "kwenye"; "bila"; "hii";
         "hiyo"; "hilo"; "hao"; "wale"; "hawa"; "mimi"; "wewe"; "yeye";
         "sisi"; "ninyi"; "wao"; "nini"; "nani"; "wapi"; "lini"; "je";
         "cha"; "vya"; "nchi"; "watu"; "mtu"; "yake"; "yangu"; "yetu";
         "moja"; "mbili"; "tatu"; "nne"; "tano"; "ndiyo"; "hapana" ]%string);
     english_words := map u
       [ "the"; "is"; "are"; "was"; "were"; "have"; "has"; "had"; "will";
         "would"; "could"; "should"; "can"; "may"; "must"; "do"; "does";
         "did"; "this"; "that"; "these"; "those"; "what"; "where"; "when";
         "why"; "how"; "who"; "which"; "and"; "but"; "or"; "so"; "because";
         "if"; "then" ]%string |}.

(** [transcribe_3.py]. *)
Definition lists_transcribe_3 : word_lists :=
  {| swahili_common := list_to_set (map u
       [ "na"; "ya"; "wa"; "ni"; "kwa"; "la"; "za"; "katika"; "kama";
         "au"; "lakini"; "pia"; "sana"; "tu"; "kwenye"; "bila"; "hii";
         "hiyo"; "hilo"; "hao"; "wale"; "hawa"; "mimi"; "wewe"; "yeye";
         "sisi"; "ninyi"; "wao"; "nini"; "nani"; "wapi"; "lini"; "je";
         "cha"; "vya"; "nchi"; "watu"; "mtu"; "yake"; "yangu"; "yetu";
         "moja"; "mbili"; "tatu"; "nne"; "tano"; "ndiyo"; "hapana"; "sasa";
         "leo"; "jana"; "kesho"; "wakati"; "wengine"; "ndani"; "nje";
         "karibu"; "kweli"; "hapo"; "hapa"; "ule"; "ile"; "kila";
         "basi" ]%string);
     english_words := map u
       [ "the"; "is"; "are"; "was"; "were"; "have"; "has"; "had"; "will";
         "would"; "could"; "should"; "can"; "may"; "must"; "do"; "does";
         "did"; "this"; "that"; "these"; "those"; "what"; "where"; "when";
         "why"; "how"; "who"; "which"; "and"; "but"; "or"; "so"; "because";
         "if"; "then"; "okay"; "sure"; "yes"; "no"; "maybe"; "thanks";
         "morning"; "afternoon"; "evening" ]%string |}.

(** The marker put before a token classified as English or Sheng. *)
Definition cs_marker : str := u "[cs]".

Section Annotator.

Variable U : unicode_db.
Variable L : word_lists.

(** [word_clean]. *)
Definition word_clean (word : str) : str := lower U (strip_nonword U word).

(** The first test of the loop: an empty key or a common Swahili word. *)
Definition is_kept (clean : str) : bool :=
  match clean with
  | [] => true
  | _ :: _ => bool_decide (clean ∈ swahili_common L)
  end.

(** The second test: an English indicator, suffix or letter. *)
Definition is_english (clean : str) : bool :=
  re_search U (english_words L) None clean
  || existsb (fun suffix => endswith suffix clean)
       (map u [ "ing"; "ed"; "tion"; "ment" ]%string)
  || existsb (fun c => bool_decide (c ∈ clean)) [ 120%N; 113%N ].

(** Is the token marked (or, when strict, dropped)? *)
Definition is_foreign (word : str) : bool :=
  let clean := word_clean word in
  negb (is_kept clean) && is_english clean.

(** One pass of the loop body over [word]. *)
Definition annotate_word (strict_swahili : bool) (processed : list str)
    (word : str) : list str :=
  let clean := word_clean word in
  if is_kept clean then processed ++ [word]
  else if is_english clean then
         if strict_swahili then processed
         else processed ++ [cs_marker ++ u " " ++ word]
       else processed ++ [word].

(** [detect_code_switching(text, strict_swahili)]; the variants without the
    flag are the case [strict_swahili = false]. *)
Definition detect_code_switching (strict_swahili : bool) (text : str) : str :=
  let words := split text in
  let processed := fold_left (annotate_word strict_swahili) words [] in
  join (u " ") processed.

End Annotator.

(** ** Exceptions, answers of the outside world, results of calls *)

(** The three places an exception can sit in Python's hierarchy, as far as
    the handlers of this code tell them apart: [except Exception],
    [except KeyboardInterrupt], and a bare [except:]. *)
Inductive exn_class :=
| ExceptionClass
| KeyboardInterruptClass
| BaseExceptionClass.

Record exn := { exn_class_of : exn_class; exn_str : str }.

Definition is_Exception (e : exn) : bool :=
  match exn_class_of e with ExceptionClass => true | _ => false end.

Definition ZeroDivisionError : exn :=
  {| exn_class_of := ExceptionClass;
     exn_str := u "integer division or modulo by zero" |}.

Definition IndexError : exn :=
  {| exn_class_of := ExceptionClass; exn_str := u "list index out of range" |}.

(** What an external call answers. *)
Inductive result (A : Type) :=
| Ok (a : A)
| Err (e : exn).
Arguments Ok {A} a.
Arguments Err {A} e.

(** How a call of this program ends; [Pending] when the outside world has
    not yet answered everything the call asks. *)
Inductive outcome (A : Type) :=
| Return (a : A)
| Raise (e : exn)
| Pending.
Arguments Return {A} a.
Arguments Raise {A} e.
Arguments Pending {A}.

(** [not x] for an optional string: [None] and the empty string are falsy. *)
Definition falsy (x : option str) : bool :=
  match x with
  | None | Some [] => true
  | Some (_ :: _) => false
  end.

(** ** The automation object and its observable effects *)

Inductive event :=
| EvAttempt (model : str)   (* one upload-and-generate attempt on a model *)
| EvSwitch (model : str)    (* [switch_to_next_model] built this model *)
| EvSleep (seconds : N)     (* [time.sleep] *)
| EvHeader (n : nat)        (* the header [AUDIO #n] printed for a unit *)
| EvCreate (path : str)     (* [download_audio] wrote the temporary file *)
| EvType (text : str)       (* the text typed into the textarea *)
| EvPrompt                  (* [input("Try again? (y/n): ")] *)
| EvUnlink (path : str).    (* [os.unlink] was called *)

(** The fields of [self] that rotation and counting use, the seconds slept
    so far, the temporary files on disk and the effects so far, oldest
    first. *)
Record automation := Automation {
  model_names : list str;
  current_model_index : nat;
  current_model_name : str;
  gemini_model : str;
  model_retry_count : gmap str nat;
  audio_count : nat;
  clock : N;
  files : gset str;
  trace : list event
}.

Definition emit (e : event) (st : automation) : automation :=
  Automation (model_names st) (current_model_index st)
    (current_model_name st) (gemini_model st) (model_retry_count st)
    (audio_count st) (clock st) (files st) (trace st ++ [e]).

(** [time.sleep(seconds)]. *)
Definition sleep (seconds : N) (st : automation) : automation :=
  Automation (model_names st) (current_model_index st)
    (current_model_name st) (gemini_model st) (model_retry_count st)
    (audio_count st) (clock st + seconds)%N (files st)
    (trace st ++ [EvSleep seconds]).

(** [self.current_model_index = i]. *)
Definition set_index (i : nat) (st : automation) : automation :=
  Automation (model_names st) i
    (current_model_name st) (gemini_model st) (model_retry_count st)
    (audio_count st) (clock st) (files st) (trace st).

(** [self.audio_count += 1]. *)
Definition count_audio (st : automation) : automation :=
  Automation (model_names st) (current_model_index st)
    (current_model_name st) (gemini_model st) (model_retry_count st)
    (S (audio_count st)) (clock st) (files st) (trace st).

Definition set_files (fs : gset str) (st : automation) : automation :=
  Automation (model_names st) (current_model_index st)
    (current_model_name st) (gemini_model st) (model_retry_count st)
    (audio_count st) (clock st) fs (trace st).

(** [self.model_names] of [gemini_multi_transcribe.py]. *)
Definition configured_models : list str :=
  map u [ "models/gemini-2.0-flash-lite"; "models/gemini-2.0-flash";
          "models/gemini-2.5-flash-lite"; "models/gemini-2.5-flash";
          "models/gemini-2.0-flash-exp" ]%string.

(** [__init__] over a list of model names; without a first name the
    constructor leaves the process. *)
Definition init_with (names : list str) : option automation :=
  match names with
  | [] => None
  | first :: _ =>
      Some {| model_names := names; current_model_index := 0;
              current_model_name := first; gemini_model := first;
              model_retry_count := ∅; audio_count := 0; clock := 0;
              files := ∅; trace := [] |}
  end.

(** The object [__init__] builds in [gemini_multi_transcribe.py]. *)
Definition init : automation :=
  {| model_names := configured_models; current_model_index := 0;
     current_model_name := u "models/gemini-2.0-flash-lite";
     gemini_model := u "models/gemini-2.0-flash-lite";
     model_retry_count := ∅; audio_count := 0; clock := 0;
     files := ∅; trace := [] |}.

(** ** Model-rotation controller *)

(** [switch_to_next_model]. *)
Definition switch_to_next_model (st : automation) : result automation :=
  match length (model_names st) with
  | 0 => Err ZeroDivisionError
  | S _ as n =>
      let index := (current_model_index st + 1) mod n in
      match model_names st !! index with
      | None => Err IndexError
      | Some name =>
          let count := default 0 (model_retry_count st !! name) in
          Ok {| model_names := model_names st;
                current_model_index := index;
                current_model_name := name;
                gemini_model := name;
                model_retry_count := <[name := S count]> (model_retry_count st);
                audio_count := audio_count st;
                clock := clock st;
                files := files st;
                trace := trace st ++ [EvSwitch name] |}
      end
  end.

(** The test of the handler on [error_message = str(e).lower()]. *)
Definition is_rate_limit (error_message : str) : bool :=
  contains (u "rate limit") error_message
  || contains (u "429") error_message
  || contains (u "quota") error_message
  || contains (u "resource_exhausted") error_message.

(** What the [try] body of one [transcribe_audio] attempt comes to: the
    response text, a file whose state is [FAILED], or an exception raised
    by the upload, the polling or the generation. *)
Inductive attempt :=
| Responded (text : str)
| ProcessingFailed
| Failed (e : exn).

(** [transcribe_audio(audio_file, retry_count)] of
    [gemini_multi_transcribe.py].  The provider's answers are consumed one
    per attempt; the call is [Pending] when it asks for more than given.
    Every retry is a call of the function by itself from inside its handler
    (lines 336 and 344).  This definition is the program as long as the
    interpreter's recursion limit is out of reach;
    [transcribe_audio_frames] below has the limit. *)
Fixpoint transcribe_audio (U : unicode_db) (st : automation)
    (retry_count : nat) (answers : list attempt)
  : automation * outcome (option str) :=
  let max_retries := length (model_names st) in
  match answers with
  | [] => (st, Pending)
  | answer :: answers' =>
      let st := emit (EvAttempt (gemini_model st)) st in
      match answer with
      | Responded text => (st, Return (Some (normalize_multi text)))
      | ProcessingFailed => (st, Return None)
      | Failed e =>
          if is_Exception e then
            let error_message := lower U (exn_str e) in
            if is_rate_limit error_message then
              if retry_count <? max_retries then
                match switch_to_next_model st with
                | Err e' => (st, Raise e')
                | Ok st =>
                    let st := sleep 3 st in
                    transcribe_audio U st (retry_count + 1) answers'
                end
              else
                let st := sleep 60 st in
                let st := set_index 0 st in
                match switch_to_next_model st with
                | Err e' => (st, Raise e')
                | Ok st => transcribe_audio U st 0 answers'
                end
            else (st, Return None)
          else (st, Raise e)
      end
  end.



(** ** Pipeline orchestrator of [gemini_multi_transcribe.py] *)

(** A handler [except Exception: return fallback] around an external call. *)
Definition except_Exception {A : Type} (fallback : A) (r : result A)
  : result A :=
  match r with
  | Ok a => Ok a
  | Err e => if is_Exception e then Ok fallback else Err e
  end.

(** One look of [wait_for_submit] at the review page. *)
Record poll := {
  (** an exception that arrives during [time.sleep(2)] *)
  poll_interrupt : option exn;
  (** the textarea's value; [None] when looking it up raises, which the
      bare [except: pass] swallows *)
  poll_textarea : option str;
  (** [self.driver.current_url] *)
  poll_url : result str
}.

(** What the outside world answers during one processing unit. *)
Record unit_env := {
  (** [get_audio_url()] *)
  env_audio_url : option str;
  (** the body of [download_audio]: the temporary file's path *)
  env_download : result str;
  (** the temporary file a failing download leaves behind: the file is
      created (line 196) before the body is streamed into it (lines
      197-201), and nothing deletes it when that fails; [None] when the
      download fails before the file is created *)
  env_partial_file : option str;
  (** the provider, one answer per attempt *)
  env_attempts : list attempt;
  (** the body of [insert_transcription] *)
  env_insert : result unit;
  (** [self.driver.current_url] when the wait starts *)
  env_current_url : result str;
  (** the review page, look by look *)
  env_polls : nat -> poll;
  (** does the operating system carry out [os.unlink]? *)
  env_unlink : bool
}.

(** What a download that fails leaves on disk. *)
Definition leave_partial (partial_file : option str) (st : automation)
  : automation :=
  match partial_file with
  | Some path => emit (EvCreate path) (set_files ({[ path ]} ∪ files st) st)
  | None => st
  end.

(** [download_audio(audio_url)]: the path, or [None] after an error. *)
Definition download_audio (st : automation) (env : unit_env)
  : automation * result (option str) :=
  match env_download env with
  | Ok path =>
      (emit (EvCreate path) (set_files ({[ path ]} ∪ files st) st),
       Ok (Some path))
  | Err e =>
      (leave_partial (env_partial_file env) st, except_Exception None (Err e))
  end.

(** [insert_transcription(transcription)]. *)
Definition insert_transcription (st : automation) (env : unit_env)
    (transcription : str) : automation * result bool :=
  match env_insert env with
  | Ok tt => (emit (EvType transcription) st, Ok true)
  | Err e => (st, except_Exception false (Err e))
  end.

(** [not textarea.get_attribute("value").strip()]. *)
Definition textarea_cleared (p : poll) : bool :=
  match poll_textarea p with
  | Some value => match strip value with [] => true | _ :: _ => false end
  | None => false
  end.

(** The seconds [wait_for_submit] waits at most, and between two looks. *)
Definition review_timeout : N := 600.
Definition review_interval : N := 2.

(** The [while] loop of [wait_for_submit]; [k] counts the looks so far.
    [fuel] bounds the iterations: the clock advances by [review_interval]
    in each, so [wait_fuel] of them are never used up. *)
Fixpoint wait_loop (fuel : nat) (st : automation) (start_time : N)
    (current_id : str) (polls : nat -> poll) (k : nat)
  : automation * outcome bool :=
  match fuel with
  | 0 => (st, Pending)
  | S fuel' =>
      if (clock st - start_time <? review_timeout)%N then
        let p := polls k in
        match poll_interrupt p with
        | Some e => (st, Raise e)
        | None =>
            let st := sleep review_interval st in
            if textarea_cleared p then (sleep 2 st, Return true)
            else match poll_url p with
                 | Err e => (st, Raise e)
                 | Ok url =>
                     if str_eqb url current_id
                     then wait_loop fuel' st start_time current_id polls (S k)
                     else (st, Return true)
                 end
        end
      else (st, Return false)
  end.

Definition wait_fuel : nat := 301.

(** [wait_for_submit()]: the outer handler turns an [Exception] into
    [False]. *)
Definition wait_for_submit (st : automation) (env : unit_env)
  : automation * outcome bool :=
  let '(st', r) :=
    match env_current_url env with
    | Err e => (st, Raise e)
    | Ok current_id =>
        wait_loop wait_fuel st (clock st) current_id (env_polls env) 0
    end in
  match r with
  | Raise e => if is_Exception e then (st', Return false) else (st', Raise e)
  | _ => (st', r)
  end.

(** [try: os.unlink(audio_file) except: pass]. *)
Definition unlink (carried_out : bool) (audio_file : str) (st : automation)
  : automation :=
  let st := emit (EvUnlink audio_file) st in
  if carried_out then set_files (files st ∖ {[ audio_file ]}) st else st.

(** [try: body finally: cleanup], once the body has ended. *)
Definition try_finally {A : Type} (body : automation * outcome A)
    (cleanup : automation -> automation) : automation * outcome A :=
  match body with
  | (st, Pending) => (st, Pending)
  | (st, r) => (cleanup st, r)
  end.

(** The [try] block of [process_audio()], entered with the audio file on
    disk. *)
Definition process_body (U : unicode_db) (st : automation) (env : unit_env)
  : automation * outcome bool :=
  match transcribe_audio U st 0 (env_attempts env) with
  | (st, Pending) => (st, Pending)
  | (st, Raise e) => (st, Raise e)
  | (st, Return transcription) =>
      match transcription with
      | None | Some [] => (st, Return false)
      | Some ((_ :: _) as transcription) =>
          let processed :=
            detect_code_switching U lists_gemini false transcription in
          match insert_transcription st env processed with
          | (st, Err e) => (st, Raise e)
          | (st, Ok false) => (st, Return false)
          | (st, Ok true) => wait_for_submit st env
          end
      end
  end.

(** [process_audio()] of [gemini_multi_transcribe.py]. *)
Definition process_audio (U : unicode_db) (st : automation) (env : unit_env)
  : automation * outcome bool :=
  let st := count_audio st in
  let st := emit (EvHeader (audio_count st)) st in
  let audio_url := env_audio_url env in
  if falsy audio_url then (st, Return false) else
  match download_audio st env with
  | (st, Err e) => (st, Raise e)
  | (st, Ok audio_file) =>
      match audio_file with
      | None | Some [] => (st, Return false)
      | Some ((_ :: _) as audio_file) =>
          try_finally (process_body U st env)
                      (unlink (env_unlink env) audio_file)
      end
  end.

(** One turn of the main loop: a unit and, should the unit fail, what the
    operator types at the prompt. *)
Record iteration := {
  it_env : unit_env;
  it_answer : result str
}.

Inductive run_status :=
| Ended               (* the loop was left by [break] *)
| Running             (* the loop is waiting for the outside world *)
| Crashed (e : exn).  (* an exception left the loop *)

(** An exception inside the [try] of the loop body. *)
Definition loop_handler (e : exn) (continue : automation -> automation * run_status)
    (st : automation) : automation * run_status :=
  match exn_class_of e with
  | KeyboardInterruptClass => (st, Ended)
  | ExceptionClass => continue (sleep 3 st)
  | BaseExceptionClass => (st, Crashed e)
  end.

(** The [while True] loop of [run()]. *)
Fixpoint run_loop (U : unicode_db) (st : automation) (script : list iteration)
  : automation * run_status :=
  match script with
  | [] => (st, Running)
  | it :: script' =>
      match process_audio U st (it_env it) with
      | (st, Pending) => (st, Running)
      | (st, Raise e) => loop_handler e (fun st => run_loop U st script') st
      | (st, Return true) => run_loop U (sleep 3 st) script'
      | (st, Return false) =>
          let st := emit EvPrompt st in
          match it_answer it with
          | Err e => loop_handler e (fun st => run_loop U st script') st
          | Ok answer =>
              let retry := lower U answer in
              if str_eqb retry (u "y") then run_loop U st script'
              else (st, Ended)
          end
      end
  end.

(** [run()]: the loop starts once the login check has passed. *)
Definition run (U : unicode_db) (st : automation) (logged_in : bool)
    (script : list iteration) : automation * run_status :=
  if logged_in then run_loop U st script else (st, Ended).

(** ** Pipeline orchestrator of [transcribe_3.py] *)

(** What the outside world answers during one processing unit of
    [transcribe_3.py]. *)
Record unit_env_3 := {
  (** [get_audio_url()], which lets some errors through *)
  env3_audio_url : result (option str);
  (** the body of [download_audio] *)
  env3_download : result str;
  (** the temporary file a failing download leaves behind (created in line
      266, before the body is streamed into it); [None] when the download
      fails before that *)
  env3_partial_file : option str;
  (** [self.transcription_method] *)
  env3_method : str;
  (** the body of the [transcribe_audio_*] method selected *)
  env3_transcription : result str;
  (** the body of [insert_transcription] *)
  env3_insert : result unit;
  (** how [wait_for_submit()] ends: [True], [False] (time-out, or an
      [Exception] caught inside), or an exception it lets through *)
  env3_wait : result bool;
  (** does the operating system carry out [os.unlink]? *)
  env3_unlink : bool
}.

Definition transcription_methods : list str :=
  map u [ "whisper-local"; "openai-api"; "gemini-api"; "openrouter" ]%string.

(** The inner [try] block of [process_audio()] of [transcribe_3.py]. *)
Definition process_body_3 (U : unicode_db) (st : automation)
    (env : unit_env_3) : automation * outcome bool :=
  if negb (bool_decide (env3_method env ∈ transcription_methods))
  then (st, Return false)
  else
    match except_Exception None
            match env3_transcription env with
            | Ok text => Ok (Some text)
            | Err e => Err e
            end with
    | Err e => (st, Raise e)
    | Ok (None | Some []) => (st, Return false)
    | Ok (Some ((_ :: _) as transcription)) =>
        let processed_transcription :=
          detect_code_switching U lists_transcribe_3 false transcription in
        match except_Exception false
                match env3_insert env with
                | Ok tt => Ok true
                | Err e => Err e
                end with
        | Err e => (st, Raise e)
        | Ok false => (st, Return false)
        | Ok true =>
            let st := emit (EvType processed_transcription) st in
            match env3_wait env with
            | Ok submitted => (st, Return submitted)
            | Err e => (st, Raise e)
            end
        end
    end.

(** [process_audio()] of [transcribe_3.py]; the outer handler turns an
    [Exception] into [False]. *)
Definition process_audio_3 (U : unicode_db) (st : automation)
    (env : unit_env_3) : automation * outcome bool :=
  let st := count_audio st in
  let st := emit (EvHeader (audio_count st)) st in
  let '(st, r) :=
    match env3_audio_url env with
    | Err e => (st, Raise e)
    | Ok audio_url =>
        if falsy audio_url then (st, Return false) else
        let st :=
          match env3_download env with
          | Ok _ => st
          | Err _ => leave_partial (env3_partial_file env) st
          end in
        match except_Exception None
                match env3_download env with
                | Ok path => Ok (Some path)
                | Err e => Err e
                end with
        | Err e => (st, Raise e)
        | Ok (None | Some []) => (st, Return false)
        | Ok (Some ((_ :: _) as audio_file)) =>
            let st :=
              emit (EvCreate audio_file)
                   (set_files ({[ audio_file ]} ∪ files st) st) in
            try_finally (process_body_3 U st env)
                        (unlink (env3_unlink env) audio_file)
        end
    end in
  match r with
  | Raise e => if is_Exception e then (st, Return false) else (st, Raise e)
  | _ => (st, r)
  end.

(** ** Vocabulary of the statements *)

(** *** Strings *)

(** A token: what [split] returns, non-empty and free of whitespace. *)
Definition is_token (w : str) : Prop :=
  w <> [] /\ Forall (fun c => isspace c = false) w.

(** Whitespace, or the end of the text, ends a token. *)
Definition token_end (rest : str) : Prop :=
  rest = [] \/ exists d r, rest = d :: r /\ isspace d = true.

(** [needle] is a contiguous part of [s]. *)
Definition occurs_in (needle s : str) : Prop :=
  exists pre post, s = pre ++ needle ++ post.

(** *** Annotator *)

(** What the loop appends for one word. *)
Definition emitted (U : unicode_db) (L : word_lists)
    (strict_swahili : bool) (word : str) : list str :=
  if is_foreign U L word
  then if strict_swahili then [] else [cs_marker ++ u " " ++ word]
  else [word].

(** What one input token contributes to the whitespace-delimited tokens of
    the marked output. *)
Definition marked_tokens (U : unicode_db) (L : word_lists) (word : str)
  : list str :=
  if is_foreign U L word then [cs_marker; word] else [word].

(** Deleting every [[cs]] token. *)
Definition drop_markers (tokens : list str) : list str :=
  List.filter (fun t => negb (str_eqb t cs_marker)) tokens.

(** *** Controller *)

(** The substrings the handler looks for in the lower-cased message. *)
Definition rate_limit_signals : list str :=
  map u [ "rate limit"; "429"; "quota"; "resource_exhausted" ]%string.

(** An answer the handler treats as quota exhaustion. *)
Definition is_quota_exceeded (U : unicode_db) (answer : attempt) : bool :=
  match answer with
  | Failed e => is_Exception e && is_rate_limit (lower U (exn_str e))
  | _ => false
  end.

(** The number of descriptor switches so far. *)
Definition switches (st : automation) : nat :=
  length (List.filter (fun e => match e with EvSwitch _ => true | _ => false end)
            (trace st)).

(** The sum of the switch counts [model_retry_count] keeps per model. *)
Definition total_retry_count (st : automation) : nat :=
  map_fold (fun _ count total => count + total) 0 (model_retry_count st).

(** What every automation object built by [__init__] and changed only by
    the controller satisfies. *)
Definition rotation_ok (st : automation) : Prop :=
  model_names st !! current_model_index st = Some (current_model_name st)
  /\ gemini_model st = current_model_name st.

(** A step that leaves the rotation state alone. *)
Definition same_rotation (st st' : automation) : Prop :=
  model_names st' = model_names st
  /\ current_model_index st' = current_model_index st
  /\ current_model_name st' = current_model_name st
  /\ gemini_model st' = gemini_model st.



(** *** Orchestrator *)

(** The [os.unlink] calls on [path] so far. *)
Definition unlink_calls (path : str) (st : automation) : nat :=
  length (List.filter (fun e => match e with
                                | EvUnlink p => str_eqb p path
                                | _ => false
                                end) (trace st)).

(** The unit headers printed so far. *)
Definition headers (st : automation) : nat :=
  length (List.filter (fun e => match e with EvHeader _ => true | _ => false end)
            (trace st)).

(** A step that creates and deletes no file, starts no unit and leaves
    the unit count alone. *)
Definition frame (st st' : automation) : Prop :=
  files st' = files st
  /\ audio_count st' = audio_count st
  /\ headers st' = headers st
  /\ forall path, unlink_calls path st' = unlink_calls path st.

(** The audio file of a unit was acquired. *)
Definition acquired (env : unit_env) (audio_file : str) : Prop :=
  falsy (env_audio_url env) = false
  /\ env_download env = Ok audio_file
  /\ audio_file <> [].

Definition acquired_3 (env : unit_env_3) (audio_file : str) : Prop :=
  (exists audio_url, env3_audio_url env = Ok audio_url
                     /\ falsy audio_url = false)
  /\ env3_download env = Ok audio_file
  /\ audio_file <> [].

(** Between [st] and [st'], [os.unlink] was called on [audio_file] once, as
    the last effect; if it was carried out the file is gone. *)
Definition deleted_once (audio_file : str) (carried_out : bool)
    (st st' : automation) : Prop :=
  unlink_calls audio_file st' = S (unlink_calls audio_file st)
  /\ last (trace st') = Some (EvUnlink audio_file)
  /\ (carried_out = true -> audio_file ∉ files st').

(** A look at the review page that shows no submission. *)
Definition quiet (current_id : str) (p : poll) : Prop :=
  poll_interrupt p = None
  /\ textarea_cleared p = false
  /\ poll_url p = Ok current_id.

(** The review wait elapses without a submission signal. *)
Definition review_times_out (env : unit_env) : Prop :=
  exists current_id,
    env_current_url env = Ok current_id
    /\ forall k, quiet current_id (env_polls env k).

(** The unit gets as far as the review wait, which starts in [st_w]. *)
Definition reaches_wait (U : unicode_db) (st : automation) (env : unit_env)
    (audio_file : str) (st_w : automation) : Prop :=
  exists text st_t,
    falsy (env_audio_url env) = false
    /\ env_download env = Ok audio_file
    /\ audio_file <> []
    /\ transcribe_audio U
         (fst (download_audio
                 (emit (EvHeader (S (audio_count st))) (count_audio st)) env))
         0 (env_attempts env)
       = (st_t, Return (Some text))
    /\ text <> []
    /\ env_insert env = Ok tt
    /\ st_w = emit (EvType (detect_code_switching U lists_gemini false text)) st_t.

(** ** Inputs of the examples *)

(** A provider answer with a quota message, for the examples. *)
Definition quota_answer : attempt :=
  Failed {| exn_class_of := ExceptionClass;
            exn_str := u "429 Resource has been exhausted (e.g. check quota)." |}.

(** The object after an earlier call that met two quota errors before the
    provider answered: the rotation index is left at 2. *)
Definition after_two_switches : automation :=
  fst (transcribe_audio ascii_db init 0
         [quota_answer; quota_answer; Responded (u "habari yako")]).

(** A unit whose review wait times out, and a unit that would succeed at
    once, for the examples. *)
Definition quiet_poll : poll :=
  {| poll_interrupt := None;
     poll_textarea := Some (u "habari yako");
     poll_url := Ok (u "https://example.test/transcribe") |}.

Definition submitted_poll : poll :=
  {| poll_interrupt := None;
     poll_textarea := Some [];
     poll_url := Ok (u "https://example.test/transcribe") |}.

Definition timeout_unit : unit_env :=
  {| env_audio_url := Some (u "https://example.test/a.mp3");
     env_download := Ok (u "/tmp/tmpa1.mp3");
     env_partial_file := None;
     env_attempts := [Responded (u "habari yako")];
     env_insert := Ok tt;
     env_current_url := Ok (u "https://example.test/transcribe");
     env_polls := fun _ => quiet_poll;
     env_unlink := true |}.

Definition good_unit : unit_env :=
  {| env_audio_url := Some (u "https://example.test/b.mp3");
     env_download := Ok (u "/tmp/tmpb2.mp3");
     env_partial_file := None;
     env_attempts := [Responded (u "habari yako")];
     env_insert := Ok tt;
     env_current_url := Ok (u "https://example.test/transcribe");
     env_polls := fun _ => submitted_poll;
     env_unlink := true |}.

Definition no_audio_unit : unit_env :=
  {| env_audio_url := None;
     env_download := Ok (u "/tmp/tmpc3.mp3");
     env_partial_file := None;
     env_attempts := [];
     env_insert := Ok tt;
     env_current_url := Ok (u "https://example.test/transcribe");
     env_polls := fun _ => submitted_poll;
     env_unlink := true |}.

(** A unit of [transcribe_3.py] whose transcription fails, for the
    examples. *)
Definition failing_unit_3 : unit_env_3 :=
  {| env3_audio_url := Ok (Some (u "https://example.test/a.mp3"));
     env3_download := Ok (u "/tmp/tmpa1.mp3");
     env3_partial_file := None;
     env3_method := u "openai-api";
     env3_transcription :=
       Err {| exn_class_of := ExceptionClass; exn_str := u "401 Unauthorized" |};
     env3_insert := Ok tt;
     env3_wait := Ok true;
     env3_unlink := true |}.

(** The operator's answer to the prompt, for the examples. *)
Definition timeout_then_decline : list iteration :=
  [ {| it_env := timeout_unit; it_answer := Ok (u "n") |};
    {| it_env := good_unit; it_answer := Ok (u "n") |} ].

(** ** Further vocabulary *)

(** A code point that is not whitespace. *)
Definition nonspace (c : N) : bool := negb (isspace c).

(** A text in which whitespace only separates: no whitespace at either
    end, single separators, and every separator the space U+0020. *)
Definition whitespace_normal (y : str) : Prop :=
  strip y = y
  /\ join (u " ") (split y) = y
  /\ Forall (fun c => isspace c = true -> c = 32%N) y.

(** The stop words [transcribe_3.py] has beyond the other variants. *)
Definition extra_swahili_common : list str :=
  map u [ "sasa"; "leo"; "jana"; "kesho"; "wakati"; "wengine"; "ndani";
          "nje"; "karibu"; "kweli"; "hapo"; "hapa"; "ule"; "ile"; "kila";
          "basi" ]%string.

(** The character class kept by [re.sub(r"[^\w']+", "", word)]. *)
Definition kept_char (U : unicode_db) (c : N) : bool :=
  is_word U c || (c =? 39)%N.


(** The switch count [model_retry_count] keeps for [name]; a model never
    switched to has no entry. *)
Definition count_of (st : automation) (name : str) : nat :=
  default 0 (model_retry_count st !! name).

(** An effect that names no model. *)
Definition model_free (e : event) : bool :=
  match e with
  | EvAttempt _ | EvSwitch _ => false
  | _ => true
  end.

(** An effect that names a model names one of [names]. *)
Definition event_model_ok (names : list str) (e : event) : Prop :=
  match e with
  | EvAttempt model | EvSwitch model => In model names
  | _ => True
  end.

(** Every entry of [model_retry_count] is a positive count of a configured
    model. *)
Definition counts_ok (st : automation) : Prop :=
  forall name count,
    model_retry_count st !! name = Some count ->
    1 <= count /\ In name (model_names st).

(** The controller's state is consistent with its past. *)
Definition controller_ok (st : automation) : Prop :=
  rotation_ok st
  /\ Forall (event_model_ok (model_names st)) (trace st)
  /\ counts_ok st.

(** A step outside the controller: rotation state and counts stay, and the
    effects added name no model. *)
Definition quiet_step (st st' : automation) : Prop :=
  same_rotation st st'
  /\ model_retry_count st' = model_retry_count st
  /\ exists events, trace st' = trace st ++ events
                    /\ forallb model_free events = true.

(** The model list is kept and no count decreases. *)
Definition counts_grow (st st' : automation) : Prop :=
  model_names st' = model_names st
  /\ forall name, count_of st name <= count_of st' name.

(** A look at the review page that shows the submission: the textarea is
    empty, or the page's address is no longer [current_id]. *)
Definition submitted_at (current_id : str) (p : poll) : Prop :=
  poll_interrupt p = None
  /\ (textarea_cleared p = true
      \/ exists url, poll_url p = Ok url /\ url <> current_id).

(** No download of the script gives an empty path (the name of a temporary
    file is never empty) and every [os.unlink] is carried out. *)
Definition unlinks_carried_out (script : list iteration) : Prop :=
  Forall (fun it => env_unlink (it_env it) = true
                    /\ env_download (it_env it) <> Ok []) script.

(** The file the failed download of a unit leaves on disk. *)
Definition leftover (env : unit_env) : gset str :=
  match env_download env, env_partial_file env with
  | Err _, Some path => {[ path ]}
  | _, _ => ∅
  end.

Fixpoint leftovers (script : list iteration) : gset str :=
  match script with
  | [] => ∅
  | it :: script' => leftover (it_env it) ∪ leftovers script'
  end.

(** A unit whose download breaks off while the body is streamed into the
    temporary file, and a run of that unit alone, for the examples. *)
Definition broken_download_unit : unit_env :=
  {| env_audio_url := Some (u "https://example.test/d.mp3");
     env_download :=
       Err {| exn_class_of := ExceptionClass;
              exn_str := u "Connection broken: IncompleteRead" |};
     env_partial_file := Some (u "/tmp/tmpd4.mp3");
     env_attempts := [];
     env_insert := Ok tt;
     env_current_url := Ok (u "https://example.test/transcribe");
     env_polls := fun _ => quiet_poll;
     env_unlink := true |}.

Definition broken_then_decline : list iteration :=
  [ {| it_env := broken_download_unit; it_answer := Ok (u "n") |};
    {| it_env := good_unit; it_answer := Ok (u "n") |} ].

(** ** The downloaded file and its type *)

(** The suffix [download_audio] of [gemini_multi_transcribe.py] and of
    [gemini_transcribe.py] gives the temporary file, from the response's
    content type. *)
Definition extension (content_type : str) : str :=
  let ext := u ".mp3" in
  if contains (u "wav") content_type then u ".wav"
  else if contains (u "ogg") content_type then u ".ogg"
  else if contains (u "webm") content_type then u ".webm"
  else ext.

(** The same choice in [transcribe_3.py], which looks for [mp3] first. *)
Definition extension_3 (content_type : str) : str :=
  if contains (u "mp3") content_type then u ".mp3"
  else if contains (u "wav") content_type then u ".wav"
  else if contains (u "ogg") content_type then u ".ogg"
  else if contains (u "webm") content_type then u ".webm"
  else u ".mp3".

Definition extensions : list str := [u ".mp3"; u ".wav"; u ".ogg"; u ".webm"].

(** [s.rfind(c)] for one code point: the last index, or -1. *)
Fixpoint rfind_from (c : N) (s : str) (i best : Z) : Z :=
  match s with
  | [] => best
  | x :: s' => rfind_from c s' (i + 1) (if (x =? c)%N then i else best)
  end.

Definition rfind (c : N) (s : str) : Z := rfind_from c s 0 (-1).

(** [s[i:j]] for [0 <= i]. *)
Definition slice (s : str) (i j : Z) : str :=
  take (Z.to_nat j - Z.to_nat i) (drop (Z.to_nat i) s).

(** [os.path.splitext(p)] on POSIX: the extension starts at the last dot
    of the last path component, unless only dots precede it there. *)
Definition splitext (p : str) : str * str :=
  let sepIndex := rfind 47 p in
  let dotIndex := rfind 46 p in
  if (dotIndex >? sepIndex)%Z
     && existsb (fun c => negb (c =? 46)%N) (slice p (sepIndex + 1) dotIndex)
  then (take (Z.to_nat dotIndex) p, drop (Z.to_nat dotIndex) p)
  else (p, []).

(** The dictionary of [transcribe_audio_openrouter]. *)
Definition mime_types : gmap str str :=
  list_to_map
    [ (u ".mp3", u "audio/mp3"); (u ".wav", u "audio/wav");
      (u ".ogg", u "audio/ogg"); (u ".webm", u "audio/webm");
      (u ".m4a", u "audio/mp4") ].

(** [mime_types.get(os.path.splitext(audio_file)[1].lower(), 'audio/mp3')]. *)
Definition mime_type (U : unicode_db) (audio_file : str) : str :=
  let ext := lower U (snd (splitext audio_file)) in
  default (u "audio/mp3") (mime_types !! ext).

(** A code point that can stand in the random part of a temporary file's
    name: neither the dot nor the slash. *)
Definition name_char (c : N) : Prop := c <> 46%N /\ c <> 47%N.

(** ** The controller of [gemini_transcribe.py] *)

(** The calls [transcribe_audio] makes to the outside. *)
Inductive api_call :=
| ApiUpload
| ApiSleep (seconds : N)
| ApiGetFile
| ApiGenerate
| ApiDelete.

Record api_state := ApiState {
  api_clock : N;
  api_calls : list api_call
}.

Definition api_do (c : api_call) (st : api_state) : api_state :=
  ApiState (api_clock st) (api_calls st ++ [c]).

Definition api_sleep (seconds : N) (st : api_state) : api_state :=
  ApiState (api_clock st + seconds)%N (api_calls st ++ [ApiSleep seconds]).

(** What [genai.upload_file] answers: a file object in some state, an
    [exceptions.ResourceExhausted] (an [Exception]), or another exception. *)
Inductive upload_answer :=
| Uploaded (state_name : str)
| ResourceExhausted (message : str)
| UploadRaised (e : exn).

Definition resource_exhausted (message : str) : exn :=
  {| exn_class_of := ExceptionClass; exn_str := message |}.

(** Reading [audio_file_obj] when no iteration of the loop has bound it. *)
Definition UnboundLocalError : exn :=
  {| exn_class_of := ExceptionClass;
     exn_str := u "local variable 'audio_file_obj' referenced before assignment" |}.

Record single_env := {
  (** [genai.upload_file(audio_file)] at each attempt *)
  se_upload : nat -> upload_answer;
  (** the state name after each [genai.get_file] *)
  se_get_file : nat -> result str;
  (** [self.gemini_model.generate_content(...)] *)
  se_generate : result unit;
  (** [genai.delete_file(...)] *)
  se_delete : result unit;
  (** [response.text] *)
  se_text : result str
}.

(** [for attempt in range(3): try: upload; break
     except ResourceExhausted: if attempt == 2: raise; time.sleep(5)]. *)
Fixpoint upload_loop (attempts : list nat) (env : single_env)
    (st : api_state) : api_state * outcome str :=
  match attempts with
  | [] => (st, Raise UnboundLocalError)
  | attempt :: attempts' =>
      let st := api_do ApiUpload st in
      match se_upload env attempt with
      | Uploaded state_name => (st, Return state_name)
      | ResourceExhausted message =>
          if (attempt =? 2)%nat then (st, Raise (resource_exhausted message))
          else upload_loop attempts' env (api_sleep 5 st)
      | UploadRaised e => (st, Raise e)
      end
  end.

(** [while audio_file_obj.state.name == "PROCESSING": time.sleep(2);
     audio_file_obj = genai.get_file(...)]; [k] counts the calls. *)
Fixpoint processing_loop (fuel : nat) (env : single_env) (st : api_state)
    (state_name : str) (k : nat) : api_state * outcome str :=
  match fuel with
  | 0 => (st, Pending)
  | S fuel' =>
      if str_eqb state_name (u "PROCESSING") then
        let st := api_sleep 2 st in
        let st := api_do ApiGetFile st in
        match se_get_file env k with
        | Ok state_name' => processing_loop fuel' env st state_name' (S k)
        | Err e => (st, Raise e)
        end
      else (st, Return state_name)
  end.

(** The body of the [try] of [transcribe_audio], lines 171-257. *)
Definition transcribe_body_single (fuel : nat) (env : single_env)
    (st : api_state) : api_state * outcome (option str) :=
  match upload_loop (seq 0 3) env st with
  | (st, Return state_name) =>
      match processing_loop fuel env st state_name 0 with
      | (st, Return state_name) =>
          if str_eqb state_name (u "FAILED") then (st, Return None) else
          let st := api_do ApiGenerate st in
          match se_generate env with
          | Err e => (st, Raise e)
          | Ok _ =>
              (* try: genai.delete_file(...) except: pass *)
              let st := api_do ApiDelete st in
              match se_text env with
              | Err e => (st, Raise e)
              | Ok text => (st, Return (Some (normalize_single text)))
              end
          end
      | (st, Raise e) => (st, Raise e)
      | (st, Pending) => (st, Pending)
      end
  | (st, Raise e) => (st, Raise e)
  | (st, Pending) => (st, Pending)
  end.

(** [transcribe_audio(audio_file)] of [gemini_transcribe.py]:
    [except Exception] turns an error into [None]. *)
Definition transcribe_audio_single (fuel : nat) (env : single_env)
    (st : api_state) : api_state * outcome (option str) :=
  match transcribe_body_single fuel env st with
  | (st, Raise e) => if is_Exception e then (st, Return None) else (st, Raise e)
  | r => r
  end.

Definition is_upload (c : api_call) : bool :=
  match c with ApiUpload => true | _ => false end.

Definition is_upload_pause (c : api_call) : bool :=
  match c with ApiSleep 5 => true | _ => false end.

Definition is_generate (c : api_call) : bool :=
  match c with ApiGenerate => true | _ => false end.

Definition count_calls (f : api_call -> bool) (calls : list api_call) : nat :=
  length (List.filter f calls).

(** Every upload attempt meets a quota error. *)
Definition uploads_exhausted (env : single_env) : Prop :=
  forall attempt, attempt < 3 ->
    exists message, se_upload env attempt = ResourceExhausted message.

(** ** Start-up of [transcribe_3.py] *)

(** What [parser.parse_args()] gives [main]; an option that was not given
    is [None]. *)
Record cli_args := {
  arg_method : str;
  arg_api_key : option str;
  arg_gemini_key : option str;
  arg_openrouter_key : option str;
  arg_openrouter_model : option str
}.

(** The four variables [main] reads with [os.getenv]. *)
Record environ := {
  OPENAI_API_KEY : option str;
  GEMINI_API_KEY : option str;
  OPENROUTER_API_KEY : option str;
  OPENROUTER_MODEL : option str
}.

(** [a or b] on optional strings. *)
Definition py_or (a b : option str) : option str := if falsy a then b else a.

(** The fields [__init__] sets from its arguments. *)
Record settings := {
  cfg_method : str;
  cfg_openai_api_key : option str;
  cfg_gemini_api_key : option str;
  cfg_openrouter_api_key : option str;
  cfg_openrouter_model : option str
}.

(** Where the start-up gives up: [argparse] refusing the method, the key
    check of [main], the key check of [__init__], or the library of the
    chosen method failing to load or to initialise. *)
Inductive exit_point :=
| ArgparseError
| MainMissingKey
| InitMissingKey
| LibraryFailed.

Inductive startup :=
| SysExit (at_point : exit_point)
| Constructed (s : settings).

Definition default_openrouter_model : str := u "google/gemini-pro-1.5".

(** [TranscriptionAutomation.__init__], lines 32-106. *)
Definition init_3 (library_loads : bool) (transcription_method : str)
    (openai_api_key gemini_api_key openrouter_api_key openrouter_model
       : option str) : startup :=
  let s :=
    {| cfg_method := transcription_method;
       cfg_openai_api_key := openai_api_key;
       cfg_gemini_api_key := gemini_api_key;
       cfg_openrouter_api_key := openrouter_api_key;
       cfg_openrouter_model :=
         py_or openrouter_model (Some default_openrouter_model) |} in
  if str_eqb transcription_method (u "whisper-local") then
    if library_loads then Constructed s else SysExit LibraryFailed
  else if str_eqb transcription_method (u "openai-api") then
    if falsy openai_api_key then SysExit InitMissingKey
    else if library_loads then Constructed s else SysExit LibraryFailed
  else if str_eqb transcription_method (u "gemini-api") then
    if falsy gemini_api_key then SysExit InitMissingKey
    else if library_loads then Constructed s else SysExit LibraryFailed
  else if str_eqb transcription_method (u "openrouter") then
    if falsy openrouter_api_key then SysExit InitMissingKey
    else Constructed s
  else Constructed s.

(** [main()] of [transcribe_3.py] up to the call of [automation.run()],
    lines 772-870. *)
Definition main_3 (library_loads : bool) (args : cli_args) (env : environ)
    : startup :=
  if negb (bool_decide (arg_method args ∈ transcription_methods))
  then SysExit ArgparseError
  else
    let openai_api_key := py_or (arg_api_key args) (OPENAI_API_KEY env) in
    let gemini_api_key := py_or (arg_gemini_key args) (GEMINI_API_KEY env) in
    let openrouter_api_key :=
      py_or (arg_openrouter_key args) (OPENROUTER_API_KEY env) in
    let openrouter_model :=
      py_or (py_or (arg_openrouter_model args) (OPENROUTER_MODEL env))
            (Some default_openrouter_model) in
    if str_eqb (arg_method args) (u "openai-api") && falsy openai_api_key
    then SysExit MainMissingKey
    else if str_eqb (arg_method args) (u "gemini-api") && falsy gemini_api_key
    then SysExit MainMissingKey
    else if str_eqb (arg_method args) (u "openrouter")
            && falsy openrouter_api_key
    then SysExit MainMissingKey
    else init_3 library_loads (arg_method args) openai_api_key gemini_api_key
                openrouter_api_key openrouter_model.

(** The key the chosen method needs, if it needs one. *)
Definition key_of_method (s : settings) : option (option str) :=
  if str_eqb (cfg_method s) (u "openai-api") then Some (cfg_openai_api_key s)
  else if str_eqb (cfg_method s) (u "gemini-api")
  then Some (cfg_gemini_api_key s)
  else if str_eqb (cfg_method s) (u "openrouter")
  then Some (cfg_openrouter_api_key s)
  else None.

(** ** The review wait of [transcribe_3.py] *)

(** One look of [wait_for_submit] of [transcribe_3.py] at the page. *)
Record poll_3 := {
  (** an exception that arrives during [time.sleep(2)] *)
  p3_interrupt : option exn;
  (** [textarea.get_attribute("value")], which may be [None]; the outer
      [None] when looking it up raises, which [except: pass] swallows *)
  p3_textarea : option (option str);
  (** the text of the element that contains ['Id:']; [None] when looking
      it up raises, which [except: pass] swallows *)
  p3_id : option str;
  (** [self.driver.current_url] *)
  p3_url : result str
}.

Record wait_env_3 := {
  (** the text of the ['Id:'] element when the wait starts; [None] when
      looking it up raises *)
  w3_start_id : option str;
  (** [self.driver.current_url] when the wait starts *)
  w3_start_url : result str;
  w3_polls : nat -> poll_3
}.

(** [len((textarea.get_attribute("value") or "").strip()) == 0]. *)
Definition textarea_cleared_3 (p : poll_3) : bool :=
  match p3_textarea p with
  | Some value =>
      match strip (default [] (py_or value (Some []))) with
      | [] => true
      | _ :: _ => false
      end
  | None => false
  end.

(** [new_id != current_id], [False] when the element is not found. *)
Definition id_changed_3 (current_id : str) (p : poll_3) : bool :=
  match p3_id p with
  | Some new_id => negb (str_eqb new_id current_id)
  | None => false
  end.

(** The [while] loop of [wait_for_submit], lines 606-637. *)
Fixpoint wait_loop_3 (fuel : nat) (st : automation) (start_time : N)
    (current_id : str) (polls : nat -> poll_3) (k : nat)
  : automation * outcome bool :=
  match fuel with
  | 0 => (st, Pending)
  | S fuel' =>
      if (clock st - start_time <? review_timeout)%N then
        let p := polls k in
        match p3_interrupt p with
        | Some e => (st, Raise e)
        | None =>
            let st := sleep review_interval st in
            if textarea_cleared_3 p then (sleep 2 st, Return true)
            else if id_changed_3 current_id p then (sleep 1 st, Return true)
            else match p3_url p with
                 | Err e => (st, Raise e)
                 | Ok url =>
                     if str_eqb url current_id
                     then wait_loop_3 fuel' st start_time current_id polls (S k)
                     else (sleep 1 st, Return true)
                 end
        end
      else (st, Return false)
  end.

(** [wait_for_submit()] of [transcribe_3.py]: [current_id] is the text of
    the ['Id:'] element, or the page address when there is none. *)
Definition wait_for_submit_3 (st : automation) (env : wait_env_3)
  : automation * outcome bool :=
  let '(st', r) :=
    match
      match w3_start_id env with
      | Some id => Ok id
      | None => w3_start_url env
      end
    with
    | Err e => (st, Raise e)
    | Ok current_id =>
        wait_loop_3 wait_fuel st (clock st) current_id (w3_polls env) 0
    end in
  match r with
  | Raise e => if is_Exception e then (st', Return false) else (st', Raise e)
  | _ => (st', r)
  end.

(** A page with an ['Id:'] element whose text stays the same, a filled
    textarea and an address that stays the same: nothing was submitted. *)
Definition unsubmitted_page_3 : wait_env_3 :=
  {| w3_start_id := Some (u "Id: 4711");
     w3_start_url := Ok (u "https://example.org/transcribe");
     w3_polls := fun _ =>
       {| p3_interrupt := None;
          p3_textarea := Some (Some (u "habari yako"));
          p3_id := Some (u "Id: 4711");
          p3_url := Ok (u "https://example.org/transcribe") |} |}.
Example normalize_example :
  normalize_multi (u "Here is the transcription: Niko fine leo [Music]")
  = u "Niko fine leo".
Proof. vm_compute. reflexivity. Qed.

Example normalize_nested :
  normalize_multi (u "[Mu[Music]sic]") = u "[Music]"
  /\ normalize_multi (u "[Music]") = [].
Proof. vm_compute. split; reflexivity. Qed.

(** ** Facts about the string builtins *)

Section StringFacts.

Lemma split_tokens (s : str) : Forall is_token (split s).
Proof.
  induction s as [|c s IH]; simpl; [constructor|].
  destruct (isspace c) eqn:Hc; [exact IH|].
  destruct s as [|d s'].
  - repeat constructor; congruence.
  - destruct (isspace d) eqn:Hd.
    + constructor; [|exact IH]. repeat constructor; congruence.
    + destruct (split (d :: s')) as [|w ws] eqn:Hs.
      * repeat constructor; congruence.
      * inversion IH as [|? ? [Hw1 Hw2] Hws]; subst.
        constructor; [|assumption].
        split; [congruence|]. constructor; assumption.
Qed.

Lemma split_token_app (w rest : str) :
  is_token w -> token_end rest -> split (w ++ rest) = w :: split rest.
Proof.
  intros [Hne Hw] Hrest. induction w as [|c w IH]; [congruence|].
  inversion Hw as [|? ? Hc Hw']; subst. simpl. rewrite Hc.
  destruct w as [|c' w'].
  - simpl. destruct Hrest as [->|(d & r & -> & Hd)]; [reflexivity|].
    rewrite Hd. reflexivity.
  - inversion Hw' as [|? ? Hc' _]; subst.
    change ((c' :: w') ++ rest) with (c' :: (w' ++ rest)) at 1.
    cbv beta iota. rewrite Hc'.
    change (c' :: w' ++ rest) with ((c' :: w') ++ rest).
    rewrite IH by (congruence || assumption). reflexivity.
Qed.

Lemma split_space (c : N) (s : str) :
  isspace c = true -> split (c :: s) = split s.
Proof. intros H. simpl. rewrite H. reflexivity. Qed.

Lemma split_token (w : str) : is_token w -> split w = [w].
Proof.
  intros H. rewrite <- (app_nil_r w) at 1.
  rewrite split_token_app by (assumption || left; reflexivity).
  reflexivity.
Qed.

Lemma join_cons (sep w : str) (ws : list str) :
  ws <> [] -> join sep (w :: ws) = w ++ sep ++ join sep ws.
Proof. destruct ws; [congruence|reflexivity]. Qed.

(** Splitting what [" ".join] built from tokens gives the tokens back. *)
Lemma split_join (l : list str) :
  Forall is_token l -> split (join (u " ") l) = l.
Proof.
  induction 1 as [|w ws Hw Hws IH]; [reflexivity|].
  destruct ws as [|w' ws'].
  - simpl. apply split_token; assumption.
  - rewrite join_cons by congruence.
    rewrite split_token_app; [|assumption|right; eexists _, _; split; reflexivity].
    change (u " " ++ join (u " ") (w' :: ws'))
      with (32%N :: join (u " ") (w' :: ws')).
    rewrite split_space by reflexivity. rewrite IH. reflexivity.
Qed.

Lemma lstrip_nonspace (c : N) (s : str) :
  isspace c = false -> lstrip (c :: s) = c :: s.
Proof. intros H. simpl. rewrite H. reflexivity. Qed.

Lemma rstrip_snoc (s : str) (c : N) :
  isspace c = false -> rstrip (s ++ [c]) = s ++ [c].
Proof.
  intros H. unfold rstrip. rewrite rev_unit, lstrip_nonspace by assumption.
  simpl. rewrite rev_involutive. reflexivity.
Qed.

Lemma token_last (w : str) :
  is_token w -> exists s c, w = s ++ [c] /\ isspace c = false.
Proof.
  intros [Hne Hw]. destruct (exists_last Hne) as (s & c & ->).
  exists s, c. split; [reflexivity|].
  apply Forall_app in Hw as [_ Hc]. inversion Hc; assumption.
Qed.

Lemma join_tokens_last (l : list str) :
  Forall is_token l -> l <> [] ->
  exists s c, join (u " ") l = s ++ [c] /\ isspace c = false.
Proof.
  induction 1 as [|w ws Hw Hws IH]; [congruence|]. intros _.
  destruct ws as [|w' ws'].
  - simpl. apply token_last; assumption.
  - destruct IH as (s & c & Hs & Hc); [congruence|].
    rewrite join_cons, Hs by congruence.
    exists (w ++ u " " ++ s), c. split; [|assumption].
    rewrite <- !app_assoc. reflexivity.
Qed.

Lemma join_tokens_head (l : list str) :
  Forall is_token l -> l <> [] ->
  exists c s, join (u " ") l = c :: s /\ isspace c = false.
Proof.
  intros Hl Hne. destruct Hl as [|w ws [Hw1 Hw2] Hws]; [congruence|].
  destruct w as [|c w]; [congruence|]. inversion Hw2; subst.
  exists c. destruct ws; simpl; eauto.
Qed.

(** Joined tokens carry no whitespace at either end. *)
Lemma strip_join (l : list str) :
  Forall is_token l -> strip (join (u " ") l) = join (u " ") l.
Proof.
  intros Hl. destruct l as [|w ws]; [reflexivity|].
  destruct (join_tokens_head (w :: ws)) as (c & s & Hcs & Hc);
    [assumption|congruence|].
  destruct (join_tokens_last (w :: ws)) as (s' & c' & Hs' & Hc');
    [assumption|congruence|].
  unfold strip. rewrite Hcs, lstrip_nonspace by assumption.
  rewrite <- Hcs, Hs'. apply rstrip_snoc; assumption.
Qed.

End StringFacts.

Section ReplaceFacts.

Lemma startswith_spec (p s : str) :
  startswith p s = true <-> exists post, s = p ++ post.
Proof.
  revert s. induction p as [|a p IH]; intros s; simpl.
  - split; eauto.
  - destruct s as [|b s]; simpl.
    + split; [discriminate|]. intros [post H]. discriminate.
    + rewrite andb_true_iff, N.eqb_eq, IH. split.
      * intros [-> [post ->]]. eauto.
      * intros [post H]. injection H as -> ->. eauto.
Qed.

(** [needle in s] holds exactly when [needle] is a contiguous part of [s]. *)
Lemma contains_spec (needle s : str) :
  contains needle s = true <-> exists pre post, s = pre ++ needle ++ post.
Proof.
  induction s as [|c s IH]; simpl.
  - rewrite orb_false_r, startswith_spec. split.
    + intros [post H]. exists [], post. exact H.
    + intros (pre & post & H). destruct pre; [eauto|discriminate].
  - rewrite orb_true_iff, startswith_spec, IH. split.
    + intros [[post H]|(pre & post & ->)].
      * exists [], post. exact H.
      * exists (c :: pre), post. reflexivity.
    + intros (pre & post & H). destruct pre as [|c' pre].
      * left. eauto.
      * right. injection H as -> ->. eauto.
Qed.

(** Replacing a string that does not occur changes nothing. *)
Lemma replace_absent (s old new : str) :
  contains old s = false -> replace s old new = s.
Proof.
  destruct old as [|a old]; [destruct s; discriminate|].
  unfold replace. induction s as [|c s IH]; [reflexivity|].
  intros H. cbn [contains] in H. apply orb_false_iff in H as [H1 H2].
  cbn [replace_scan]. rewrite H1, IH by assumption. reflexivity.
Qed.

Lemma replace_scan_length_le (old : str) (k : nat) (s : str) :
  length (replace_scan old [] k s) <= length s.
Proof.
  revert k. induction s as [|c s IH]; intros k; [reflexivity|].
  cbn [replace_scan]. destruct k as [|k].
  - destruct (startswith old (c :: s)); simpl.
    + specialize (IH (length old - 1)). lia.
    + specialize (IH 0). lia.
  - specialize (IH k). simpl. lia.
Qed.

Lemma replace_length_le (s old : str) :
  length (replace s old []) <= length s.
Proof.
  destruct old as [|a old]; simpl.
  - induction s; simpl; lia.
  - apply replace_scan_length_le.
Qed.

(** Removing a non-empty string that occurs makes the text shorter. *)
Lemma replace_length_lt (s old : str) :
  old <> [] -> contains old s = true ->
  length (replace s old []) < length s.
Proof.
  destruct old as [|a old]; [congruence|]. intros _. unfold replace.
  induction s as [|c s IH]; [discriminate|].
  intros H. cbn [contains] in H. cbn [replace_scan].
  destruct (startswith (a :: old) (c :: s)).
  - pose proof (replace_scan_length_le (a :: old) (length (a :: old) - 1) s).
    simpl in *. lia.
  - simpl in H. specialize (IH H). simpl. lia.
Qed.

Lemma remove_artifacts_absent (arts : list str) (t : str) :
  Forall (fun a => contains a t = false) arts -> remove_artifacts arts t = t.
Proof.
  unfold remove_artifacts. induction 1 as [|a arts Ha _ IH]; [reflexivity|].
  simpl. rewrite replace_absent by assumption. exact IH.
Qed.

Lemma remove_artifacts_length_le (arts : list str) (t : str) :
  length (remove_artifacts arts t) <= length t.
Proof.
  unfold remove_artifacts. revert t.
  induction arts as [|a arts IH]; intros t; simpl; [lia|].
  specialize (IH (replace t a [])). pose proof (replace_length_le t a). lia.
Qed.

Lemma remove_artifacts_length_lt (arts : list str) (t : str) :
  Forall (fun a => a <> []) arts ->
  Exists (fun a => contains a t = true) arts ->
  length (remove_artifacts arts t) < length t.
Proof.
  induction 1 as [|a arts Ha Harts IH]; intros Hex; [inversion Hex|].
  change (remove_artifacts (a :: arts) t)
    with (remove_artifacts arts (replace t a [])).
  pose proof (remove_artifacts_length_le arts (replace t a [])) as Hle.
  destruct (contains a t) eqn:Hc.
  - pose proof (replace_length_lt t a Ha Hc). lia.
  - rewrite replace_absent by assumption.
    apply IH. inversion Hex; subst; [congruence|assumption].
Qed.

(** Collapsing whitespace never lengthens the text; a leading whitespace
    code point is always dropped. *)
Lemma join_split_length (s : str) :
  length (join (u " ") (split s))
  + match s with c :: _ => if isspace c then 1 else 0 | [] => 0 end
  <= length s.
Proof.
  induction s as [|c s IH]; [reflexivity|].
  cbn [split]. destruct (isspace c) eqn:Hc.
  - destruct s as [|d s']; [simpl; lia|]. cbn [length] in *.
    destruct (isspace d); lia.
  - destruct s as [|d s']; [simpl; lia|].
    destruct (isspace d) eqn:Hd.
    + destruct (split (d :: s')) as [|w ws]; cbn [join length] in *; [lia|].
      rewrite length_app. cbn [length app u] in *. simpl length in *. lia.
    + destruct (split (d :: s')) as [|w ws]; [simpl; lia|].
      assert (join (u " ") ((c :: w) :: ws) = c :: join (u " ") (w :: ws))
        as -> by (destruct ws; reflexivity).
      cbn [length] in *. lia.
Qed.

Lemma normalize_length_le (arts : list str) (y : str) :
  strip y = y -> length (normalize arts y) <= length (remove_artifacts arts y).
Proof.
  intros Hy. unfold normalize. rewrite Hy.
  pose proof (join_split_length (remove_artifacts arts y)). lia.
Qed.

(** On text that is already a normaliser output, a second pass is the
    identity exactly when none of the removed strings occurs in it. *)
Lemma normalize_fixpoint (arts : list str) (x : str) :
  Forall (fun a => a <> []) arts ->
  let y := normalize arts x in
  normalize arts y = y <-> Forall (fun a => contains a y = false) arts.
Proof.
  intros Harts y.
  assert (Hy : exists l, Forall is_token l /\ y = join (u " ") l).
  { eexists; split; [apply split_tokens|reflexivity]. }
  destruct Hy as (l & Hl & Hy).
  assert (Hstrip : strip y = y) by (rewrite Hy; apply strip_join, Hl).
  split.
  - intros Hfix. apply Forall_forall. intros a Ha.
    destruct (contains a y) eqn:Hc; [exfalso|reflexivity].
    assert (Hlt : length (remove_artifacts arts y) < length y).
    { apply remove_artifacts_length_lt; [assumption|].
      apply Exists_exists. eauto. }
    pose proof (normalize_length_le arts y Hstrip) as Hle.
    rewrite Hfix in Hle. lia.
  - intros Habs. unfold normalize at 1.
    rewrite Hstrip, remove_artifacts_absent by assumption.
    rewrite Hy, split_join by assumption. reflexivity.
Qed.

Lemma normalize_multi_eq (raw : str) :
  normalize_multi raw = normalize removed_multi raw.
Proof.
  unfold normalize_multi, normalize, removed_multi, remove_artifacts.
  rewrite fold_left_app. reflexivity.
Qed.

Lemma normalize_single_eq (raw : str) :
  normalize_single raw = normalize artifacts_single raw.
Proof. reflexivity. Qed.

Lemma removed_multi_nonempty : Forall (fun a : str => a <> []) removed_multi.
Proof. repeat constructor; discriminate. Qed.

Lemma artifacts_single_nonempty :
  Forall (fun a : str => a <> []) artifacts_single.
Proof. repeat constructor; discriminate. Qed.

End ReplaceFacts.

Example annotate_example_3 (U : unicode_db) :
  detect_code_switching U lists_transcribe_3 false (u "Niko fine leo")
  = u "Niko fine leo"
  /\ detect_code_switching U lists_transcribe_3 false (u "Hii ni the best, that's running")
     = u "Hii ni [cs] the best, [cs] that's [cs] running".
Proof. vm_compute. split; reflexivity. Qed.

(** ** The annotator *)

Section AnnotatorFacts.

Variable U : unicode_db.
Variable L : word_lists.

Lemma split_nonspace_cons (c : N) (s : str) :
  isspace c = false -> split (c :: s) <> [].
Proof.
  intros Hc. simpl. rewrite Hc. destruct s as [|d s']; [discriminate|].
  destruct (isspace d); [discriminate|].
  destruct (split (d :: s')); discriminate.
Qed.

Lemma split_nonspace (c : N) (s : str) :
  isspace c = false ->
  split (c :: s)
  = match s with
    | [] => [[c]]
    | d :: _ =>
        if isspace d then [c] :: split s
        else match split s with
             | w :: ws => (c :: w) :: ws
             | [] => [[c]]
             end
    end.
Proof. intros Hc. cbn [split]. rewrite Hc. reflexivity. Qed.

(** A space between two texts separates their tokens. *)
Lemma split_app_space (a b : str) :
  split (a ++ u " " ++ b) = split a ++ split b.
Proof.
  induction a as [|c a IH]; [reflexivity|].
  change ((c :: a) ++ u " " ++ b) with (c :: (a ++ u " " ++ b)).
  destruct (isspace c) eqn:Hc.
  - rewrite !split_space by assumption. exact IH.
  - rewrite !split_nonspace by assumption. rewrite IH.
    destruct a as [|d a']; [reflexivity|].
    change ((d :: a') ++ u " " ++ b) with (d :: (a' ++ u " " ++ b)).
    cbv beta iota. destruct (isspace d) eqn:Hd; [reflexivity|].
    pose proof (split_nonspace_cons d a' Hd) as Hne.
    destruct (split (d :: a')) as [|w ws]; [congruence|reflexivity].
Qed.

Lemma split_join_flat (l : list str) :
  split (join (u " ") l) = flat_map split l.
Proof.
  induction l as [|w ws IH]; [reflexivity|].
  destruct ws as [|w' ws'].
  - simpl. rewrite app_nil_r. reflexivity.
  - rewrite join_cons by congruence. rewrite split_app_space, IH.
    reflexivity.
Qed.

Lemma cs_marker_token : is_token cs_marker.
Proof. split; [discriminate|]. repeat constructor. Qed.

Lemma annotate_word_emitted (strict_swahili : bool) (processed : list str)
    (word : str) :
  annotate_word U L strict_swahili processed word
  = processed ++ emitted U L strict_swahili word.
Proof.
  unfold annotate_word, emitted, is_foreign.
  destruct (is_kept L (word_clean U word)); [reflexivity|].
  destruct (is_english U L (word_clean U word)); [|reflexivity].
  destruct strict_swahili; [rewrite app_nil_r|]; reflexivity.
Qed.

Lemma annotate_loop (strict_swahili : bool) (words processed : list str) :
  fold_left (annotate_word U L strict_swahili) words processed
  = processed ++ flat_map (emitted U L strict_swahili) words.
Proof.
  revert processed. induction words as [|w ws IH]; intros processed; simpl.
  - rewrite app_nil_r. reflexivity.
  - rewrite IH, annotate_word_emitted, <- app_assoc. reflexivity.
Qed.

Lemma split_emitted (word : str) :
  is_token word -> flat_map split (emitted U L false word) = marked_tokens U L word.
Proof.
  intros Hw. unfold emitted, marked_tokens.
  destruct (is_foreign U L word); cbn [flat_map]; rewrite app_nil_r.
  - rewrite split_app_space, !split_token by (exact cs_marker_token || assumption).
    reflexivity.
  - apply split_token; assumption.
Qed.

(** The whitespace-delimited tokens of the marked output, token by token. *)
Lemma split_detect (text : str) :
  split (detect_code_switching U L false text)
  = flat_map (marked_tokens U L) (split text).
Proof.
  unfold detect_code_switching. rewrite annotate_loop, split_join_flat.
  simpl. pose proof (split_tokens text) as Htok.
  induction Htok as [|w ws Hw _ IH]; [reflexivity|].
  simpl. rewrite flat_map_app, IH. f_equal.
  apply (split_emitted w Hw).
Qed.

Lemma marked_tokens_length (words : list str) :
  length (flat_map (marked_tokens U L) words)
  = length words + length (List.filter (is_foreign U L) words).
Proof.
  induction words as [|w ws IH]; [reflexivity|].
  simpl. rewrite length_app, IH. unfold marked_tokens.
  destruct (is_foreign U L w); simpl; lia.
Qed.

(** Without the strict flag the loop appends one entry per word. *)
Lemma annotate_loop_length (words : list str) :
  length (fold_left (annotate_word U L false) words []) = length words.
Proof.
  rewrite annotate_loop. cbn [app].
  induction words as [|w ws IH]; [reflexivity|].
  cbn [flat_map]. rewrite length_app, IH. unfold emitted.
  destruct (is_foreign U L w); reflexivity.
Qed.

Lemma drop_markers_app (a b : list str) :
  drop_markers (a ++ b) = drop_markers a ++ drop_markers b.
Proof. apply List.filter_app. Qed.

Lemma drop_markers_marked (word : str) :
  drop_markers (marked_tokens U L word) = drop_markers [word].
Proof.
  unfold marked_tokens. destruct (is_foreign U L word); reflexivity.
Qed.

Lemma drop_markers_flat (words : list str) :
  drop_markers (flat_map (marked_tokens U L) words) = drop_markers words.
Proof.
  induction words as [|w ws IH]; [reflexivity|].
  cbn [flat_map]. rewrite drop_markers_app, IH, drop_markers_marked.
  rewrite <- drop_markers_app. reflexivity.
Qed.

Lemma drop_markers_absent (words : list str) :
  ~ In cs_marker words -> drop_markers words = words.
Proof.
  induction words as [|w ws IH]; [reflexivity|]. intros Hnot.
  unfold drop_markers in *. cbn [List.filter]. unfold str_eqb at 1.
  rewrite bool_decide_eq_false_2 by (intros ->; apply Hnot; left; reflexivity).
  simpl. rewrite IH; [reflexivity|]. intros H. apply Hnot. right. exact H.
Qed.

Lemma marked_tokens_origin (words : list str) :
  Forall (fun t => t = cs_marker \/ In t words)
         (flat_map (marked_tokens U L) words).
Proof.
  induction words as [|w ws IH]; [constructor|].
  simpl. apply Forall_app. split.
  - unfold marked_tokens. destruct (is_foreign U L w); repeat constructor;
      (left; reflexivity) || (right; left; reflexivity).
  - eapply Forall_impl; [exact IH|]. intros t [->|Ht]; [left|right; right]; auto.
Qed.

End AnnotatorFacts.

(** ** The model-rotation controller *)

Example init_is_constructed : init_with configured_models = Some init.
Proof. reflexivity. Qed.

Example init_rotation_ok : rotation_ok init.
Proof. split; reflexivity. Qed.

Section ControllerFacts.

Variable U : unicode_db.

Lemma switches_emit (e : event) (st : automation) :
  switches (emit e st)
  = switches st + match e with EvSwitch _ => 1 | _ => 0 end.
Proof.
  unfold switches. simpl. rewrite List.filter_app, length_app.
  destruct e; reflexivity.
Qed.

Lemma switches_sleep (seconds : N) (st : automation) :
  switches (sleep seconds st) = switches st.
Proof.
  unfold switches. simpl. rewrite List.filter_app, length_app. simpl. lia.
Qed.

Lemma switches_set_index (i : nat) (st : automation) :
  switches (set_index i st) = switches st.
Proof. reflexivity. Qed.

Lemma map_fold_count_insert (m : gmap str nat) (name : str) :
  map_fold (fun _ count total => count + total) 0
    (<[name := S (default 0 (m !! name))]> m)
  = S (map_fold (fun _ count total => count + total) 0 m).
Proof.
  assert (Hcomm : forall (m' : gmap str nat) (j1 j2 : str) (z1 z2 y : nat),
             j1 <> j2 -> m' !! j1 = Some z1 -> m' !! j2 = Some z2 ->
             z1 + (z2 + y) = z2 + (z1 + y)) by (intros; lia).
  destruct (m !! name) as [count|] eqn:Hlook; cbn [from_option id].
  - rewrite <- (insert_delete_eq m).
    rewrite map_fold_insert_L; [|apply Hcomm|apply lookup_delete_eq].
    rewrite (map_fold_delete_L _ _ name count m); [lia|apply Hcomm|exact Hlook].
  - rewrite map_fold_insert_L; [lia|apply Hcomm|exact Hlook].
Qed.

(** One switch, on a list with at least one model. *)
Lemma switch_to_next_model_ok (st : automation) :
  model_names st <> [] ->
  exists st',
    switch_to_next_model st = Ok st'
    /\ model_names st' = model_names st
    /\ current_model_index st'
       = (current_model_index st + 1) mod length (model_names st)
    /\ rotation_ok st'
    /\ switches st' = S (switches st)
    /\ trace st' = trace st ++ [EvSwitch (current_model_name st')]
    /\ model_retry_count st' !! current_model_name st'
       = Some (S (default 0 (model_retry_count st !! current_model_name st')))
    /\ audio_count st' = audio_count st
    /\ clock st' = clock st
    /\ files st' = files st
    /\ total_retry_count st' = S (total_retry_count st).
Proof.
  intros Hne. unfold switch_to_next_model.
  destruct (length (model_names st)) as [|n] eqn:Hlen.
  - destruct (model_names st); [congruence|discriminate].
  - set (i := (current_model_index st + 1) mod S n).
    assert (Hi : i < length (model_names st)).
    { rewrite Hlen. apply Nat.mod_upper_bound. lia. }
    destruct (lookup_lt_is_Some_2 _ _ Hi) as [name Hname].
    rewrite Hname. eexists. split; [reflexivity|]. cbn.
    repeat split; try reflexivity; try assumption.
    + unfold switches. cbn. rewrite List.filter_app, length_app. simpl. lia.
    + apply lookup_insert_eq.
    + apply map_fold_count_insert.
Qed.

(** The handler's first branch: a quota answer below the retry bound. *)
Lemma quota_step (st : automation) (retry_count : nat) (answer : attempt)
    (answers : list attempt) :
  is_quota_exceeded U answer = true ->
  model_names st <> [] ->
  retry_count < length (model_names st) ->
  exists st1,
    switch_to_next_model (emit (EvAttempt (gemini_model st)) st) = Ok st1
    /\ transcribe_audio U st retry_count (answer :: answers)
       = transcribe_audio U (sleep 3 st1) (retry_count + 1) answers.
Proof.
  intros Hq Hne Hlt. destruct answer as [| |e]; try discriminate.
  apply andb_true_iff in Hq as [He Hrate].
  destruct (switch_to_next_model_ok (emit (EvAttempt (gemini_model st)) st) Hne)
    as (st1 & Hsw & _).
  exists st1. split; [exact Hsw|].
  cbn [transcribe_audio]. rewrite He, Hrate.
  change (model_names (emit (EvAttempt (gemini_model st)) st))
    with (model_names st).
  destruct (Nat.ltb_spec retry_count (length (model_names st))); [|lia].
  rewrite Hsw. reflexivity.
Qed.

(** The handler's second branch: a quota answer at the retry bound. *)
Lemma exhausted_step (st : automation) (retry_count : nat) (answer : attempt)
    (answers : list attempt) :
  is_quota_exceeded U answer = true ->
  model_names st <> [] ->
  length (model_names st) <= retry_count ->
  exists st1,
    switch_to_next_model
      (set_index 0 (sleep 60 (emit (EvAttempt (gemini_model st)) st))) = Ok st1
    /\ transcribe_audio U st retry_count (answer :: answers)
       = transcribe_audio U st1 0 answers.
Proof.
  intros Hq Hne Hge. destruct answer as [| |e]; try discriminate.
  apply andb_true_iff in Hq as [He Hrate].
  destruct (switch_to_next_model_ok
              (set_index 0 (sleep 60 (emit (EvAttempt (gemini_model st)) st))) Hne)
    as (st1 & Hsw & _).
  exists st1. split; [exact Hsw|].
  cbn [transcribe_audio]. rewrite He, Hrate.
  change (model_names (emit (EvAttempt (gemini_model st)) st))
    with (model_names st).
  destruct (Nat.ltb_spec retry_count (length (model_names st))); [lia|].
  rewrite Hsw. reflexivity.
Qed.



End ControllerFacts.

Section ControllerFacts2.

Variable U : unicode_db.

Lemma is_rate_limit_spec (error_message : str) :
  is_rate_limit error_message = true
  <-> exists needle, In needle rate_limit_signals /\ occurs_in needle error_message.
Proof.
  unfold is_rate_limit, occurs_in. rewrite !orb_true_iff, !contains_spec. split.
  - intros [[[H|H]|H]|H]; eexists; (split; [|exact H]); simpl; tauto.
  - intros (needle & Hin & H). simpl in Hin.
    destruct Hin as [<-|[<-|[<-|[<-|[]]]]]; tauto.
Qed.

(** After the long cool-down the index is reset and then advanced once. *)
Lemma exhausted_step_state (st : automation) (retry_count : nat)
    (answer : attempt) :
  is_quota_exceeded U answer = true ->
  model_names st <> [] ->
  length (model_names st) <= retry_count ->
  exists st1,
    (forall answers, transcribe_audio U st retry_count (answer :: answers)
                     = transcribe_audio U st1 0 answers)
    /\ current_model_index st1 = 1 mod length (model_names st)
    /\ model_names st1 = model_names st
    /\ rotation_ok st1
    /\ switches st1 = S (switches st)
    /\ clock st1 = (clock st + 60)%N
    /\ trace st1 = trace st ++ [EvAttempt (gemini_model st); EvSleep 60;
                                EvSwitch (gemini_model st1)]
    /\ total_retry_count st1 = S (total_retry_count st).
Proof.
  intros Hq Hne Hge.
  destruct (switch_to_next_model_ok
              (set_index 0 (sleep 60 (emit (EvAttempt (gemini_model st)) st))) Hne)
    as (st1 & Hsw & Hnames & Hidx & Hrot & Hcnt & Htr & _ & _ & Hclk & _
        & Htot).
  exists st1. split; [|split; [|split; [|split; [|split; [|split; [|split]]]]]].
  - intros answers.
    destruct (exhausted_step U st retry_count answer answers Hq Hne Hge)
      as (st1' & Hsw' & Hstep).
    rewrite Hsw in Hsw'. injection Hsw' as <-. exact Hstep.
  - exact Hidx.
  - exact Hnames.
  - exact Hrot.
  - rewrite Hcnt, switches_set_index, switches_sleep, switches_emit. lia.
  - exact Hclk.
  - rewrite Htr. cbn. destruct Hrot as [_ ->]. rewrite <- !app_assoc.
    reflexivity.
  - exact Htot.
Qed.

End ControllerFacts2.

Section ControllerFrames.

Variable U : unicode_db.



End ControllerFrames.

(** ** The orchestrator *)

Section OrchestratorFacts.

Variable U : unicode_db.

Lemma frame_refl (st : automation) : frame st st.
Proof. repeat split. Qed.

Lemma frame_trans (st1 st2 st3 : automation) :
  frame st1 st2 -> frame st2 st3 -> frame st1 st3.
Proof.
  intros (Ha & Hb & Hc & Hd) (Ha' & Hb' & Hc' & Hd').
  split; [congruence|]. split; [congruence|]. split; [congruence|].
  intros path. rewrite Hd', Hd. reflexivity.
Qed.

Lemma unlink_calls_emit (path : str) (e : event) (st : automation) :
  unlink_calls path (emit e st)
  = unlink_calls path st
    + match e with
      | EvUnlink p => if str_eqb p path then 1 else 0
      | _ => 0
      end.
Proof.
  unfold unlink_calls. cbn [trace emit].
  rewrite List.filter_app, length_app.
  destruct e; cbn; try reflexivity. destruct (str_eqb path0 path); reflexivity.
Qed.

Lemma headers_emit (e : event) (st : automation) :
  headers (emit e st)
  = headers st + match e with EvHeader _ => 1 | _ => 0 end.
Proof.
  unfold headers. cbn [trace emit]. rewrite List.filter_app, length_app.
  destruct e; reflexivity.
Qed.

(** A file left by a failed download changes neither the counts nor the
    rotation. *)
Lemma leave_partial_counts (partial_file : option str) (st : automation) :
  audio_count (leave_partial partial_file st) = audio_count st
  /\ headers (leave_partial partial_file st) = headers st.
Proof.
  destruct partial_file as [path|]; [|split; reflexivity].
  cbn [leave_partial]. split; [reflexivity|].
  rewrite headers_emit. unfold headers. cbn. lia.
Qed.

Lemma frame_emit (e : event) (st : automation) :
  match e with EvUnlink _ | EvHeader _ => False | _ => True end ->
  frame st (emit e st).
Proof.
  intros He. split; [reflexivity|]. split; [reflexivity|]. split.
  - rewrite headers_emit. destruct e; simpl in *; (lia || contradiction).
  - intros path. rewrite unlink_calls_emit.
    destruct e; simpl in *; (lia || contradiction).
Qed.

Lemma frame_sleep (seconds : N) (st : automation) : frame st (sleep seconds st).
Proof.
  split; [reflexivity|]. split; [reflexivity|]. split.
  - unfold headers. cbn. rewrite List.filter_app, length_app. simpl. lia.
  - intros path. unfold unlink_calls. cbn.
    rewrite List.filter_app, length_app. simpl. lia.
Qed.

Lemma frame_set_index (i : nat) (st : automation) : frame st (set_index i st).
Proof. repeat split. Qed.

Lemma frame_switch (st st' : automation) :
  switch_to_next_model st = Ok st' -> frame st st'.
Proof.
  unfold switch_to_next_model. destruct (length (model_names st)); [discriminate|].
  destruct (model_names st !! _) as [name|]; [|discriminate].
  intros [= <-]. split; [reflexivity|]. split; [reflexivity|]. split.
  - unfold headers. cbn. rewrite List.filter_app, length_app. simpl. lia.
  - intros path. unfold unlink_calls. cbn.
    rewrite List.filter_app, length_app. simpl. lia.
Qed.

(** The controller touches neither the files nor the unit count. *)
Lemma frame_transcribe_audio (answers : list attempt) :
  forall (st : automation) (retry_count : nat),
    frame st (fst (transcribe_audio U st retry_count answers)).
Proof.
  induction answers as [|answer answers IH]; intros st retry_count;
    [apply frame_refl|].
  cbn [transcribe_audio].
  assert (Hat : frame st (emit (EvAttempt (gemini_model st)) st))
    by (apply frame_emit; exact I).
  destruct answer as [text| |e]; try exact Hat.
  destruct (is_Exception e); [|exact Hat].
  destruct (is_rate_limit _); [|exact Hat].
  destruct (_ <? _).
  - destruct (switch_to_next_model _) as [st1|e'] eqn:Hsw; [|exact Hat].
    eapply frame_trans; [exact Hat|].
    eapply frame_trans; [apply (frame_switch _ _ Hsw)|].
    eapply frame_trans; [apply (frame_sleep 3)|]. apply IH.
  - set (st0 := set_index 0 (sleep 60 (emit (EvAttempt (gemini_model st)) st))).
    assert (H0 : frame st st0).
    { eapply frame_trans; [exact Hat|].
      eapply frame_trans; [apply (frame_sleep 60)|]. apply frame_set_index. }
    destruct (switch_to_next_model st0) as [st1|e'] eqn:Hsw; [|exact H0].
    eapply frame_trans; [exact H0|].
    eapply frame_trans; [apply (frame_switch _ _ Hsw)|]. apply IH.
Qed.

(** A call given an answer that is not a quota error comes to an end. *)
Lemma transcribe_audio_exits (answers : list attempt) :
  forall (st : automation) (retry_count : nat),
    Exists (fun a => is_quota_exceeded U a = false) answers ->
    snd (transcribe_audio U st retry_count answers) <> Pending.
Proof.
  induction answers as [|answer answers IH]; intros st retry_count Hex;
    [inversion Hex|].
  cbn [transcribe_audio].
  destruct answer as [text| |e]; try discriminate.
  destruct (is_Exception e) eqn:He; [|discriminate].
  destruct (is_rate_limit _) eqn:Hrate; [|discriminate].
  assert (Hrest : Exists (fun a => is_quota_exceeded U a = false) answers).
  { inversion Hex as [? ? Hq|]; subst; [|assumption].
    cbn in Hq. rewrite He, Hrate in Hq. discriminate. }
  destruct (_ <? _).
  - destruct (switch_to_next_model _); [|discriminate]. apply IH, Hrest.
  - destruct (switch_to_next_model _); [|discriminate]. apply IH, Hrest.
Qed.

Lemma frame_wait_loop (fuel : nat) :
  forall (st : automation) (start_time : N) (current_id : str)
         (polls : nat -> poll) (k : nat),
    frame st (fst (wait_loop fuel st start_time current_id polls k)).
Proof.
  induction fuel as [|fuel IH]; intros st start_time current_id polls k;
    [apply frame_refl|].
  cbn [wait_loop]. destruct (_ <? _)%N; [|apply frame_refl].
  destruct (poll_interrupt (polls k)); [apply frame_refl|].
  destruct (textarea_cleared (polls k)).
  - eapply frame_trans; apply frame_sleep.
  - destruct (poll_url (polls k)) as [url|e]; [|apply frame_sleep].
    destruct (str_eqb url current_id); [|apply frame_sleep].
    eapply frame_trans; [apply (frame_sleep review_interval)|]. apply IH.
Qed.

(** The clock advances with every look, so the fuel is never used up. *)
Lemma wait_loop_exits (fuel : nat) :
  forall (st : automation) (start_time : N) (current_id : str)
         (polls : nat -> poll) (k : nat),
    (start_time <= clock st)%N ->
    (review_timeout <= clock st - start_time + 2 * N.of_nat fuel)%N ->
    snd (wait_loop (S fuel) st start_time current_id polls k) <> Pending.
Proof.
  unfold review_timeout.
  induction fuel as [|fuel IH]; intros st start_time current_id polls k Hle Hfuel.
  - cbn [wait_loop]. unfold review_timeout.
    destruct (N.ltb_spec (clock st - start_time) 600); [lia|discriminate].
  - remember (S fuel) as f eqn:Hf. cbn [wait_loop]. unfold review_timeout.
    destruct (N.ltb_spec (clock st - start_time) 600); [|discriminate].
    destruct (poll_interrupt (polls k)); [discriminate|].
    destruct (textarea_cleared (polls k)); [discriminate|].
    destruct (poll_url (polls k)) as [url|e]; [|discriminate].
    destruct (str_eqb url current_id); [|discriminate].
    subst f. apply IH; cbn; unfold review_interval; lia.
Qed.

Lemma frame_wait_for_submit (st : automation) (env : unit_env) :
  frame st (fst (wait_for_submit st env)).
Proof.
  unfold wait_for_submit. destruct (env_current_url env) as [current_id|e].
  - pose proof (frame_wait_loop wait_fuel st (clock st) current_id
                  (env_polls env) 0) as H.
    destruct (wait_loop _ _ _ _ _ _) as [st' r]. cbn in H.
    destruct r as [b|e|]; try exact H. destruct (is_Exception e); exact H.
  - destruct (is_Exception e); apply frame_refl.
Qed.

(** [wait_for_submit] always comes to an end. *)
Lemma wait_for_submit_exits (st : automation) (env : unit_env) :
  snd (wait_for_submit st env) <> Pending.
Proof.
  unfold wait_for_submit. destruct (env_current_url env) as [current_id|e].
  - pose proof (wait_loop_exits 300 st (clock st) current_id (env_polls env) 0)
      as H.
    change (S 300) with wait_fuel in H.
    destruct (wait_loop _ _ _ _ _ _) as [st' r]. cbn in H.
    destruct r as [b|e|]; try discriminate.
    + destruct (is_Exception e); discriminate.
    + exfalso. apply H; [lia|unfold review_timeout; lia|reflexivity].
  - destruct (is_Exception e); discriminate.
Qed.

End OrchestratorFacts.

Section UnitFacts.

Variable U : unicode_db.

Lemma frame_insert_transcription (st : automation) (env : unit_env)
    (transcription : str) :
  frame st (fst (insert_transcription st env transcription)).
Proof.
  unfold insert_transcription. destruct (env_insert env) as [[]|e].
  - apply frame_emit. exact I.
  - apply frame_refl.
Qed.

(** The [try] block neither creates nor deletes a file. *)
Lemma frame_process_body (st : automation) (env : unit_env) :
  frame st (fst (process_body U st env)).
Proof.
  unfold process_body.
  pose proof (frame_transcribe_audio U (env_attempts env) st 0) as Ht.
  destruct (transcribe_audio U st 0 (env_attempts env)) as [st1 r].
  cbn [fst] in Ht. destruct r as [[[|c text]|]|e|]; try exact Ht.
  pose proof (frame_insert_transcription st1 env
                (detect_code_switching U lists_gemini false (c :: text))) as Hi.
  destruct (insert_transcription st1 env _) as [st2 [[|]|e]]; cbn [fst] in Hi.
  - eapply frame_trans; [exact Ht|].
    eapply frame_trans; [exact Hi|]. apply frame_wait_for_submit.
  - eapply frame_trans; eassumption.
  - eapply frame_trans; eassumption.
Qed.

Lemma process_body_exits (st : automation) (env : unit_env) :
  Exists (fun a => is_quota_exceeded U a = false) (env_attempts env) ->
  snd (process_body U st env) <> Pending.
Proof.
  intros Hex. unfold process_body.
  pose proof (transcribe_audio_exits U (env_attempts env) st 0 Hex) as Ht.
  destruct (transcribe_audio U st 0 (env_attempts env)) as [st1 r].
  cbn [snd] in Ht. destruct r as [[[|c text]|]|e|]; try discriminate;
    [|congruence].
  destruct (insert_transcription st1 env _) as [st2 [[|]|e]]; try discriminate.
  apply wait_for_submit_exits.
Qed.

Lemma frame_process_body_3 (st : automation) (env : unit_env_3) :
  frame st (fst (process_body_3 U st env))
  /\ snd (process_body_3 U st env) <> Pending.
Proof.
  unfold process_body_3. destruct (negb _); [split; [apply frame_refl|discriminate]|].
  destruct (env3_transcription env) as [[|c text]|e]; cbn [except_Exception];
    try (split; [apply frame_refl|discriminate]).
  - destruct (env3_insert env) as [[]|e]; cbn [except_Exception].
    + destruct (env3_wait env); (split; [apply frame_emit; exact I|discriminate]).
    + destruct (is_Exception e); split; (apply frame_refl || discriminate).
  - destruct (is_Exception e); split; (apply frame_refl || discriminate).
Qed.

Lemma unlink_deletes_once (carried_out : bool) (audio_file : str)
    (st : automation) :
  audio_count (unlink carried_out audio_file st) = audio_count st
  /\ headers (unlink carried_out audio_file st) = headers st
  /\ deleted_once audio_file carried_out st (unlink carried_out audio_file st).
Proof.
  assert (Hh : headers (emit (EvUnlink audio_file) st) = headers st)
    by (rewrite headers_emit; lia).
  assert (Hu : unlink_calls audio_file (emit (EvUnlink audio_file) st)
               = S (unlink_calls audio_file st)).
  { rewrite unlink_calls_emit. unfold str_eqb.
    rewrite bool_decide_eq_true_2 by reflexivity. lia. }
  assert (Hl : last (trace (emit (EvUnlink audio_file) st))
               = Some (EvUnlink audio_file))
    by apply last_snoc.
  unfold unlink, deleted_once. destruct carried_out.
  - split; [reflexivity|]. split; [exact Hh|]. split; [exact Hu|].
    split; [exact Hl|]. intros _. cbn.
    apply not_elem_of_difference. right. apply elem_of_singleton. reflexivity.
  - split; [reflexivity|]. split; [exact Hh|]. split; [exact Hu|].
    split; [exact Hl|]. discriminate.
Qed.

(** What [finally] adds once the [try] block has ended. *)
Lemma try_finally_unlink (body : automation * outcome bool)
    (carried_out : bool) (audio_file : str) (st : automation) :
  frame st (fst body) ->
  let r := try_finally body (unlink carried_out audio_file) in
  snd r = snd body
  /\ audio_count (fst r) = audio_count st
  /\ headers (fst r) = headers st
  /\ match snd body with
     | Pending => unlink_calls audio_file (fst r) = unlink_calls audio_file st
     | _ => deleted_once audio_file carried_out st (fst r)
     end.
Proof.
  destruct body as [st1 r1]. cbn [fst snd]. intros (Hf & Ha & Hh & Hu).
  destruct (unlink_deletes_once carried_out audio_file st1)
    as (Hd1 & Hd2 & Hd3 & Hd4 & Hd5).
  assert (Hdel : deleted_once audio_file carried_out st
                   (unlink carried_out audio_file st1)).
  { split; [rewrite Hd3, Hu; reflexivity|]. split; assumption. }
  destruct r1 as [b|e|]; cbn [try_finally fst snd];
    (split; [reflexivity|]); (split; [congruence|]); (split; [congruence|]);
    first [exact Hdel | apply Hu].
Qed.

(** A unit of [gemini_multi_transcribe.py] whose audio file was acquired. *)
Lemma process_audio_acquired (st : automation) (env : unit_env)
    (audio_file : str) :
  acquired env audio_file ->
  let r := process_audio U st env in
  audio_count (fst r) = S (audio_count st)
  /\ headers (fst r) = S (headers st)
  /\ match snd r with
     | Pending => unlink_calls audio_file (fst r) = unlink_calls audio_file st
     | _ => deleted_once audio_file (env_unlink env) st (fst r)
     end
  /\ (Exists (fun a => is_quota_exceeded U a = false) (env_attempts env) ->
      snd r <> Pending).
Proof.
  intros (Hurl & Hdl & Hne). unfold process_audio. rewrite Hurl.
  unfold download_audio. rewrite Hdl.
  destruct audio_file as [|c path]; [congruence|].
  set (st0 := emit (EvHeader (audio_count (count_audio st))) (count_audio st)).
  set (st1 := emit (EvCreate (c :: path))
                (set_files ({[ c :: path ]} ∪ files st0) st0)).
  pose proof (try_finally_unlink (process_body U st1 env) (env_unlink env)
                (c :: path) st1 (frame_process_body st1 env)) as H.
  cbv zeta in H. destruct H as (Hsnd & Hac & Hh & Hdel).
  assert (Hu1 : forall p, unlink_calls p st1 = unlink_calls p st).
  { intros p. subst st1 st0. rewrite unlink_calls_emit. cbn.
    unfold unlink_calls. cbn. rewrite List.filter_app, length_app. cbn. lia. }
  assert (Hh1 : headers st1 = S (headers st)).
  { subst st1 st0. rewrite headers_emit. cbn.
    unfold headers. cbn. rewrite List.filter_app, length_app. cbn. lia. }
  cbv zeta. split; [rewrite Hac; reflexivity|]. split; [congruence|]. split.
  - rewrite Hsnd. destruct (snd (process_body U st1 env));
      unfold deleted_once in *; rewrite <- Hu1; exact Hdel.
  - intros Hex. rewrite Hsnd. apply process_body_exits, Hex.
Qed.

(** A unit of [transcribe_3.py] whose audio file was acquired. *)
Lemma process_audio_3_acquired (st : automation) (env : unit_env_3)
    (audio_file : str) :
  acquired_3 env audio_file ->
  let r := process_audio_3 U st env in
  snd r <> Pending
  /\ deleted_once audio_file (env3_unlink env) st (fst r).
Proof.
  intros ((url & Hurl & Hurl') & Hdl & Hne). unfold process_audio_3.
  rewrite Hurl, Hurl', Hdl. cbn [except_Exception].
  destruct audio_file as [|c path]; [congruence|].
  set (st0 := emit (EvHeader (audio_count (count_audio st))) (count_audio st)).
  set (st1 := emit (EvCreate (c :: path))
                (set_files ({[ c :: path ]} ∪ files st0) st0)).
  destruct (frame_process_body_3 st1 env) as [Hframe Hexit].
  pose proof (try_finally_unlink (process_body_3 U st1 env) (env3_unlink env)
                (c :: path) st1 Hframe) as H.
  cbv zeta in H. destruct H as (Hsnd & _ & _ & Hdel).
  assert (Hu1 : forall p, unlink_calls p st1 = unlink_calls p st).
  { intros p. subst st1 st0. rewrite unlink_calls_emit. cbn.
    unfold unlink_calls. cbn. rewrite List.filter_app, length_app. cbn. lia. }
  destruct (try_finally _ _) as [st2 r2]. cbn [fst snd] in *.
  assert (Hdel2 : deleted_once (c :: path) (env3_unlink env) st st2).
  { destruct (snd (process_body_3 U st1 env)); try congruence;
      unfold deleted_once in *; rewrite <- Hu1; exact Hdel. }
  destruct r2 as [b|e|]; [split; [discriminate|exact Hdel2]| |congruence].
  destruct (is_Exception e); (split; [discriminate|exact Hdel2]).
Qed.

End UnitFacts.

Section RunFacts.

Variable U : unicode_db.

(** With nothing to see on the review page the loop runs until the
    time-out and returns [False]. *)
Lemma wait_loop_quiet (n : nat) :
  forall (fuel : nat) (st : automation) (start_time : N) (current_id : str)
         (polls : nat -> poll) (k : nat),
    (forall j, quiet current_id (polls j)) ->
    n < fuel ->
    (start_time <= clock st)%N ->
    (clock st - start_time + 2 * N.of_nat n = review_timeout)%N ->
    exists st',
      wait_loop fuel st start_time current_id polls k = (st', Return false)
      /\ clock st' = (start_time + review_timeout)%N.
Proof.
  unfold review_timeout.
  induction n as [|n IH]; intros fuel st start_time current_id polls k
                                 Hquiet Hfuel Hle Hclock;
    (destruct fuel as [|fuel]; [lia|]); cbn [wait_loop]; unfold review_timeout.
  - destruct (N.ltb_spec (clock st - start_time) 600); [lia|].
    exists st. split; [reflexivity|lia].
  - destruct (N.ltb_spec (clock st - start_time) 600); [|lia].
    destruct (Hquiet k) as (Hint & Hclr & Hurl). rewrite Hint, Hclr, Hurl.
    unfold str_eqb. rewrite bool_decide_eq_true_2 by reflexivity.
    apply IH; [assumption|lia|cbn; lia|cbn; unfold review_interval; lia].
Qed.

Lemma wait_for_submit_times_out (st : automation) (env : unit_env) :
  review_times_out env ->
  exists st',
    wait_for_submit st env = (st', Return false)
    /\ clock st' = (clock st + review_timeout)%N.
Proof.
  intros (current_id & Hurl & Hquiet). unfold wait_for_submit. rewrite Hurl.
  destruct (wait_loop_quiet 300 wait_fuel st (clock st) current_id
              (env_polls env) 0 Hquiet) as (st' & Hrun & Hclock);
    [unfold wait_fuel; lia|lia|unfold review_timeout; lia|].
  rewrite Hrun. exists st'. split; [reflexivity|exact Hclock].
Qed.

(** A unit that reaches the review wait and times out there fails. *)
Lemma process_audio_times_out (st : automation) (env : unit_env)
    (audio_file : str) (st_w : automation) :
  reaches_wait U st env audio_file st_w ->
  review_times_out env ->
  exists st_t,
    wait_for_submit st_w env = (st_t, Return false)
    /\ clock st_t = (clock st_w + review_timeout)%N
    /\ process_audio U st env
       = (unlink (env_unlink env) audio_file st_t, Return false).
Proof.
  intros (text & st1 & Hurl & Hdl & Hne & Htr & Htext & Hins & ->) Hout.
  destruct (wait_for_submit_times_out
              (emit (EvType (detect_code_switching U lists_gemini false text)) st1)
              env Hout) as (st_t & Hwait & Hclock).
  exists st_t. split; [exact Hwait|]. split; [exact Hclock|].
  unfold process_audio. rewrite Hurl.
  change (audio_count (count_audio st)) with (S (audio_count st)).
  unfold download_audio in *. rewrite Hdl in *. cbn [fst] in Htr.
  destruct audio_file as [|c path]; [congruence|].
  unfold process_body. rewrite Htr.
  destruct text as [|c' text]; [congruence|].
  unfold insert_transcription. rewrite Hins, Hwait. reflexivity.
Qed.

(** Every call of [process_audio] counts one unit and prints one header,
    however it ends. *)
Lemma process_audio_counts (st : automation) (env : unit_env) :
  audio_count (fst (process_audio U st env)) = S (audio_count st)
  /\ headers (fst (process_audio U st env)) = S (headers st).
Proof.
  assert (H0 : headers (emit (EvHeader (audio_count (count_audio st)))
                          (count_audio st)) = S (headers st)).
  { rewrite headers_emit. unfold headers. cbn. lia. }
  destruct (falsy (env_audio_url env)) eqn:Hurl.
  { unfold process_audio. rewrite Hurl. split; [reflexivity|exact H0]. }
  destruct (env_download env) as [[|c path]|e] eqn:Hdl.
  - unfold process_audio, download_audio. rewrite Hurl, Hdl. cbn [fst].
    split; [reflexivity|]. rewrite headers_emit. cbn. unfold headers in *.
    cbn in *. lia.
  - destruct (process_audio_acquired U st env (c :: path)) as (Ha & Hh & _).
    { repeat split; [assumption|assumption|discriminate]. }
    split; assumption.
  - unfold process_audio, download_audio. rewrite Hurl, Hdl.
    destruct (leave_partial_counts (env_partial_file env)
                (emit (EvHeader (audio_count (count_audio st)))
                      (count_audio st))) as [Hpa Hph].
    cbn [except_Exception]. destruct (is_Exception e); cbn [fst];
      (split; [rewrite Hpa; reflexivity|rewrite Hph; exact H0]).
Qed.

Lemma process_audio_3_counts (st : automation) (env : unit_env_3) :
  audio_count (fst (process_audio_3 U st env)) = S (audio_count st)
  /\ headers (fst (process_audio_3 U st env)) = S (headers st).
Proof.
  set (st0 := emit (EvHeader (audio_count (count_audio st))) (count_audio st)).
  assert (H0 : audio_count st0 = S (audio_count st)
               /\ headers st0 = S (headers st)).
  { split; [reflexivity|]. subst st0. rewrite headers_emit.
    unfold headers. cbn. lia. }
  assert (Hgen : forall (p : automation * outcome bool),
             audio_count (fst p) = S (audio_count st)
             /\ headers (fst p) = S (headers st) ->
             audio_count
               (fst (let '(st, r) := p in
                     match r with
                     | Raise e => if is_Exception e then (st, Return false)
                                  else (st, Raise e)
                     | _ => (st, r)
                     end)) = S (audio_count st)
             /\ headers
                  (fst (let '(st, r) := p in
                        match r with
                        | Raise e => if is_Exception e then (st, Return false)
                                     else (st, Raise e)
                        | _ => (st, r)
                        end)) = S (headers st)).
  { intros [st1 [b|e|]] H; try exact H. destruct (is_Exception e); exact H. }
  unfold process_audio_3. fold st0. apply Hgen.
  destruct (env3_audio_url env) as [url|e]; [|exact H0].
  destruct (falsy url); [exact H0|].
  destruct (env3_download env) as [[|c path]|e]; cbn [except_Exception];
    try exact H0;
    [|destruct (leave_partial_counts (env3_partial_file env) st0)
        as [Hpa Hph];
      destruct (is_Exception e); cbn [fst]; rewrite Hpa, Hph; exact H0].
  set (st1 := emit (EvCreate (c :: path))
                (set_files ({[ c :: path ]} ∪ files st0) st0)).
  destruct (frame_process_body_3 U st1 env) as [Hframe _].
  pose proof (try_finally_unlink (process_body_3 U st1 env) (env3_unlink env)
                (c :: path) st1 Hframe) as H.
  cbv zeta in H. destruct H as (_ & Hac & Hh & _).
  rewrite Hac, Hh. destruct H0 as [H0a H0h]. split; [exact H0a|].
  subst st1. rewrite headers_emit. unfold headers in *. cbn in *. lia.
Qed.

(** Over a run, the unit count grows by the number of headers printed. *)
Lemma run_loop_counts (script : list iteration) :
  forall st : automation,
    audio_count (fst (run_loop U st script)) + headers st
    = audio_count st + headers (fst (run_loop U st script)).
Proof.
  induction script as [|it script IH]; intros st; [reflexivity|].
  cbn [run_loop].
  destruct (process_audio_counts st (it_env it)) as [Ha Hh].
  destruct (process_audio U st (it_env it)) as [st1 r]. cbn [fst] in Ha, Hh.
  assert (Hsleep : audio_count (fst (run_loop U (sleep 3 st1) script)) + headers st
                   = audio_count st
                     + headers (fst (run_loop U (sleep 3 st1) script))).
  { specialize (IH (sleep 3 st1)).
    destruct (frame_sleep 3 st1) as (_ & _ & Hhs & _).
    rewrite Hhs in IH. cbn [audio_count sleep] in IH. lia. }
  assert (Hhandler : forall e st2,
             audio_count st2 = audio_count st1 -> headers st2 = headers st1 ->
             audio_count
               (fst (loop_handler e (fun st => run_loop U st script) st2))
             + headers st
             = audio_count st
               + headers
                   (fst (loop_handler e (fun st => run_loop U st script) st2))).
  { intros e st2 Ha2 Hh2. unfold loop_handler.
    destruct (exn_class_of e); cbn [fst]; try lia.
    specialize (IH (sleep 3 st2)).
    destruct (frame_sleep 3 st2) as (_ & _ & Hhs & _).
    rewrite Hhs in IH. cbn [audio_count sleep] in IH. lia. }
  destruct r as [[|]|e|].
  - exact Hsleep.
  - assert (Hp : headers (emit EvPrompt st1) = headers st1)
      by (rewrite headers_emit; lia).
    destruct (it_answer it) as [answer|e].
    + destruct (str_eqb _ _); cbn [fst].
      * specialize (IH (emit EvPrompt st1)). rewrite Hp in IH.
        cbn [audio_count emit] in IH. lia.
      * rewrite Hp. cbn [audio_count emit]. lia.
    + apply Hhandler; [reflexivity|exact Hp].
  - apply Hhandler; reflexivity.
  - cbn [fst]. lia.
Qed.

End RunFacts.

(** ** The rotation invariant over a run *)

Section RotationInvariant.

Variable U : unicode_db.

Lemma same_rotation_refl (st : automation) : same_rotation st st.
Proof. repeat split. Qed.

Lemma same_rotation_trans (st1 st2 st3 : automation) :
  same_rotation st1 st2 -> same_rotation st2 st3 -> same_rotation st1 st3.
Proof.
  intros (Ha & Hb & Hc & Hd) (Ha' & Hb' & Hc' & Hd').
  repeat split; congruence.
Qed.

Lemma same_rotation_ok (st st' : automation) :
  same_rotation st st' -> rotation_ok st -> rotation_ok st'.
Proof.
  intros (Ha & Hb & Hc & Hd) [H1 H2]. unfold rotation_ok.
  rewrite Ha, Hb, Hc, Hd. split; assumption.
Qed.

(** The controller keeps the index, the name and the model object in step. *)
Lemma rotation_ok_transcribe_audio (answers : list attempt) :
  forall (st : automation) (retry_count : nat),
    rotation_ok st ->
    rotation_ok (fst (transcribe_audio U st retry_count answers)).
Proof.
  induction answers as [|answer answers IH]; intros st retry_count Hok;
    [exact Hok|].
  assert (Hne : model_names st <> []).
  { destruct Hok as [Hlook _]. intros Hnil. rewrite Hnil in Hlook. discriminate. }
  cbn [transcribe_audio].
  assert (Hat : rotation_ok (emit (EvAttempt (gemini_model st)) st)) by exact Hok.
  destruct answer as [text| |e]; try exact Hat.
  destruct (is_Exception e); [|exact Hat].
  destruct (is_rate_limit _); [|exact Hat].
  destruct (_ <? _).
  - destruct (switch_to_next_model_ok (emit (EvAttempt (gemini_model st)) st) Hne)
      as (st1 & Hsw & _ & _ & Hrot & _).
    rewrite Hsw. apply IH. exact Hrot.
  - destruct (switch_to_next_model_ok
                (set_index 0 (sleep 60 (emit (EvAttempt (gemini_model st)) st))) Hne)
      as (st1 & Hsw & _ & _ & Hrot & _).
    rewrite Hsw. apply IH. exact Hrot.
Qed.

Lemma same_rotation_wait_loop (fuel : nat) :
  forall (st : automation) (start_time : N) (current_id : str)
         (polls : nat -> poll) (k : nat),
    same_rotation st (fst (wait_loop fuel st start_time current_id polls k)).
Proof.
  induction fuel as [|fuel IH]; intros st start_time current_id polls k;
    [apply same_rotation_refl|].
  cbn [wait_loop]. destruct (_ <? _)%N; [|apply same_rotation_refl].
  destruct (poll_interrupt (polls k)); [apply same_rotation_refl|].
  destruct (textarea_cleared (polls k)); [repeat split|].
  destruct (poll_url (polls k)) as [url|e]; [|repeat split].
  destruct (str_eqb url current_id); [|repeat split].
  eapply same_rotation_trans; [|apply IH]. repeat split.
Qed.

Lemma same_rotation_wait_for_submit (st : automation) (env : unit_env) :
  same_rotation st (fst (wait_for_submit st env)).
Proof.
  unfold wait_for_submit. destruct (env_current_url env) as [current_id|e].
  - pose proof (same_rotation_wait_loop wait_fuel st (clock st) current_id
                  (env_polls env) 0) as H.
    destruct (wait_loop _ _ _ _ _ _) as [st' r]. cbn in H.
    destruct r as [b|e|]; try exact H. destruct (is_Exception e); exact H.
  - destruct (is_Exception e); apply same_rotation_refl.
Qed.

Lemma rotation_ok_process_body (st : automation) (env : unit_env) :
  rotation_ok st -> rotation_ok (fst (process_body U st env)).
Proof.
  intros Hok. unfold process_body.
  pose proof (rotation_ok_transcribe_audio (env_attempts env) st 0 Hok) as Ht.
  destruct (transcribe_audio U st 0 (env_attempts env)) as [st1 r].
  cbn [fst] in Ht. destruct r as [[[|c text]|]|e|]; try exact Ht.
  unfold insert_transcription. destruct (env_insert env) as [[]|e].
  - eapply same_rotation_ok; [apply same_rotation_wait_for_submit|exact Ht].
  - cbn [except_Exception]. destruct (is_Exception e); exact Ht.
Qed.

Lemma rotation_ok_process_audio (st : automation) (env : unit_env) :
  rotation_ok st -> rotation_ok (fst (process_audio U st env)).
Proof.
  intros Hok. unfold process_audio.
  destruct (falsy (env_audio_url env)); [exact Hok|].
  unfold download_audio. destruct (env_download env) as [[|c path]|e].
  - exact Hok.
  - set (st1 := emit _ _).
    assert (H1 : rotation_ok st1) by exact Hok.
    pose proof (rotation_ok_process_body st1 env H1) as Hb.
    destruct (process_body U st1 env) as [st2 r]. cbn [fst] in Hb.
    destruct r as [b|e|]; cbn [try_finally fst]; try exact Hb;
      unfold unlink; destruct (env_unlink env); exact Hb.
  - cbn [except_Exception].
    destruct (env_partial_file env); destruct (is_Exception e); exact Hok.
Qed.

(** Every state a run reaches from a well-formed object is well formed: the
    model in use is the one the index points at. *)
Lemma rotation_ok_run_loop (script : list iteration) :
  forall st : automation,
    rotation_ok st -> rotation_ok (fst (run_loop U st script)).
Proof.
  induction script as [|it script IH]; intros st Hok; [exact Hok|].
  cbn [run_loop].
  pose proof (rotation_ok_process_audio st (it_env it) Hok) as Hp.
  destruct (process_audio U st (it_env it)) as [st1 r]. cbn [fst] in Hp.
  assert (Hhandler : forall e st2, rotation_ok st2 ->
             rotation_ok
               (fst (loop_handler e (fun st => run_loop U st script) st2))).
  { intros e st2 H2. unfold loop_handler.
    destruct (exn_class_of e); cbn [fst]; try exact H2. apply IH. exact H2. }
  destruct r as [[|]|e|].
  - apply IH. exact Hp.
  - destruct (it_answer it) as [answer|e].
    + destruct (str_eqb _ _); [apply IH|]; exact Hp.
    + apply Hhandler. exact Hp.
  - apply Hhandler. exact Hp.
  - exact Hp.
Qed.

End RotationInvariant.

(** The scenario of two quota errors followed by an answer: the third model
    answers, and the two models switched to are counted once each. *)
Example two_quota_errors_then_answer (U : unicode_db) :
  let r := transcribe_audio U init 0
             [quota_answer; quota_answer; Responded (u " habari   yako ")] in
  snd r = Return (Some (u "habari yako"))
  /\ gemini_model (fst r) = u "models/gemini-2.5-flash-lite"
  /\ current_model_index (fst r) = 2
  /\ model_retry_count (fst r) !! u "models/gemini-2.0-flash" = Some 1
  /\ model_retry_count (fst r) !! u "models/gemini-2.5-flash-lite" = Some 1
  /\ model_retry_count (fst r) !! u "models/gemini-2.0-flash-lite" = None.
Proof. vm_compute. repeat split; reflexivity. Qed.

(** * Properties of the specification *)

(** C1, as stated, fails: the round of N quota errors ends on the
    descriptor the call started on, which is the first of the list only for
    a call that starts at index 0; and N quota errors in a row that do not
    start at attempt counter 0 run into the reset after the cool-down.
    After an earlier call has left the index at 2, five quota errors of a
    new call end on the third descriptor; and of six quota errors of that
    call, the last five take the index from 3 to 1. *)
Lemma quota_cycle_misses_first_descriptor :
  current_model_index after_two_switches = 2
  /\ switches (fst (transcribe_audio ascii_db after_two_switches 0
                      (repeat quota_answer 5)))
     = switches after_two_switches + 5
  /\ gemini_model (fst (transcribe_audio ascii_db after_two_switches 0
                          (repeat quota_answer 5)))
     = u "models/gemini-2.5-flash-lite"
  /\ head (model_names (fst (transcribe_audio ascii_db after_two_switches 0
                                (repeat quota_answer 5))))
     = Some (u "models/gemini-2.0-flash-lite")
  /\ current_model_index (fst (transcribe_audio ascii_db after_two_switches 0
                                 [quota_answer])) = 3
  /\ switches (fst (transcribe_audio ascii_db after_two_switches 0
                      (quota_answer :: repeat quota_answer 5)))
     = switches (fst (transcribe_audio ascii_db after_two_switches 0
                        [quota_answer])) + 5
  /\ current_model_index (fst (transcribe_audio ascii_db after_two_switches 0
                                 (quota_answer :: repeat quota_answer 5))) = 1.
Proof. vm_compute. repeat split; reflexivity. Qed.



(** C2. At the configured five models, six quota answers in a row exhaust
    the retries: the call waits 60 seconds, resets the index and switches
    once, and the retry that follows runs on the second model of the list,
    not on the first as the claim and the code's own comment say. *)
Theorem exhausted_retry_uses_second_model (U : unicode_db) :
  let r := transcribe_audio U init 0
             (repeat quota_answer 6 ++ [Responded (u "habari yako")]) in
  snd r = Return (Some (u "habari yako"))
  /\ last (trace (fst r)) = Some (EvAttempt (u "models/gemini-2.0-flash"))
  /\ current_model_index (fst r) = 1
  /\ model_names (fst r) !! 0 = Some (u "models/gemini-2.0-flash-lite")
  /\ drop 16 (trace (fst r))
     = [ EvSleep 60; EvSwitch (u "models/gemini-2.0-flash");
         EvAttempt (u "models/gemini-2.0-flash") ].
Proof. vm_compute. repeat split; reflexivity. Qed.

(** C10. An exception the handler catches is treated as quota exhaustion
    exactly when its lower-cased message contains "rate limit", "429",
    "quota" or "resource_exhausted".  Then the model is switched once: the
    rotation index becomes [(i + 1) mod N] below the retry bound, and
    [1 mod N] after the reset that follows the long cool-down; the
    descriptor at the new index becomes the model in use; the call sleeps
    (3 seconds, or 60 before the switch) and goes on with the next attempt,
    its counter one higher or back at 0.  Otherwise the call returns [None]
    at once, with the rotation index, the switch counts and the remaining
    provider answers untouched. *)
Theorem exception_classification (U : unicode_db) (st : automation)
    (retry_count : nat) (e : exn) :
  is_Exception e = true ->
  model_names st <> [] ->
  let error_message := lower U (exn_str e) in
  let signalled :=
    exists needle, In needle rate_limit_signals /\ occurs_in needle error_message in
  let n := length (model_names st) in
  (signalled
   /\ exists st' retry_count',
       (forall answers,
           transcribe_audio U st retry_count (Failed e :: answers)
           = transcribe_audio U st' retry_count' answers)
       /\ switches st' = S (switches st)
       /\ total_retry_count st' = S (total_retry_count st)
       /\ (clock st + 3 <= clock st')%N
       /\ (retry_count' = retry_count + 1 \/ retry_count' = 0)
       /\ model_names st' = model_names st
       /\ current_model_index st'
          = (if retry_count <? n then (current_model_index st + 1) mod n
             else 1 mod n)
       /\ model_names st !! current_model_index st' = Some (gemini_model st')
       /\ retry_count' = (if retry_count <? n then retry_count + 1 else 0)
       /\ clock st' = (clock st + (if (retry_count <? n)%nat then 3 else 60))%N
       /\ trace st'
          = trace st
            ++ (if retry_count <? n
                then [EvAttempt (gemini_model st); EvSwitch (gemini_model st');
                      EvSleep 3]
                else [EvAttempt (gemini_model st); EvSleep 60;
                      EvSwitch (gemini_model st')]))
  \/ (~ signalled
      /\ (forall answers,
             transcribe_audio U st retry_count (Failed e :: answers)
             = (emit (EvAttempt (gemini_model st)) st, Return None))
      /\ current_model_index (emit (EvAttempt (gemini_model st)) st)
         = current_model_index st
      /\ model_retry_count (emit (EvAttempt (gemini_model st)) st)
         = model_retry_count st
      /\ switches (emit (EvAttempt (gemini_model st)) st) = switches st).
Proof.
  intros He Hne error_message signalled n.
  destruct (is_rate_limit error_message) eqn:Hrate.
  - left. split; [apply is_rate_limit_spec; exact Hrate|].
    assert (Hq : is_quota_exceeded U (Failed e) = true).
    { cbn. rewrite He. exact Hrate. }
    destruct (Nat.ltb_spec retry_count n) as [Hlt|Hge].
    + destruct (switch_to_next_model_ok (emit (EvAttempt (gemini_model st)) st) Hne)
        as (st1 & Hsw & Hnames & Hidx & [Hlook Hgem] & Hcnt & Htr & _ & _
            & Hclk & _ & Htot).
      cbn [model_names current_model_index emit] in Hnames, Hidx.
      exists (sleep 3 st1), (retry_count + 1).
      split; [|split; [|split; [|split; [|split; [left; reflexivity|]]]]].
      * intros answers.
        destruct (quota_step U st retry_count (Failed e) answers Hq Hne Hlt)
          as (st1' & Hsw' & Hstep).
        rewrite Hsw in Hsw'. injection Hsw' as <-. exact Hstep.
      * rewrite switches_sleep, Hcnt, switches_emit. lia.
      * exact Htot.
      * cbn. rewrite Hclk. cbn. lia.
      * split; [exact Hnames|]. split; [exact Hidx|].
        split; [|split; [reflexivity|split]].
        -- cbn [current_model_index gemini_model sleep].
           rewrite Hgem, <- Hnames. exact Hlook.
        -- cbn [clock sleep]. rewrite Hclk. reflexivity.
        -- cbn [trace sleep gemini_model]. rewrite Htr, Hgem.
           cbn [trace emit]. rewrite <- !app_assoc. reflexivity.
    + destruct (exhausted_step_state U st retry_count (Failed e) Hq Hne Hge)
        as (st1 & Hrun & Hidx & Hnames & [Hlook Hgem] & Hcnt & Hclk & Htr
            & Htot).
      exists st1, 0. split; [exact Hrun|]. split; [exact Hcnt|].
      split; [exact Htot|]. split; [lia|]. split; [right; reflexivity|].
      split; [exact Hnames|]. split; [exact Hidx|].
      split; [rewrite Hgem, <- Hnames; exact Hlook|].
      split; [reflexivity|]. split; [exact Hclk|exact Htr].
  - right. split.
    + intros Hsig. apply is_rate_limit_spec in Hsig. congruence.
    + split; [|split; [reflexivity|split; [reflexivity|]]].
      * intros answers. cbn [transcribe_audio]. rewrite He.
        fold error_message. rewrite Hrate. reflexivity.
      * rewrite switches_emit. lia.
Qed.

(** On the freshly built object: a connection error gives [None] without a
    switch, and a quota error moves the call to the second model. *)
Lemma exception_classification_witness :
  is_Exception {| exn_class_of := ExceptionClass;
                  exn_str := u "Connection reset by peer" |} = true
  /\ model_names init <> []
  /\ fst (transcribe_audio ascii_db init 0
            [Failed {| exn_class_of := ExceptionClass;
                       exn_str := u "Connection reset by peer" |};
             quota_answer])
     = emit (EvAttempt (gemini_model init)) init
  /\ current_model_index (fst (transcribe_audio ascii_db init 0 [quota_answer]))
     = 1
  /\ gemini_model (fst (transcribe_audio ascii_db init 0 [quota_answer]))
     = u "models/gemini-2.0-flash".
Proof.
  assert (H2 : model_names init <> []) by discriminate.
  split; [reflexivity|]. split; [exact H2|]. split.
  - destruct (exception_classification ascii_db init 0
                {| exn_class_of := ExceptionClass;
                   exn_str := u "Connection reset by peer" |} eq_refl H2)
      as [[Hsig _]|(_ & Hrun & _)].
    + exfalso. apply is_rate_limit_spec in Hsig. vm_compute in Hsig.
      discriminate.
    + rewrite Hrun. reflexivity.
  - destruct (exception_classification ascii_db init 0
                {| exn_class_of := ExceptionClass;
                   exn_str :=
                     u "429 Resource has been exhausted (e.g. check quota)." |}
                eq_refl H2)
      as [(_ & st' & retry_count' & Hrun & _ & _ & _ & _ & _ & Hidx & Hmodel
           & _)|(Hsig & _)].
    + change quota_answer
        with (Failed {| exn_class_of := ExceptionClass;
                        exn_str :=
                          u "429 Resource has been exhausted (e.g. check quota)." |}).
      rewrite (Hrun []). cbn [transcribe_audio fst].
      split; [exact Hidx|]. rewrite Hidx in Hmodel.
      change (Some (u "models/gemini-2.0-flash") = Some (gemini_model st'))
        in Hmodel.
      congruence.
    + exfalso. apply Hsig. apply is_rate_limit_spec. vm_compute. reflexivity.
Defined.

(** C3, as stated, fails: a removal can assemble an artifact out of its
    two neighbours, and whitespace collapsing can assemble one out of two
    words; the second pass then removes it. *)
Lemma normalize_not_idempotent :
  normalize_multi (normalize_multi (u "[Mu[Music]sic] habari"))
  <> normalize_multi (u "[Mu[Music]sic] habari")
  /\ normalize_single (normalize_single (u "Please   subscribe habari"))
     <> normalize_single (u "Please   subscribe habari").
Proof. split; vm_compute; discriminate. Qed.

(** C3, amended. A second pass of the normaliser changes nothing exactly
    when the first pass left none of the removed strings in its output; in
    both variants, for every input. *)
Theorem normalize_idempotent_iff (x : str) :
  (normalize_multi (normalize_multi x) = normalize_multi x
   <-> Forall (fun a => contains a (normalize_multi x) = false) removed_multi)
  /\ (normalize_single (normalize_single x) = normalize_single x
      <-> Forall (fun a => contains a (normalize_single x) = false)
                 artifacts_single).
Proof.
  split.
  - rewrite !normalize_multi_eq.
    apply (normalize_fixpoint removed_multi x removed_multi_nonempty).
  - rewrite !normalize_single_eq.
    apply (normalize_fixpoint artifacts_single x artifacts_single_nonempty).
Qed.

(** C4, as stated, fails: a marked token becomes two whitespace-delimited
    tokens, the marker and the token. *)
Lemma token_count_not_preserved :
  (forall U : unicode_db,
      length (split (detect_code_switching U lists_transcribe_3 false
                       (u "Hii ni the best")))
      <> length (split (u "Hii ni the best")))
  /\ (forall U : unicode_db,
         length (split (detect_code_switching U lists_gemini false
                          (u "Hii ni the best")))
         <> length (split (u "Hii ni the best"))).
Proof. split; intros U; vm_compute; discriminate. Qed.

(** C4, amended. With [strict = false] the output has one
    whitespace-delimited token per input token and one more for each input
    token classified as foreign; the list joined into the output has one
    entry per input token. *)
Theorem token_count_marked (U : unicode_db) (L : word_lists) (text : str) :
  length (split (detect_code_switching U L false text))
  = length (split text)
    + length (List.filter (is_foreign U L) (split text))
  /\ length (fold_left (annotate_word U L false) (split text) [])
     = length (split text).
Proof.
  split.
  - rewrite split_detect. apply marked_tokens_length.
  - apply annotate_loop_length.
Qed.

(** C8, as stated, fails: "fine" matches no English indicator, so it is not
    marked, in either word list. *)
Lemma fine_is_not_marked :
  (forall U : unicode_db,
      detect_code_switching U lists_transcribe_3 false
        (normalize_multi (u "Here is the transcription: Niko fine leo [Music]"))
      <> u "Niko [cs] fine leo")
  /\ (forall U : unicode_db,
         detect_code_switching U lists_gemini false
           (normalize_multi (u "Here is the transcription: Niko fine leo [Music]"))
         <> u "Niko [cs] fine leo").
Proof. split; intros U; vm_compute; discriminate. Qed.

(** C8, amended. On "Here is the transcription: Niko fine leo [Music]" the
    normaliser returns "Niko fine leo", and annotating that with
    [strict = false] returns "Niko fine leo" unchanged: no token is marked,
    "leo" being a common Swahili word of [transcribe_3.py]. *)
Theorem normalize_annotate_example (U : unicode_db) :
  normalize_multi (u "Here is the transcription: Niko fine leo [Music]")
  = u "Niko fine leo"
  /\ normalize_single (u "Here is the transcription: Niko fine leo [Music]")
     = u "Niko fine leo"
  /\ detect_code_switching U lists_transcribe_3 false (u "Niko fine leo")
     = u "Niko fine leo"
  /\ detect_code_switching U lists_gemini false (u "Niko fine leo")
     = u "Niko fine leo"
  /\ is_foreign U lists_transcribe_3 (u "fine") = false
  /\ is_kept lists_transcribe_3 (word_clean U (u "leo")) = true.
Proof. vm_compute. repeat split; reflexivity. Qed.

(** C9, as stated, fails: a token "[cs]" of the input is passed through
    unmarked and is deleted with the markers. *)
Lemma marker_in_input_is_lost :
  (forall U : unicode_db,
      drop_markers (split (detect_code_switching U lists_transcribe_3 false
                             (u "[cs] habari")))
      <> split (u "[cs] habari"))
  /\ (forall U : unicode_db,
         drop_markers (split (detect_code_switching U lists_gemini false
                                (u "[cs] habari")))
         <> split (u "[cs] habari")).
Proof. split; intros U; vm_compute; discriminate. Qed.

(** C9, amended. With [strict = false], every whitespace-delimited token of
    the output is the marker "[cs]" or an input token, and, for an input
    none of whose tokens is the literal "[cs]", deleting every "[cs]" token
    from the output gives back the input tokens in their order. *)
Theorem marked_output_round_trip (U : unicode_db) (L : word_lists)
    (text : str) :
  Forall (fun t => t = cs_marker \/ In t (split text))
         (split (detect_code_switching U L false text))
  /\ (~ In cs_marker (split text) ->
      drop_markers (split (detect_code_switching U L false text)) = split text).
Proof.
  rewrite split_detect. split.
  - apply marked_tokens_origin.
  - intros Hnot. rewrite drop_markers_flat. apply drop_markers_absent.
    exact Hnot.
Qed.

Lemma marked_output_round_trip_witness :
  ~ In cs_marker (split (u "Hii ni the best"))
  /\ drop_markers (split (detect_code_switching ascii_db lists_transcribe_3 false
                            (u "Hii ni the best")))
     = split (u "Hii ni the best").
Proof.
  assert (H : ~ In cs_marker (split (u "Hii ni the best"))).
  { vm_compute. intros [H|[H|[H|[H|[]]]]]; discriminate. }
  split; [exact H|].
  exact (proj2 (marked_output_round_trip ascii_db lists_transcribe_3
                  (u "Hii ni the best")) H).
Defined.

(** C5. In a unit whose audio file was acquired, [os.unlink] is called on
    the file exactly once, as the last effect of the unit, however the unit
    ends: with [True], with [False] or with an exception, in
    [gemini_multi_transcribe.py] and in [transcribe_3.py]; the file is gone
    when the call is carried out.  While the controller is still retrying
    the unit has not ended and the file is kept; a provider answer that is
    not a quota error ends it. *)
Theorem cleanup_always (U : unicode_db) (st : automation) (audio_file : str)
    (env : unit_env) (env3 : unit_env_3) :
  (acquired env audio_file ->
   match snd (process_audio U st env) with
   | Pending =>
       unlink_calls audio_file (fst (process_audio U st env))
       = unlink_calls audio_file st
   | _ => deleted_once audio_file (env_unlink env) st
            (fst (process_audio U st env))
   end
   /\ (Exists (fun a => is_quota_exceeded U a = false) (env_attempts env) ->
       snd (process_audio U st env) <> Pending))
  /\ (acquired_3 env3 audio_file ->
      snd (process_audio_3 U st env3) <> Pending
      /\ deleted_once audio_file (env3_unlink env3) st
           (fst (process_audio_3 U st env3))).
Proof.
  split.
  - intros Hacq.
    destruct (process_audio_acquired U st env audio_file Hacq)
      as (_ & _ & Hdel & Hexit).
    split; assumption.
  - intros Hacq. apply (process_audio_3_acquired U st env3 audio_file Hacq).
Qed.

(** A unit whose review wait times out and a unit whose transcription
    fails: each deletes its audio file once. *)
Lemma cleanup_always_witness :
  acquired timeout_unit (u "/tmp/tmpa1.mp3")
  /\ acquired_3 failing_unit_3 (u "/tmp/tmpa1.mp3")
  /\ deleted_once (u "/tmp/tmpa1.mp3") true init
       (fst (process_audio ascii_db init timeout_unit))
  /\ deleted_once (u "/tmp/tmpa1.mp3") true init
       (fst (process_audio_3 ascii_db init failing_unit_3)).
Proof.
  assert (H1 : acquired timeout_unit (u "/tmp/tmpa1.mp3"))
    by (repeat split; discriminate).
  assert (H2 : acquired_3 failing_unit_3 (u "/tmp/tmpa1.mp3")).
  { split; [eexists; split; reflexivity|]. split; [reflexivity|discriminate]. }
  destruct (cleanup_always ascii_db init (u "/tmp/tmpa1.mp3") timeout_unit
              failing_unit_3) as [Hm H3].
  destruct (Hm H1) as [Hdel _]. destruct (H3 H2) as [_ Hdel3].
  assert (Hret : snd (process_audio ascii_db init timeout_unit) = Return false)
    by (vm_compute; reflexivity).
  rewrite Hret in Hdel.
  split; [exact H1|]. split; [exact H2|]. split; [exact Hdel|exact Hdel3].
Defined.

(** C6, as stated, fails: after a review time-out the operator is asked,
    and on any answer but "y" the run ends, with the next unit never
    started. *)
Lemma timeout_then_decline_ends_run :
  (forall U : unicode_db,
      snd (process_audio U init timeout_unit) = Return false)
  /\ (forall U : unicode_db,
         snd (run U init true timeout_then_decline) = Ended)
  /\ (forall U : unicode_db,
         audio_count (fst (run U init true timeout_then_decline)) = 1).
Proof. repeat split; intros U; vm_compute; reflexivity. Qed.

(** C6, amended. When the review wait elapses without a submission signal
    the unit fails ([process_audio] returns [False] after the full
    time-out), the operator is asked whether to try again, and the run goes
    on to the next unit exactly when the answer, lower-cased, is "y";
    otherwise the run ends. *)
Theorem review_timeout_asks_operator (U : unicode_db) (st : automation)
    (it : iteration) (script : list iteration) (audio_file : str)
    (st_w : automation) :
  reaches_wait U st (it_env it) audio_file st_w ->
  review_times_out (it_env it) ->
  let st' := fst (process_audio U st (it_env it)) in
  snd (process_audio U st (it_env it)) = Return false
  /\ clock st' = (clock st_w + review_timeout)%N
  /\ forall answer,
      it_answer it = Ok answer ->
      run_loop U st (it :: script)
      = if str_eqb (lower U answer) (u "y")
        then run_loop U (emit EvPrompt st') script
        else (emit EvPrompt st', Ended).
Proof.
  intros Hreach Hout.
  destruct (process_audio_times_out U st (it_env it) audio_file st_w Hreach Hout)
    as (st_t & _ & Hclock & Hrun).
  cbv zeta. rewrite Hrun. cbn [fst snd]. split; [reflexivity|]. split.
  - rewrite <- Hclock. unfold unlink. destruct (env_unlink (it_env it)); reflexivity.
  - intros answer Hans. cbn [run_loop]. rewrite Hrun, Hans. reflexivity.
Qed.

Lemma review_timeout_asks_operator_witness :
  reaches_wait ascii_db init timeout_unit (u "/tmp/tmpa1.mp3")
    (emit (EvType (u "habari yako"))
       (fst (transcribe_audio ascii_db
               (fst (download_audio
                       (emit (EvHeader 1) (count_audio init)) timeout_unit))
               0 (env_attempts timeout_unit))))
  /\ review_times_out timeout_unit
  /\ snd (process_audio ascii_db init timeout_unit) = Return false.
Proof.
  assert (H1 : reaches_wait ascii_db init timeout_unit (u "/tmp/tmpa1.mp3")
    (emit (EvType (u "habari yako"))
       (fst (transcribe_audio ascii_db
               (fst (download_audio
                       (emit (EvHeader 1) (count_audio init)) timeout_unit))
               0 (env_attempts timeout_unit))))).
  { exists (u "habari yako"), (fst (transcribe_audio ascii_db
               (fst (download_audio
                       (emit (EvHeader 1) (count_audio init)) timeout_unit))
               0 (env_attempts timeout_unit))).
    split; [reflexivity|]. split; [reflexivity|]. split; [discriminate|].
    split; [reflexivity|]. split; [discriminate|]. split; reflexivity. }
  assert (H2 : review_times_out timeout_unit).
  { exists (u "https://example.test/transcribe"). split; [reflexivity|].
    intros k. repeat split. }
  split; [exact H1|]. split; [exact H2|].
  exact (proj1 (review_timeout_asks_operator ascii_db init
                  {| it_env := timeout_unit; it_answer := Ok (u "n") |} []
                  (u "/tmp/tmpa1.mp3") _ H1 H2)).
Defined.

(** C7, as stated, fails: the count is incremented before anything else,
    so a unit without audio and a unit whose review times out are counted
    too, and a unit still being transcribed is counted already. *)
Lemma failed_units_are_counted :
  (forall U : unicode_db,
      snd (process_audio U init no_audio_unit) = Return false
      /\ audio_count (fst (process_audio U init no_audio_unit)) = 1)
  /\ (forall U : unicode_db,
         snd (process_audio U init timeout_unit) = Return false
         /\ audio_count (fst (process_audio U init timeout_unit)) = 1)
  /\ (forall U : unicode_db,
         snd (process_audio_3 U init failing_unit_3) = Return false
         /\ audio_count (fst (process_audio_3 U init failing_unit_3)) = 1).
Proof. repeat split; vm_compute; reflexivity. Qed.

(** C7, amended. The count is incremented as the first step of a
    processing unit: every call of [process_audio] adds exactly 1, however
    the unit ends, so after any run the count has grown by the number of
    units started, one per header printed. *)
Theorem unit_count_counts_started_units (U : unicode_db) (st : automation)
    (env : unit_env) (env3 : unit_env_3) (logged_in : bool)
    (script : list iteration) :
  audio_count (fst (process_audio U st env)) = S (audio_count st)
  /\ audio_count (fst (process_audio_3 U st env3)) = S (audio_count st)
  /\ audio_count (fst (run U st logged_in script)) + headers st
     = audio_count st + headers (fst (run U st logged_in script)).
Proof.
  split; [apply process_audio_counts|]. split; [apply process_audio_3_counts|].
  unfold run. destruct logged_in; [apply run_loop_counts|reflexivity].
Qed.

(** * Further properties of the code *)

(** ** The normaliser *)

Section NormalizerMore.

Lemma join_tokens_spaces (l : list str) :
  Forall is_token l ->
  Forall (fun c => isspace c = true -> c = 32%N) (join (u " ") l).
Proof.
  induction 1 as [|w ws [_ Hw] Hws IH]; [constructor|].
  assert (Hw' : Forall (fun c => isspace c = true -> c = 32%N) w).
  { eapply Forall_impl; [exact Hw|]. cbn. intros c Hc Hs. congruence. }
  destruct ws as [|w' ws']; [exact Hw'|].
  rewrite join_cons by discriminate. apply Forall_app. split; [exact Hw'|].
  apply Forall_app. split; [|exact IH]. repeat constructor.
Qed.

(** Joined tokens are in whitespace-normal form. *)
Lemma join_tokens_normal (l : list str) :
  Forall is_token l -> whitespace_normal (join (u " ") l).
Proof.
  intros Hl. split; [apply strip_join, Hl|]. split.
  - rewrite split_join by exact Hl. reflexivity.
  - apply join_tokens_spaces, Hl.
Qed.

Lemma filter_nonspace_cons (c : N) (s : str) :
  List.filter nonspace (c :: s)
  = if isspace c then List.filter nonspace s else c :: List.filter nonspace s.
Proof. cbn [List.filter]. unfold nonspace at 1. destruct (isspace c); reflexivity. Qed.

Lemma filter_nonspace_lstrip (s : str) :
  List.filter nonspace (lstrip s) = List.filter nonspace s.
Proof.
  induction s as [|c s IH]; [reflexivity|]. cbn [lstrip].
  rewrite (filter_nonspace_cons c s).
  destruct (isspace c) eqn:Hc; [exact IH|].
  rewrite filter_nonspace_cons, Hc. reflexivity.
Qed.

Lemma filter_nonspace_strip (s : str) :
  List.filter nonspace (strip s) = List.filter nonspace s.
Proof.
  unfold strip, rstrip.
  rewrite List.filter_rev, filter_nonspace_lstrip, <- List.filter_rev.
  rewrite rev_involutive. apply filter_nonspace_lstrip.
Qed.

(** Collapsing whitespace keeps every other code point, in order. *)
Lemma filter_nonspace_join_split (s : str) :
  List.filter nonspace (join (u " ") (split s)) = List.filter nonspace s.
Proof.
  induction s as [|c s IH]; [reflexivity|].
  rewrite (filter_nonspace_cons c s).
  destruct (isspace c) eqn:Hc.
  - rewrite split_space by exact Hc. exact IH.
  - rewrite split_nonspace by exact Hc.
    destruct s as [|d s']; [cbn [join]; rewrite filter_nonspace_cons, Hc; reflexivity|].
    rewrite <- IH. destruct (isspace d) eqn:Hd.
    + destruct (split (d :: s')) as [|w ws];
        [cbn [join]; rewrite filter_nonspace_cons, Hc; reflexivity|].
      rewrite join_cons by discriminate.
      change ([c] ++ u " " ++ join (u " ") (w :: ws))
        with (c :: 32%N :: join (u " ") (w :: ws)).
      rewrite !filter_nonspace_cons, Hc. reflexivity.
    + destruct (split (d :: s')) as [|w ws];
        [cbn [join]; rewrite filter_nonspace_cons, Hc; reflexivity|].
      assert (join (u " ") ((c :: w) :: ws) = c :: join (u " ") (w :: ws))
        as -> by (destruct ws; reflexivity).
      rewrite filter_nonspace_cons, Hc. reflexivity.
Qed.

Lemma replace_scan_sublist (old : str) (k : nat) (s : str) :
  replace_scan old [] k s `sublist_of` s.
Proof.
  revert k. induction s as [|c s IH]; intros k; [constructor|].
  cbn [replace_scan]. destruct k as [|k].
  - destruct (startswith old (c :: s)); cbn [app].
    + apply sublist_cons, IH.
    + apply sublist_skip, IH.
  - apply sublist_cons, IH.
Qed.

Lemma replace_sublist (s old : str) : replace s old [] `sublist_of` s.
Proof.
  destruct old as [|a old]; [|apply replace_scan_sublist].
  cbn. induction s as [|c s IH]; [constructor|]. cbn. apply sublist_skip, IH.
Qed.

Lemma remove_artifacts_sublist (arts : list str) (t : str) :
  remove_artifacts arts t `sublist_of` t.
Proof.
  revert t. induction arts as [|a arts IH]; intros t; [reflexivity|].
  change (remove_artifacts (a :: arts) t)
    with (remove_artifacts arts (replace t a [])).
  etransitivity; [apply IH|apply replace_sublist].
Qed.

Lemma filter_sublist (f : N -> bool) (l1 l2 : str) :
  l1 `sublist_of` l2 -> List.filter f l1 `sublist_of` List.filter f l2.
Proof.
  induction 1 as [|x l1 l2 _ IH|x l1 l2 _ IH]; cbn [List.filter].
  - constructor.
  - destruct (f x); [apply sublist_skip|]; exact IH.
  - destruct (f x); [apply sublist_cons|]; exact IH.
Qed.

Lemma filter_is_sublist (f : N -> bool) (l : str) :
  List.filter f l `sublist_of` l.
Proof.
  induction l as [|x l IH]; [constructor|]. cbn.
  destruct (f x); [apply sublist_skip|apply sublist_cons]; exact IH.
Qed.

Lemma normalize_nonspace_sublist (arts : list str) (raw : str) :
  List.filter nonspace (normalize arts raw) `sublist_of` List.filter nonspace raw.
Proof.
  unfold normalize. rewrite filter_nonspace_join_split.
  rewrite <- (filter_nonspace_strip raw).
  apply filter_sublist, remove_artifacts_sublist.
Qed.

Lemma strip_length (s : str) : length (strip s) <= length s.
Proof.
  assert (Hl : forall t : str, length (lstrip t) <= length t).
  { induction t as [|c t IH]; [reflexivity|]. cbn.
    destruct (isspace c); cbn; lia. }
  unfold strip, rstrip. rewrite length_rev.
  etransitivity; [apply Hl|]. rewrite length_rev. apply Hl.
Qed.

Lemma normalize_length (arts : list str) (raw : str) :
  length (normalize arts raw) <= length raw.
Proof.
  unfold normalize.
  pose proof (join_split_length (remove_artifacts arts (strip raw))).
  pose proof (remove_artifacts_length_le arts (strip raw)).
  pose proof (strip_length raw). lia.
Qed.

Lemma sublist_not_In (c : N) (l1 l2 : str) :
  l1 `sublist_of` l2 -> ~ In c l2 -> ~ In c l1.
Proof.
  intros Hsub Hnot Hin. apply Hnot.
  apply list_elem_of_In. eapply elem_of_sublist; [|exact Hsub].
  apply list_elem_of_In. exact Hin.
Qed.

(** Removing a one-code-point string leaves no occurrence of it. *)
Lemma replace_single_absent (c : N) (s : str) : ~ In c (replace s [c] []).
Proof.
  unfold replace. induction s as [|x s IH]; [intros []|].
  cbn [replace_scan startswith length Nat.sub app].
  destruct (N.eqb_spec c x) as [->|Hne]; cbn [andb].
  - exact IH.
  - intros [Heq|Hin]; [congruence|exact (IH Hin)].
Qed.

Lemma remove_artifacts_single_absent (c : N) (arts : list str) (t : str) :
  In [c] arts -> ~ In c (remove_artifacts arts t).
Proof.
  revert t. induction arts as [|a arts IH]; intros t Hin; [destruct Hin|].
  change (remove_artifacts (a :: arts) t)
    with (remove_artifacts arts (replace t a [])).
  destruct Hin as [->|Hin]; [|apply IH, Hin].
  eapply sublist_not_In; [apply remove_artifacts_sublist|].
  apply replace_single_absent.
Qed.

Lemma In_join_split (c : N) (s : str) :
  In c (join (u " ") (split s)) -> In c s \/ c = 32%N.
Proof.
  intros Hin. destruct (isspace c) eqn:Hc.
  - right. pose proof (join_tokens_spaces (split s) (split_tokens s)) as Hsp.
    rewrite Forall_forall in Hsp. apply Hsp; [|exact Hc].
    apply list_elem_of_In. exact Hin.
  - left. assert (Hf : In c (List.filter nonspace (join (u " ") (split s)))).
    { apply filter_In. split; [exact Hin|]. unfold nonspace. rewrite Hc.
      reflexivity. }
    rewrite filter_nonspace_join_split in Hf. apply filter_In in Hf as [Hf _].
    exact Hf.
Qed.

Lemma normalize_output_normal_multi (raw : str) :
  whitespace_normal (normalize_multi raw).
Proof. apply join_tokens_normal, split_tokens. Qed.

Lemma normalize_output_normal_single (raw : str) :
  whitespace_normal (normalize_single raw).
Proof. apply join_tokens_normal, split_tokens. Qed.

End NormalizerMore.

(** X1. What either normaliser returns is in whitespace-normal form: no
    whitespace at the ends, tokens separated by exactly one separator, and
    every separator the space U+0020 (tabs, newlines and no-break spaces of
    the response are gone). *)
Theorem normalize_output_whitespace_normal (raw : str) :
  whitespace_normal (normalize_multi raw)
  /\ whitespace_normal (normalize_single raw).
Proof. split; apply join_tokens_normal, split_tokens. Qed.

(** X2. The normalisers only delete: the non-whitespace code points of the
    result are a subsequence of those of the response, and the result is
    never longer than the response. *)
Theorem normalize_only_deletes (raw : str) :
  List.filter nonspace (normalize_multi raw) `sublist_of` List.filter nonspace raw
  /\ List.filter nonspace (normalize_single raw)
     `sublist_of` List.filter nonspace raw
  /\ length (normalize_multi raw) <= length raw
  /\ length (normalize_single raw) <= length raw.
Proof.
  rewrite normalize_multi_eq, normalize_single_eq.
  split; [apply normalize_nonspace_sublist|].
  split; [apply normalize_nonspace_sublist|].
  split; apply normalize_length.
Qed.

(** X3. No asterisk and no musical-note glyph survives the multi-model
    normaliser, and no eighth note survives the single-model one, whatever
    the response: artifacts of one code point cannot be assembled again by
    later removals. *)
Theorem normalize_drops_glyphs (raw : str) :
  Forall (fun c => ~ In c [ 42%N; 0x266A%N; 0x266B%N; 0x266C%N ])
         (normalize_multi raw)
  /\ ~ In 0x266A%N (normalize_single raw).
Proof.
  assert (Hgen : forall arts c,
             In [c] arts -> c <> 32%N -> ~ In c (normalize arts raw)).
  { intros arts c Hin Hne Hc. unfold normalize in Hc.
    apply In_join_split in Hc as [Hc|Hc]; [|congruence].
    exact (remove_artifacts_single_absent c arts _ Hin Hc). }
  split.
  - rewrite normalize_multi_eq. apply Forall_forall. intros c Hc Hbad.
    apply list_elem_of_In in Hc.
    assert (Harts : In [c] removed_multi).
    { cbn in Hbad. destruct Hbad as [<-|[<-|[<-|[<-|[]]]]]; cbn; tauto. }
    assert (Hne : c <> 32%N).
    { cbn in Hbad. destruct Hbad as [<-|[<-|[<-|[<-|[]]]]]; discriminate. }
    exact (Hgen removed_multi c Harts Hne Hc).
  - rewrite normalize_single_eq. apply Hgen; [cbn; tauto|discriminate].
Qed.

(** ** The annotator *)

Section AnnotatorMore.

Variable U : unicode_db.

Lemma split_app_sep (a b : str) (c : N) :
  isspace c = true -> split (a ++ c :: b) = split a ++ split b.
Proof.
  intros Hsep. induction a as [|x a IH].
  - cbn [app]. apply split_space, Hsep.
  - change ((x :: a) ++ c :: b) with (x :: (a ++ c :: b)).
    destruct (isspace x) eqn:Hx.
    + rewrite !split_space by assumption. exact IH.
    + rewrite !split_nonspace by assumption. rewrite IH.
      destruct a as [|d a'].
      * cbn [app]. rewrite Hsep. reflexivity.
      * change ((d :: a') ++ c :: b) with (d :: (a' ++ c :: b)).
        cbv beta iota. destruct (isspace d) eqn:Hd; [reflexivity|].
        pose proof (split_nonspace_cons d a' Hd) as Hne.
        destruct (split (d :: a')) as [|w ws]; [congruence|reflexivity].
Qed.

Lemma split_all_space (ws : str) :
  Forall (fun c => isspace c = true) ws -> split ws = [].
Proof.
  induction 1 as [|c ws Hc _ IH]; [reflexivity|].
  rewrite split_space by exact Hc. exact IH.
Qed.

Lemma lstrip_decompose (s : str) :
  exists ws, s = ws ++ lstrip s /\ Forall (fun c => isspace c = true) ws.
Proof.
  induction s as [|c s (ws & Hs & Hws)]; [exists []; split; [reflexivity|constructor]|].
  cbn [lstrip]. destruct (isspace c) eqn:Hc.
  - exists (c :: ws). split; [cbn; congruence|constructor; assumption].
  - exists []. split; [reflexivity|constructor].
Qed.

Lemma split_trailing_space (a ws : str) :
  Forall (fun c => isspace c = true) ws -> split (a ++ ws) = split a.
Proof.
  intros Hws. destruct Hws as [|c ws Hc Hws]; [rewrite app_nil_r; reflexivity|].
  rewrite split_app_sep by exact Hc.
  rewrite (split_all_space ws Hws), app_nil_r. reflexivity.
Qed.

Lemma split_leading_space (ws a : str) :
  Forall (fun c => isspace c = true) ws -> split (ws ++ a) = split a.
Proof.
  induction 1 as [|c ws Hc _ IH]; [reflexivity|].
  cbn [app]. rewrite split_space by exact Hc. exact IH.
Qed.

(** [split] does not see the whitespace [strip] removes. *)
Lemma split_strip (s : str) : split (strip s) = split s.
Proof.
  assert (Hl : forall t, split (lstrip t) = split t).
  { intros t. destruct (lstrip_decompose t) as (ws & Ht & Hws).
    rewrite Ht at 2. rewrite split_leading_space by exact Hws. reflexivity. }
  assert (Hr : forall t, split (rstrip t) = split t).
  { intros t. unfold rstrip.
    destruct (lstrip_decompose (rev t)) as (ws & Ht & Hws).
    assert (Ht' : t = rev (lstrip (rev t)) ++ rev ws).
    { rewrite <- rev_app_distr, <- Ht, rev_involutive. reflexivity. }
    rewrite Ht' at 2. rewrite split_trailing_space; [reflexivity|].
    apply Forall_forall. intros c Hc. rewrite Forall_forall in Hws.
    apply Hws. apply list_elem_of_In. apply in_rev.
    apply list_elem_of_In. exact Hc. }
  unfold strip. rewrite Hr. apply Hl.
Qed.

Lemma join_app (sep : str) (l1 l2 : list str) :
  l1 <> [] -> l2 <> [] ->
  join sep (l1 ++ l2) = join sep l1 ++ sep ++ join sep l2.
Proof.
  intros H1 H2. induction l1 as [|w l1 IH]; [congruence|].
  destruct l1 as [|w' l1'].
  - cbn [app]. rewrite join_cons by exact H2. reflexivity.
  - change ((w :: w' :: l1') ++ l2) with (w :: ((w' :: l1') ++ l2)).
    rewrite join_cons by discriminate. rewrite IH by discriminate.
    rewrite (join_cons sep w (w' :: l1')) by discriminate.
    rewrite <- !app_assoc. reflexivity.
Qed.

Variable L : word_lists.

Lemma marked_tokens_are_tokens (words : list str) :
  Forall is_token words -> Forall is_token (flat_map (marked_tokens U L) words).
Proof.
  induction 1 as [|w ws Hw _ IH]; [constructor|]. cbn [flat_map].
  apply Forall_app. split; [|exact IH]. unfold marked_tokens.
  destruct (is_foreign U L w).
  - constructor; [exact cs_marker_token|]. constructor; [exact Hw|constructor].
  - constructor; [exact Hw|constructor].
Qed.

Lemma flat_map_nil_iff (words : list str) :
  flat_map (emitted U L false) words = []
  <-> flat_map (marked_tokens U L) words = [].
Proof.
  destruct words as [|w ws]; [tauto|]. cbn [flat_map].
  unfold emitted, marked_tokens. destruct (is_foreign U L w); split; discriminate.
Qed.

(** The marked output, read as markers and tokens joined by single spaces. *)
Lemma join_emitted_marked (words : list str) :
  join (u " ") (flat_map (emitted U L false) words)
  = join (u " ") (flat_map (marked_tokens U L) words).
Proof.
  induction words as [|w ws IH]; [reflexivity|]. cbn [flat_map].
  destruct (flat_map (emitted U L false) ws) as [|e es] eqn:He.
  - assert (Hm : flat_map (marked_tokens U L) ws = [])
      by (apply flat_map_nil_iff; exact He).
    rewrite Hm, !app_nil_r. unfold emitted, marked_tokens.
    destruct (is_foreign U L w); reflexivity.
  - assert (Hm : flat_map (marked_tokens U L) ws <> []).
    { intros Hm. apply flat_map_nil_iff in Hm. congruence. }
    rewrite (join_app (u " ") (emitted U L false w) (e :: es));
      [|unfold emitted; destruct (is_foreign U L w); discriminate|discriminate].
    rewrite (join_app (u " ") (marked_tokens U L w));
      [|unfold marked_tokens; destruct (is_foreign U L w); discriminate|exact Hm].
    rewrite IH. f_equal. unfold emitted, marked_tokens.
    destruct (is_foreign U L w); reflexivity.
Qed.

Lemma emitted_strict_filter (words : list str) :
  flat_map (emitted U L true) words
  = List.filter (fun w => negb (is_foreign U L w)) words.
Proof.
  induction words as [|w ws IH]; [reflexivity|]. cbn [flat_map List.filter].
  rewrite IH. unfold emitted. destruct (is_foreign U L w); reflexivity.
Qed.

Lemma filter_tokens (f : str -> bool) (words : list str) :
  Forall is_token words -> Forall is_token (List.filter f words).
Proof.
  induction 1 as [|w ws Hw _ IH]; [constructor|]. cbn.
  destruct (f w); [constructor|]; assumption.
Qed.

Lemma filter_words_sublist (f : str -> bool) (words : list str) :
  List.filter f words `sublist_of` words.
Proof.
  induction words as [|w ws IH]; [constructor|]. cbn.
  destruct (f w); [apply sublist_skip|apply sublist_cons]; exact IH.
Qed.

(** The tokens of the strict output. *)
Lemma split_detect_strict (text : str) :
  split (detect_code_switching U L true text)
  = List.filter (fun w => negb (is_foreign U L w)) (split text).
Proof.
  unfold detect_code_switching. rewrite annotate_loop. cbn [app].
  rewrite emitted_strict_filter. apply split_join, filter_tokens, split_tokens.
Qed.

Lemma detect_output_normal (strict_swahili : bool) (text : str) :
  whitespace_normal (detect_code_switching U L strict_swahili text).
Proof.
  unfold detect_code_switching. rewrite annotate_loop. cbn [app].
  destruct strict_swahili.
  - rewrite emitted_strict_filter.
    apply join_tokens_normal, filter_tokens, split_tokens.
  - rewrite join_emitted_marked.
    apply join_tokens_normal, marked_tokens_are_tokens, split_tokens.
Qed.

End AnnotatorMore.

(** X4. In strict mode the whitespace-delimited tokens of the output are
    exactly the input tokens that are not classified as foreign, in their
    order: a subsequence of the input tokens, hence no more of them, and no
    marker is added. *)
Theorem strict_output_is_subsequence (U : unicode_db) (L : word_lists)
    (text : str) :
  split (detect_code_switching U L true text)
  = List.filter (fun w => negb (is_foreign U L w)) (split text)
  /\ split (detect_code_switching U L true text) `sublist_of` split text
  /\ length (split (detect_code_switching U L true text)) <= length (split text)
  /\ Forall (fun w => is_foreign U L w = false)
            (split (detect_code_switching U L true text)).
Proof.
  rewrite split_detect_strict. split; [reflexivity|].
  split; [apply filter_words_sublist|].
  split; [apply sublist_length, filter_words_sublist|].
  apply Forall_forall. intros w Hw. apply list_elem_of_In in Hw.
  apply filter_In in Hw as [_ Hw]. destruct (is_foreign U L w); [discriminate|].
  reflexivity.
Qed.

(** X5. The annotator sees the text only through its tokens: stripping the
    text or collapsing its whitespace first changes nothing, and in both
    modes the output is in whitespace-normal form (single spaces, none at
    the ends). *)
Theorem annotator_ignores_whitespace_layout (U : unicode_db) (L : word_lists)
    (strict_swahili : bool) (text : str) :
  detect_code_switching U L strict_swahili (strip text)
  = detect_code_switching U L strict_swahili text
  /\ detect_code_switching U L strict_swahili (join (u " ") (split text))
     = detect_code_switching U L strict_swahili text
  /\ whitespace_normal (detect_code_switching U L strict_swahili text).
Proof.
  split; [|split].
  - unfold detect_code_switching. rewrite split_strip. reflexivity.
  - unfold detect_code_switching.
    rewrite split_join by apply split_tokens. reflexivity.
  - apply detect_output_normal.
Qed.

Section VariantsCompared.

Variable U : unicode_db.

Lemma match_here_mono (A B : list str) (prev : option N) (s : str) :
  (forall w, In w A -> In w B) ->
  match_here U A prev s = true -> match_here U B prev s = true.
Proof.
  intros Hsub. unfold match_here. rewrite !andb_true_iff, !existsb_exists.
  intros [Hb (w & Hw & Hm)]. split; [exact Hb|]. exists w. split; auto.
Qed.

(** More alternatives in the pattern can only add matches. *)
Lemma re_search_mono (A B : list str) (s : str) :
  (forall w, In w A -> In w B) ->
  forall prev, re_search U A prev s = true -> re_search U B prev s = true.
Proof.
  intros Hsub. induction s as [|c s IH]; intros prev; cbn [re_search];
    rewrite !orb_true_iff.
  - intros [H|H]; [left; eapply match_here_mono; eassumption|discriminate].
  - intros [H|H]; [left; eapply match_here_mono; eassumption|right; auto].
Qed.

Lemma english_words_included (w : str) :
  In w (english_words lists_gemini) -> In w (english_words lists_transcribe_3).
Proof.
  intros Hw.
  change (english_words lists_transcribe_3)
    with (english_words lists_gemini
          ++ map u [ "okay"; "sure"; "yes"; "no"; "maybe"; "thanks";
                     "morning"; "afternoon"; "evening" ]%string).
  apply in_or_app. left. exact Hw.
Qed.

Lemma is_english_included (clean : str) :
  is_english U lists_gemini clean = true ->
  is_english U lists_transcribe_3 clean = true.
Proof.
  unfold is_english. rewrite !orb_true_iff. intros [[H|H]|H]; auto.
  left. left. eapply re_search_mono; [exact english_words_included|exact H].
Qed.

(** None of the additional stop words looks English to the other variants. *)
Lemma extra_swahili_common_not_english :
  forallb (fun clean => negb (is_english U lists_gemini clean))
          extra_swahili_common = true.
Proof. vm_compute. reflexivity. Qed.

Lemma swahili_common_3_split (clean : str) :
  clean ∈ swahili_common lists_transcribe_3 ->
  clean ∈ swahili_common lists_gemini \/ In clean extra_swahili_common.
Proof.
  change (swahili_common lists_transcribe_3)
    with (list_to_set (C := gset str)
            (map u [ "na"; "ya"; "wa"; "ni"; "kwa"; "la"; "za"; "katika"; "kama";
         "au"; "lakini"; "pia"; "sana"; "tu"; "kwenye"; "bila"; "hii";
         "hiyo"; "hilo"; "hao"; "wale"; "hawa"; "mimi"; "wewe"; "yeye";
         "sisi"; "ninyi"; "wao"; "nini"; "nani"; "wapi"; "lini"; "je";
         "cha"; "vya"; "nchi"; "watu"; "mtu"; "yake"; "yangu"; "yetu";
         "moja"; "mbili"; "tatu"; "nne"; "tano"; "ndiyo"; "hapana" ]%string
             ++ extra_swahili_common)).
  rewrite list_to_set_app_L, elem_of_union.
  intros [H|H]; [left; exact H|right].
  apply elem_of_list_to_set in H. apply list_elem_of_In. exact H.
Qed.

End VariantsCompared.

(** X6. Every token the Gemini variants of [detect_code_switching] mark is
    marked by the [transcribe_3.py] variant too: its longer stop-word list
    protects no word the shorter indicator rules flag, and its longer
    indicator list only adds marks. *)
Theorem transcribe_3_marks_superset (U : unicode_db) (word : str) :
  is_foreign U lists_gemini word = true ->
  is_foreign U lists_transcribe_3 word = true.
Proof.
  unfold is_foreign. cbv zeta. rewrite !andb_true_iff, !negb_true_iff.
  intros [Hkept Heng]. split; [|apply is_english_included; exact Heng].
  unfold is_kept in *. destruct (word_clean U word) as [|c clean] eqn:Hclean;
    [discriminate|].
  apply bool_decide_eq_false in Hkept. apply bool_decide_eq_false.
  intros Hin. apply swahili_common_3_split in Hin as [Hin|Hin];
    [exact (Hkept Hin)|].
  pose proof (extra_swahili_common_not_english U) as Hextra.
  rewrite forallb_forall in Hextra. specialize (Hextra _ Hin).
  rewrite Heng in Hextra. discriminate.
Qed.

Lemma transcribe_3_marks_superset_witness :
  is_foreign ascii_db lists_gemini (u "running,") = true
  /\ is_foreign ascii_db lists_transcribe_3 (u "running,") = true.
Proof.
  assert (H : is_foreign ascii_db lists_gemini (u "running,") = true)
    by (vm_compute; reflexivity).
  split; [exact H|].
  exact (transcribe_3_marks_superset ascii_db (u "running,") H).
Defined.

Section CaseAndPunctuation.

Variable U : unicode_db.

Lemma ascii_forall (f : N -> bool) :
  forallb f (map N.of_nat (seq 0 128)) = true ->
  forall c, is_ascii c = true -> f c = true.
Proof.
  intros Hall c Hc. rewrite forallb_forall in Hall. apply Hall.
  unfold is_ascii in Hc. apply N.ltb_lt in Hc.
  rewrite <- (N2Nat.id c). apply in_map. apply in_seq. lia.
Qed.

Lemma ascii_lower_kept (c : N) :
  is_ascii c = true ->
  is_ascii (ascii_lower c) = true
  /\ kept_char U (ascii_lower c) = kept_char U c.
Proof.
  intros Hc.
  pose proof (ascii_forall
                (fun c => is_ascii (ascii_lower c)
                          && eqb (kept_char U (ascii_lower c)) (kept_char U c))) as H.
  cbv beta in H. specialize (H ltac:(vm_compute; reflexivity) c Hc).
  apply andb_true_iff in H as [H1 H2]. apply eqb_prop in H2. split; assumption.
Qed.

Lemma forallb_filter_ascii (f : N -> bool) (w : str) :
  forallb is_ascii w = true -> forallb is_ascii (List.filter f w) = true.
Proof.
  rewrite !forallb_forall. intros H c Hc. apply filter_In in Hc as [Hc _]. auto.
Qed.

Lemma lower_filter_commute (w : str) :
  forallb is_ascii w = true ->
  map ascii_lower (List.filter (kept_char U) w)
  = List.filter (kept_char U) (map ascii_lower w).
Proof.
  induction w as [|c w IH]; [reflexivity|]. cbn [forallb].
  rewrite andb_true_iff. intros [Hc Hw]. cbn [map List.filter].
  destruct (ascii_lower_kept c Hc) as [_ ->].
  destruct (kept_char U c); cbn [map]; rewrite IH by exact Hw; reflexivity.
Qed.

(** The comparison key of an ASCII token: its lower-cased letters, digits,
    underscores and apostrophes. *)
Lemma word_clean_ascii (w : str) :
  forallb is_ascii w = true ->
  word_clean U w = List.filter (kept_char U) (map ascii_lower w).
Proof.
  intros Hw. unfold word_clean, strip_nonword.
  change (fun c => is_word U c || (c =? 39)%N) with (kept_char U).
  unfold lower. rewrite forallb_filter_ascii by exact Hw.
  apply lower_filter_commute, Hw.
Qed.

End CaseAndPunctuation.

(** X7. The classification of an ASCII token depends only on its letters,
    digits, underscores and apostrophes, lower-cased: two tokens that differ
    in case or in other punctuation are classified alike, under any word
    list. *)
Theorem classification_ignores_case_and_punctuation (U : unicode_db)
    (L : word_lists) (w w' : str) :
  forallb is_ascii w = true ->
  forallb is_ascii w' = true ->
  List.filter (kept_char U) (map ascii_lower w)
  = List.filter (kept_char U) (map ascii_lower w') ->
  is_foreign U L w = is_foreign U L w'.
Proof.
  intros Hw Hw' Heq. unfold is_foreign.
  rewrite (word_clean_ascii U w Hw), (word_clean_ascii U w' Hw'), Heq.
  reflexivity.
Qed.

Lemma classification_ignores_case_and_punctuation_witness :
  forallb is_ascii (u "(THAT's)...") = true
  /\ forallb is_ascii (u "that's") = true
  /\ is_foreign ascii_db lists_transcribe_3 (u "(THAT's)...")
     = is_foreign ascii_db lists_transcribe_3 (u "that's").
Proof.
  split; [reflexivity|]. split; [reflexivity|].
  apply (classification_ignores_case_and_punctuation ascii_db lists_transcribe_3
           (u "(THAT's)...") (u "that's")); reflexivity.
Defined.

(** ** The controller *)

Section ControllerMore.

Variable U : unicode_db.

(** A quota answer, whatever the retry counter: one switch, a cool-down of
    at least three seconds, and the call goes on. *)
Lemma quota_answer_step (st : automation) (retry_count : nat)
    (answer : attempt) :
  is_quota_exceeded U answer = true ->
  model_names st <> [] ->
  exists st' retry_count',
    (forall answers,
        transcribe_audio U st retry_count (answer :: answers)
        = transcribe_audio U st' retry_count' answers)
    /\ model_names st' = model_names st
    /\ switches st' = S (switches st)
    /\ total_retry_count st' = S (total_retry_count st)
    /\ (clock st + 3 <= clock st')%N.
Proof.
  intros Hq Hne.
  destruct (Nat.lt_ge_cases retry_count (length (model_names st))) as [Hlt|Hge].
  - destruct (switch_to_next_model_ok (emit (EvAttempt (gemini_model st)) st) Hne)
      as (st1 & Hsw & Hnames & _ & _ & Hcnt & _ & _ & _ & Hclk & _ & Htot).
    exists (sleep 3 st1), (retry_count + 1).
    split; [|split; [exact Hnames|split; [|split; [exact Htot|]]]].
    + intros answers.
      destruct (quota_step U st retry_count answer answers Hq Hne Hlt)
        as (st1' & Hsw' & Hstep).
      rewrite Hsw in Hsw'. injection Hsw' as <-. exact Hstep.
    + rewrite switches_sleep, Hcnt, switches_emit. lia.
    + cbn. rewrite Hclk. cbn. lia.
  - destruct (exhausted_step_state U st retry_count answer Hq Hne Hge)
      as (st1 & Hrun & _ & Hnames & _ & Hcnt & Hclk & _ & Htot).
    exists st1, 0. split; [exact Hrun|]. split; [exact Hnames|].
    split; [exact Hcnt|]. split; [exact Htot|lia].
Qed.

Lemma quota_answers_run (quotas : list attempt) :
  forall (st : automation) (retry_count : nat),
    Forall (fun a => is_quota_exceeded U a = true) quotas ->
    model_names st <> [] ->
    exists st' retry_count',
      (forall answers,
          transcribe_audio U st retry_count (quotas ++ answers)
          = transcribe_audio U st' retry_count' answers)
      /\ model_names st' = model_names st
      /\ switches st' = switches st + length quotas
      /\ total_retry_count st' = total_retry_count st + length quotas
      /\ (clock st + 3 * N.of_nat (length quotas) <= clock st')%N.
Proof.
  induction quotas as [|q quotas IH]; intros st retry_count Hq Hne.
  - exists st, retry_count. cbn. repeat split; lia.
  - inversion Hq as [|? ? Hq1 Hq2]; subst.
    destruct (quota_answer_step st retry_count q Hq1 Hne)
      as (st1 & rc1 & Hstep & Hnames & Hsw & Htot & Hclk).
    destruct (IH st1 rc1 Hq2) as (st2 & rc2 & Hrun & Hnames2 & Hsw2 & Htot2 & Hclk2);
      [rewrite Hnames; exact Hne|].
    exists st2, rc2. split; [|split; [congruence|split; [|split]]].
    + intros answers. cbn [app]. rewrite Hstep. apply Hrun.
    + rewrite Hsw2, Hsw. cbn [length]. lia.
    + rewrite Htot2, Htot. cbn [length]. lia.
    + cbn [length]. lia.
Qed.




End ControllerMore.



(** ** Invariants of the rotation state over a run *)

Section History.

Variable U : unicode_db.

Lemma quiet_step_refl (st : automation) : quiet_step st st.
Proof.
  split; [repeat split|]. split; [reflexivity|].
  exists []. rewrite app_nil_r. split; reflexivity.
Qed.

Lemma quiet_step_trans (st1 st2 st3 : automation) :
  quiet_step st1 st2 -> quiet_step st2 st3 -> quiet_step st1 st3.
Proof.
  intros (Hr & Hc & ev & Ht & Hev) (Hr' & Hc' & ev' & Ht' & Hev').
  split; [eapply same_rotation_trans; eassumption|]. split; [congruence|].
  exists (ev ++ ev'). split; [rewrite Ht', Ht, app_assoc; reflexivity|].
  rewrite forallb_app, Hev, Hev'. reflexivity.
Qed.

Lemma quiet_step_emit (e : event) (st : automation) :
  model_free e = true -> quiet_step st (emit e st).
Proof.
  intros He. split; [repeat split|]. split; [reflexivity|].
  exists [e]. split; [reflexivity|]. cbn. rewrite He. reflexivity.
Qed.

Lemma quiet_step_sleep (seconds : N) (st : automation) :
  quiet_step st (sleep seconds st).
Proof.
  split; [repeat split|]. split; [reflexivity|].
  exists [EvSleep seconds]. split; reflexivity.
Qed.

Lemma quiet_step_same_trace (st st' : automation) :
  same_rotation st st' ->
  model_retry_count st' = model_retry_count st ->
  trace st' = trace st ->
  quiet_step st st'.
Proof.
  intros Hr Hc Ht. split; [exact Hr|]. split; [exact Hc|].
  exists []. rewrite app_nil_r. split; [exact Ht|reflexivity].
Qed.

Lemma quiet_step_unlink (carried_out : bool) (path : str) (st : automation) :
  quiet_step st (unlink carried_out path st).
Proof.
  unfold unlink. destruct carried_out.
  - eapply quiet_step_trans; [apply (quiet_step_emit (EvUnlink path)); reflexivity|].
    apply quiet_step_same_trace; repeat split.
  - apply quiet_step_emit. reflexivity.
Qed.

Lemma quiet_step_leave_partial (partial_file : option str) (st : automation) :
  quiet_step st (leave_partial partial_file st).
Proof.
  destruct partial_file as [path|]; [|apply quiet_step_refl].
  cbn [leave_partial].
  eapply quiet_step_trans; [|apply quiet_step_emit; reflexivity].
  apply quiet_step_same_trace; repeat split.
Qed.

Lemma model_free_ok (names : list str) (events : list event) :
  forallb model_free events = true -> Forall (event_model_ok names) events.
Proof.
  rewrite forallb_forall. intros H. apply Forall_forall. intros e He.
  apply list_elem_of_In in He. specialize (H e He). destruct e; try exact I;
    discriminate.
Qed.

(** A step outside the controller keeps the controller consistent. *)
Lemma quiet_step_ok (st st' : automation) :
  quiet_step st st' ->
  (controller_ok st -> controller_ok st') /\ counts_grow st st'.
Proof.
  intros (Hr & Hc & ev & Ht & Hev). pose proof Hr as (Hn & _). split.
  - intros (Hrot & Htr & Hcnt). split; [eapply same_rotation_ok; eassumption|].
    split.
    + rewrite Ht, Hn. apply Forall_app. split; [exact Htr|].
      apply model_free_ok, Hev.
    + unfold counts_ok. rewrite Hc, Hn. exact Hcnt.
  - split; [exact Hn|]. intros name. unfold count_of. rewrite Hc. lia.
Qed.

Lemma counts_grow_refl (st : automation) : counts_grow st st.
Proof. split; [reflexivity|]. intros name. lia. Qed.

Lemma counts_grow_trans (st1 st2 st3 : automation) :
  counts_grow st1 st2 -> counts_grow st2 st3 -> counts_grow st1 st3.
Proof.
  intros [Hn H] [Hn' H']. split; [congruence|]. intros name.
  specialize (H name). specialize (H' name). lia.
Qed.

(** What [switch_to_next_model] does to the state, field by field. *)
Lemma switch_to_next_model_inv (st st' : automation) :
  switch_to_next_model st = Ok st' ->
  exists name,
    In name (model_names st)
    /\ model_names st' = model_names st
    /\ rotation_ok st'
    /\ gemini_model st' = name
    /\ trace st' = trace st ++ [EvSwitch name]
    /\ model_retry_count st'
       = <[name := S (count_of st name)]> (model_retry_count st).
Proof.
  unfold switch_to_next_model.
  destruct (length (model_names st)) as [|n]; [discriminate|].
  destruct (model_names st !! _) as [name|] eqn:Hlook; [|discriminate].
  intros [= <-]. exists name. cbn.
  split; [apply list_elem_of_In; eapply list_elem_of_lookup_2; exact Hlook|].
  repeat split. exact Hlook.
Qed.

(** A switch keeps the history consistent, whatever the index was. *)
Lemma switch_history (st st' : automation) :
  switch_to_next_model st = Ok st' ->
  Forall (event_model_ok (model_names st)) (trace st) ->
  counts_ok st ->
  controller_ok st' /\ counts_grow st st'.
Proof.
  intros Hsw Htr Hcnt.
  destruct (switch_to_next_model_inv st st' Hsw)
    as (name & Hin & Hn & Hrot & _ & Ht & Hc).
  split; [split; [exact Hrot|split]|split; [exact Hn|]].
  - rewrite Ht, Hn. apply Forall_app. split; [exact Htr|].
    constructor; [exact Hin|constructor].
  - unfold counts_ok. rewrite Hc, Hn. intros name' count Hlook.
    destruct (decide (name = name')) as [<-|Hne].
    + rewrite lookup_insert_eq in Hlook. injection Hlook as <-.
      split; [lia|exact Hin].
    + rewrite lookup_insert_ne in Hlook by exact Hne. exact (Hcnt _ _ Hlook).
  - intros name'. unfold count_of at 2. rewrite Hc.
    destruct (decide (name = name')) as [<-|Hne].
    + rewrite lookup_insert_eq. cbn. lia.
    + rewrite lookup_insert_ne by exact Hne. unfold count_of. lia.
Qed.

Lemma controller_ok_names (st : automation) :
  controller_ok st -> model_names st <> [] /\ In (gemini_model st) (model_names st).
Proof.
  intros ([Hlook Hgem] & _). split.
  - intros Hnil. rewrite Hnil in Hlook. discriminate.
  - rewrite Hgem. apply list_elem_of_In. eapply list_elem_of_lookup_2. exact Hlook.
Qed.

(** The controller keeps its state consistent through a call. *)
Lemma controller_ok_transcribe_audio (answers : list attempt) :
  forall (st : automation) (retry_count : nat),
    controller_ok st ->
    controller_ok (fst (transcribe_audio U st retry_count answers))
    /\ counts_grow st (fst (transcribe_audio U st retry_count answers)).
Proof.
  induction answers as [|answer answers IH]; intros st retry_count Hok;
    [split; [exact Hok|apply counts_grow_refl]|].
  destruct (controller_ok_names st Hok) as [Hne Hgem].
  cbn [transcribe_audio].
  set (st0 := emit (EvAttempt (gemini_model st)) st).
  assert (H0 : controller_ok st0 /\ counts_grow st st0).
  { destruct Hok as (Hrot & Htr & Hcnt). split; [|exact (counts_grow_refl st)].
    split; [exact Hrot|]. split; [|exact Hcnt].
    cbn. apply Forall_app. split; [exact Htr|].
    constructor; [exact Hgem|constructor]. }
  destruct answer as [text| |e]; try exact H0.
  destruct (is_Exception e); [|exact H0].
  destruct (is_rate_limit _); [|exact H0].
  destruct H0 as [(Hrot0 & Htr0 & Hcnt0) Hg0].
  destruct (_ <? _).
  - destruct (switch_to_next_model st0) as [st1|e'] eqn:Hsw;
      [|split; [split; [exact Hrot0|split; assumption]|exact Hg0]].
    destruct (switch_history st0 st1 Hsw Htr0 Hcnt0) as [Hok1 Hg1].
    destruct (quiet_step_ok st1 (sleep 3 st1) (quiet_step_sleep 3 st1))
      as [Hq Hgq].
    destruct (IH (sleep 3 st1) (retry_count + 1) (Hq Hok1)) as [Hok2 Hg2].
    split; [exact Hok2|].
    eapply counts_grow_trans; [exact Hg0|].
    eapply counts_grow_trans; [exact Hg1|].
    eapply counts_grow_trans; [exact Hgq|exact Hg2].
  - set (st60 := set_index 0 (sleep 60 st0)).
    assert (Htr60 : Forall (event_model_ok (model_names st60)) (trace st60)).
    { cbn. apply Forall_app. split; [exact Htr0|]. repeat constructor. }
    assert (Hcnt60 : counts_ok st60) by exact Hcnt0.
    destruct (switch_to_next_model st60) as [st1|e'] eqn:Hsw.
    + destruct (switch_history st60 st1 Hsw Htr60 Hcnt60) as [Hok1 Hg1].
      destruct (IH st1 0 Hok1) as [Hok2 Hg2]. split; [exact Hok2|].
      eapply counts_grow_trans; [exact Hg0|].
      eapply counts_grow_trans; [|exact Hg2].
      eapply counts_grow_trans; [|exact Hg1]. exact (counts_grow_refl st0).
    + exfalso. destruct (switch_to_next_model_ok st60 Hne) as (st1 & Hsw' & _).
      rewrite Hsw in Hsw'. discriminate.
Qed.

Lemma quiet_step_wait_loop (fuel : nat) :
  forall (st : automation) (start_time : N) (current_id : str)
         (polls : nat -> poll) (k : nat),
    quiet_step st (fst (wait_loop fuel st start_time current_id polls k)).
Proof.
  induction fuel as [|fuel IH]; intros st start_time current_id polls k;
    [apply quiet_step_refl|].
  cbn [wait_loop]. destruct (_ <? _)%N; [|apply quiet_step_refl].
  destruct (poll_interrupt (polls k)); [apply quiet_step_refl|].
  destruct (textarea_cleared (polls k)).
  - eapply quiet_step_trans; apply quiet_step_sleep.
  - destruct (poll_url (polls k)) as [url|e]; [|apply quiet_step_sleep].
    destruct (str_eqb url current_id); [|apply quiet_step_sleep].
    eapply quiet_step_trans; [apply (quiet_step_sleep review_interval)|].
    apply IH.
Qed.

Lemma quiet_step_wait_for_submit (st : automation) (env : unit_env) :
  quiet_step st (fst (wait_for_submit st env)).
Proof.
  unfold wait_for_submit. destruct (env_current_url env) as [current_id|e].
  - pose proof (quiet_step_wait_loop wait_fuel st (clock st) current_id
                  (env_polls env) 0) as H.
    destruct (wait_loop _ _ _ _ _ _) as [st' r]. cbn in H.
    destruct r as [b|e|]; try exact H. destruct (is_Exception e); exact H.
  - destruct (is_Exception e); apply quiet_step_refl.
Qed.

Lemma controller_ok_process_body (st : automation) (env : unit_env) :
  controller_ok st ->
  controller_ok (fst (process_body U st env))
  /\ counts_grow st (fst (process_body U st env)).
Proof.
  intros Hok. unfold process_body.
  destruct (controller_ok_transcribe_audio (env_attempts env) st 0 Hok)
    as [Ht Hg].
  destruct (transcribe_audio U st 0 (env_attempts env)) as [st1 r].
  cbn [fst] in Ht, Hg. destruct r as [[[|c text]|]|e|]; try (split; assumption).
  unfold insert_transcription. destruct (env_insert env) as [[]|e].
  - set (st2 := emit _ st1).
    assert (Hq : quiet_step st1 (fst (wait_for_submit st2 env))).
    { eapply quiet_step_trans; [|apply quiet_step_wait_for_submit].
      apply quiet_step_emit. reflexivity. }
    destruct (quiet_step_ok _ _ Hq) as [Hq1 Hq2].
    split; [exact (Hq1 Ht)|eapply counts_grow_trans; eassumption].
  - cbn [except_Exception]. destruct (is_Exception e); split; assumption.
Qed.

Lemma controller_ok_process_audio (st : automation) (env : unit_env) :
  controller_ok st ->
  controller_ok (fst (process_audio U st env))
  /\ counts_grow st (fst (process_audio U st env)).
Proof.
  intros Hok. unfold process_audio.
  set (st0 := emit (EvHeader (audio_count (count_audio st))) (count_audio st)).
  assert (Hq0 : quiet_step st st0).
  { eapply quiet_step_trans; [|apply quiet_step_emit; reflexivity].
    apply quiet_step_same_trace; repeat split. }
  destruct (quiet_step_ok _ _ Hq0) as [Hok0 Hg0]. specialize (Hok0 Hok).
  destruct (falsy (env_audio_url env)); [split; assumption|].
  unfold download_audio. destruct (env_download env) as [path|e].
  - set (st1 := emit (EvCreate path) (set_files ({[path]} ∪ files st0) st0)).
    assert (Hq1 : quiet_step st0 st1).
    { eapply quiet_step_trans; [|apply quiet_step_emit; reflexivity].
      apply quiet_step_same_trace; repeat split. }
    destruct (quiet_step_ok _ _ Hq1) as [Hok1 Hg1]. specialize (Hok1 Hok0).
    assert (Hg01 : counts_grow st st1) by (eapply counts_grow_trans; eassumption).
    destruct path as [|c path']; [split; assumption|].
    destruct (controller_ok_process_body st1 env Hok1) as [Hb Hgb].
    destruct (process_body U st1 env) as [st2 r]. cbn [fst] in Hb, Hgb.
    assert (Hg2 : counts_grow st st2) by exact (counts_grow_trans _ _ _ Hg01 Hgb).
    destruct (quiet_step_ok _ _ (quiet_step_unlink (env_unlink env) (c :: path') st2))
      as [Hu Hgu].
    destruct r as [b|e|]; cbn [try_finally fst]; try (split; assumption);
      (split; [exact (Hu Hb)|exact (counts_grow_trans _ _ _ Hg2 Hgu)]).
  - destruct (quiet_step_ok _ _
                (quiet_step_leave_partial (env_partial_file env) st0))
      as [Hp Hgp].
    cbn [except_Exception]. destruct (is_Exception e); cbn [fst];
      (split; [exact (Hp Hok0)|exact (counts_grow_trans _ _ _ Hg0 Hgp)]).
Qed.

Lemma controller_ok_run_loop (script : list iteration) :
  forall st : automation,
    controller_ok st ->
    controller_ok (fst (run_loop U st script))
    /\ counts_grow st (fst (run_loop U st script)).
Proof.
  induction script as [|it script IH]; intros st Hok;
    [split; [exact Hok|apply counts_grow_refl]|].
  cbn [run_loop].
  destruct (controller_ok_process_audio st (it_env it) Hok) as [Hp Hg].
  destruct (process_audio U st (it_env it)) as [st1 r]. cbn [fst] in Hp, Hg.
  assert (Hquiet : forall st2, quiet_step st1 st2 ->
             controller_ok (fst (run_loop U st2 script))
             /\ counts_grow st (fst (run_loop U st2 script))).
  { intros st2 Hq. destruct (quiet_step_ok _ _ Hq) as [Hq1 Hq2].
    destruct (IH st2 (Hq1 Hp)) as [H1 H2]. split; [exact H1|].
    eapply counts_grow_trans; [exact Hg|].
    eapply counts_grow_trans; eassumption. }
  assert (Hhandler : forall e st2, quiet_step st1 st2 ->
             controller_ok
               (fst (loop_handler e (fun st => run_loop U st script) st2))
             /\ counts_grow st
                  (fst (loop_handler e (fun st => run_loop U st script) st2))).
  { intros e st2 Hq. destruct (quiet_step_ok _ _ Hq) as [Hq1 Hq2].
    unfold loop_handler. destruct (exn_class_of e); cbn [fst];
      try (split; [exact (Hq1 Hp)|eapply counts_grow_trans; eassumption]).
    apply Hquiet. eapply quiet_step_trans; [exact Hq|apply quiet_step_sleep]. }
  destruct r as [[|]|e|].
  - apply Hquiet, quiet_step_sleep.
  - assert (Hq : quiet_step st1 (emit EvPrompt st1))
      by (apply quiet_step_emit; reflexivity).
    destruct (it_answer it) as [answer|e]; [|apply Hhandler, Hq].
    destruct (str_eqb _ _); [apply Hquiet, Hq|].
    destruct (quiet_step_ok _ _ Hq) as [Hq1 Hq2]. cbn [fst].
    split; [exact (Hq1 Hp)|eapply counts_grow_trans; eassumption].
  - apply Hhandler, quiet_step_refl.
  - split; assumption.
Qed.

Lemma controller_ok_init : controller_ok init.
Proof.
  split; [split; reflexivity|]. split; [constructor|].
  intros name count Hlook. cbn in Hlook. rewrite lookup_empty in Hlook.
  discriminate.
Qed.

End History.

(** X9. Throughout a run of [gemini_multi_transcribe.py] the rotation state
    stays consistent: the index is in range and points at the model in
    use, every attempt and every switch is on a model of the configured
    list, and every entry of the usage statistics is a positive count of a
    configured model (so the final report's test [count > 0] hides no
    entry). *)
Theorem run_keeps_controller_consistent (U : unicode_db) (st : automation)
    (logged_in : bool) (script : list iteration) :
  controller_ok st ->
  let st' := fst (run U st logged_in script) in
  current_model_index st' < length (model_names st')
  /\ model_names st' !! current_model_index st' = Some (gemini_model st')
  /\ Forall (event_model_ok (model_names st)) (trace st')
  /\ (forall name count,
         model_retry_count st' !! name = Some count ->
         0 < count /\ In name (model_names st)).
Proof.
  intros Hok st'.
  assert (H : controller_ok st' /\ counts_grow st st').
  { subst st'. unfold run. destruct logged_in;
      [apply controller_ok_run_loop, Hok|split; [exact Hok|apply counts_grow_refl]]. }
  destruct H as [([Hlook Hgem] & Htr & Hcnt) [Hn _]].
  split; [eapply lookup_lt_Some; exact Hlook|].
  split; [rewrite Hgem; exact Hlook|]. rewrite <- Hn.
  split; [exact Htr|]. intros name count Hl. destruct (Hcnt _ _ Hl). split; [lia|assumption].
Qed.

Lemma run_keeps_controller_consistent_witness :
  controller_ok init
  /\ current_model_index
       (fst (run ascii_db init true timeout_then_decline)) < 5.
Proof.
  split; [exact controller_ok_init|].
  exact (proj1 (run_keeps_controller_consistent ascii_db init true
                  timeout_then_decline controller_ok_init)).
Defined.

(** X10. Rotation never removes a model and no switch count ever decreases:
    after any run the model list is the one the run started with and each
    model's count is at least what it was. *)
Theorem run_counts_never_decrease (U : unicode_db) (st : automation)
    (logged_in : bool) (script : list iteration) :
  controller_ok st ->
  model_names (fst (run U st logged_in script)) = model_names st
  /\ forall name,
      count_of st name <= count_of (fst (run U st logged_in script)) name.
Proof.
  intros Hok. unfold run. destruct logged_in.
  - exact (proj2 (controller_ok_run_loop U script st Hok)).
  - apply counts_grow_refl.
Qed.

Lemma run_counts_never_decrease_witness :
  controller_ok init
  /\ model_names (fst (run ascii_db init true timeout_then_decline))
     = configured_models.
Proof.
  split; [exact controller_ok_init|].
  exact (proj1 (run_counts_never_decrease ascii_db init true
                  timeout_then_decline controller_ok_init)).
Defined.

(** ** The review wait and the unit *)

Section WaitMore.


(** A wait that returns [True] saw the submission at some look, after
    looks that showed nothing, and returned right after it. *)
Lemma wait_loop_true (fuel : nat) :
  forall (st st' : automation) (start_time : N) (current_id : str)
         (polls : nat -> poll) (k m : nat),
    clock st = (start_time + 2 * N.of_nat m)%N ->
    wait_loop fuel st start_time current_id polls k = (st', Return true) ->
    exists j,
      k <= j /\ m + (j - k) < 300
      /\ submitted_at current_id (polls j)
      /\ (forall i, k <= i < j -> quiet current_id (polls i))
      /\ clock st'
         = (clock st + 2 * N.of_nat (j - k + 1)
            + if textarea_cleared (polls j) then 2 else 0)%N.
Proof.
  induction fuel as [|fuel IH];
    intros st st' start_time current_id polls k m Hclk Hrun; [discriminate|].
  cbn [wait_loop] in Hrun. unfold review_timeout in Hrun.
  destruct (N.ltb_spec (clock st - start_time) 600) as [Hlt|]; [|discriminate].
  destruct (poll_interrupt (polls k)) eqn:Hint; [discriminate|].
  destruct (textarea_cleared (polls k)) eqn:Hclr.
  - injection Hrun as <-. exists k. rewrite Hclr.
    split; [lia|]. split; [lia|]. split; [split; [exact Hint|left; exact Hclr]|].
    split; [intros i Hi; lia|].
    change (clock (sleep 2 (sleep review_interval st))) with (clock st + 2 + 2)%N.
    replace (k - k + 1) with 1 by lia. lia.
  - destruct (poll_url (polls k)) as [url|e] eqn:Hurl; [|discriminate].
    unfold str_eqb in Hrun. destruct (bool_decide (url = current_id)) eqn:Heq.
    + apply bool_decide_eq_true in Heq. subst url.
      assert (Hclk' : clock (sleep review_interval st)
                      = (start_time + 2 * N.of_nat (S m))%N).
      { change (clock (sleep review_interval st)) with (clock st + 2)%N. lia. }
      destruct (IH _ _ _ _ _ (S k) (S m) Hclk' Hrun)
        as (j & Hj & Hbound & Hsub & Hquiet & Hclock).
      exists j. split; [lia|]. split; [lia|]. split; [exact Hsub|]. split.
      * intros i Hi. destruct (decide (i = k)) as [->|Hne];
          [repeat split; assumption|apply Hquiet; lia].
      * rewrite Hclock.
        change (clock (sleep review_interval st)) with (clock st + 2)%N.
        replace (j - k + 1) with (S (j - S k + 1)) by lia. lia.
    + apply bool_decide_eq_false in Heq. injection Hrun as <-.
      exists k. rewrite Hclr. split; [lia|]. split; [lia|].
      split; [split; [exact Hint|right; eauto]|].
      split; [intros i Hi; lia|].
      change (clock (sleep review_interval st)) with (clock st + 2)%N.
      replace (k - k + 1) with 1 by lia. lia.
Qed.

Lemma wait_for_submit_true (st st' : automation) (env : unit_env) :
  wait_for_submit st env = (st', Return true) ->
  exists current_id k,
    env_current_url env = Ok current_id
    /\ k < 300
    /\ submitted_at current_id (env_polls env k)
    /\ (forall i, i < k -> quiet current_id (env_polls env i))
    /\ clock st'
       = (clock st + 2 * N.of_nat (k + 1)
          + if textarea_cleared (env_polls env k) then 2 else 0)%N.
Proof.
  unfold wait_for_submit. destruct (env_current_url env) as [current_id|e].
  - pose proof (wait_loop_true wait_fuel st) as Htrue.
    destruct (wait_loop wait_fuel st (clock st) current_id (env_polls env) 0)
      as [st1 r] eqn:Hrun.
    destruct r as [b|e|]; [|destruct (is_Exception e); discriminate|discriminate].
    intros [= -> ->].
    destruct (Htrue st' (clock st) current_id (env_polls env) 0 0
                ltac:(cbn; lia) Hrun) as (j & _ & Hb & Hsub & Hq & Hc).
    exists current_id, j. split; [reflexivity|]. split; [lia|].
    split; [exact Hsub|]. split; [intros i Hi; apply Hq; lia|].
    rewrite Hc. replace (j - 0 + 1) with (j + 1) by lia. reflexivity.
  - destruct (is_Exception e); discriminate.
Qed.

End WaitMore.


Section UnitMore.

Variable U : unicode_db.

(** A text the controller returns is the clean-up of a provider response. *)
Lemma transcribe_audio_text (answers : list attempt) :
  forall (st st' : automation) (retry_count : nat) (text : str),
    transcribe_audio U st retry_count answers = (st', Return (Some text)) ->
    exists raw, In (Responded raw) answers /\ text = normalize_multi raw.
Proof.
  induction answers as [|answer answers IH]; intros st st' retry_count text;
    [discriminate|].
  cbn [transcribe_audio]. destruct answer as [raw| |e].
  - intros [= _ <-]. exists raw. split; [left; reflexivity|reflexivity].
  - discriminate.
  - destruct (is_Exception e); [|discriminate].
    destruct (is_rate_limit _); [|discriminate].
    destruct (_ <? _); (destruct (switch_to_next_model _); [|discriminate]);
      intros Hrun; destruct (IH _ _ _ _ Hrun) as (raw & Hin & Heq);
      exists raw; (split; [right; exact Hin|exact Heq]).
Qed.

Lemma join_nonempty (l : list str) :
  l <> [] -> Forall (fun w => w <> []) l -> join (u " ") l <> [].
Proof.
  intros Hne Hl. destruct Hl as [|w ws Hw _]; [congruence|].
  destruct w as [|c w]; [congruence|]. destruct ws; discriminate.
Qed.

(** Without the strict flag, a text with a token gives a text with a
    token. *)
Lemma detect_nonempty (L : word_lists) (text : str) :
  split text <> [] -> detect_code_switching U L false text <> [].
Proof.
  intros Hne. unfold detect_code_switching. rewrite annotate_loop. cbn [app].
  apply join_nonempty.
  - destruct (split text) as [|w ws]; [congruence|]. cbn [flat_map].
    unfold emitted. destruct (is_foreign U L w); discriminate.
  - apply Forall_forall. intros e He. apply list_elem_of_In in He.
    apply in_flat_map in He as (w & Hw & He).
    pose proof (split_tokens text) as Htok. rewrite Forall_forall in Htok.
    apply list_elem_of_In in Hw. destruct (Htok w Hw) as [Hw_ne _].
    unfold emitted in He. destruct (is_foreign U L w);
      destruct He as [<-|[]]; [discriminate|exact Hw_ne].
Qed.

Lemma nonempty_split (text : str) :
  whitespace_normal text -> text <> [] -> split text <> [].
Proof.
  intros (_ & Hjoin & _) Hne Hsplit. rewrite Hsplit in Hjoin. cbn in Hjoin.
  congruence.
Qed.

Lemma quiet_step_trace_In (st st' : automation) (e : event) :
  quiet_step st st' -> In e (trace st) -> In e (trace st').
Proof.
  intros (_ & _ & events & Ht & _) Hin. rewrite Ht. apply in_or_app. left.
  exact Hin.
Qed.

(** What a unit that returns [True] went through. *)
Lemma process_audio_true (st : automation) (env : unit_env) :
  snd (process_audio U st env) = Return true ->
  exists raw text st_w st_r,
    In (Responded raw) (env_attempts env)
    /\ text = detect_code_switching U lists_gemini false (normalize_multi raw)
    /\ normalize_multi raw <> []
    /\ In (EvType text) (trace (fst (process_audio U st env)))
    /\ wait_for_submit st_w env = (st_r, Return true).
Proof.
  unfold process_audio.
  destruct (falsy (env_audio_url env)); [discriminate|].
  unfold download_audio. destruct (env_download env) as [[|c path]|e];
    [discriminate| |cbn [except_Exception]; destruct (is_Exception e); discriminate].
  set (st1 := emit (EvCreate (c :: path)) _).
  unfold process_body.
  destruct (transcribe_audio U st1 0 (env_attempts env)) as [st2 r] eqn:Htr.
  destruct r as [[[|c' text']|]|e|]; try discriminate.
  destruct (transcribe_audio_text _ _ _ _ _ Htr) as (raw & Hin & Heq).
  unfold insert_transcription.
  destruct (env_insert env) as [[]|e];
    [|cbn [except_Exception]; destruct (is_Exception e); discriminate].
  set (text := detect_code_switching U lists_gemini false (c' :: text')).
  destruct (wait_for_submit (emit (EvType text) st2) env) as [st3 r] eqn:Hwait.
  destruct r as [b|e|]; cbn [try_finally fst snd]; [|discriminate|discriminate].
  intros [= ->].
  exists raw, text, (emit (EvType text) st2), st3.
  split; [exact Hin|]. split; [subst text; rewrite Heq; reflexivity|].
  split; [rewrite <- Heq; discriminate|]. split; [|exact Hwait].
  eapply quiet_step_trace_In; [apply quiet_step_unlink|].
  pose proof (quiet_step_wait_for_submit (emit (EvType text) st2) env) as Hq.
  rewrite Hwait in Hq. cbn [fst] in Hq.
  eapply quiet_step_trace_In; [exact Hq|]. cbn. apply in_or_app. right.
  left. reflexivity.
Qed.

(** Apart from its own temporary file, which it deletes, a unit leaves
    at most the file of a failed download. *)
Lemma process_audio_files (st : automation) (env : unit_env) :
  env_unlink env = true ->
  env_download env <> Ok [] ->
  snd (process_audio U st env) <> Pending ->
  files (fst (process_audio U st env)) ⊆ files st ∪ leftover env.
Proof.
  intros Hunlink Hpath. unfold process_audio, leftover.
  destruct (falsy (env_audio_url env)); [intros _; apply union_subseteq_l|].
  unfold download_audio. destruct (env_download env) as [[|c path]|e];
    [congruence| |].
  - set (st0 := emit (EvHeader _) _).
    set (st1 := emit (EvCreate (c :: path)) _).
    destruct (frame_process_body U st1 env) as (Hf & _).
    destruct (process_body U st1 env) as [st2 r]. cbn [fst] in Hf.
    destruct r as [b|e|]; cbn [try_finally fst snd]; try congruence; intros _;
      unfold unlink; rewrite Hunlink; cbn; rewrite Hf; cbn;
      intros x Hx; apply elem_of_difference in Hx as [Hx Hnot];
      (apply elem_of_union in Hx as [Hx|Hx]; [contradiction|]);
      apply elem_of_union; left; exact Hx.
  - intros _. cbn [except_Exception].
    destruct (env_partial_file env) as [path|]; cbn [leave_partial];
      destruct (is_Exception e); cbn;
      first [ apply union_subseteq_l
            | intros x Hx; apply elem_of_union in Hx as [Hx|Hx];
              apply elem_of_union; [right|left]; exact Hx ].
Qed.

Lemma run_loop_files (script : list iteration) :
  forall st : automation,
    unlinks_carried_out script ->
    snd (run_loop U st script) <> Running ->
    files (fst (run_loop U st script)) ⊆ files st ∪ leftovers script.
Proof.
  induction script as [|it script IH]; intros st Hall; [cbn; congruence|].
  inversion Hall as [|? ? [Hunlink Hpath] Hrest]; subst.
  cbn [run_loop leftovers].
  pose proof (process_audio_files st (it_env it) Hunlink Hpath) as Hp.
  destruct (process_audio U st (it_env it)) as [st1 r]. cbn [fst snd] in Hp.
  assert (Hnext : forall st2,
             files st2 ⊆ files st ∪ leftover (it_env it) ->
             snd (run_loop U st2 script) <> Running ->
             files (fst (run_loop U st2 script))
             ⊆ files st ∪ (leftover (it_env it) ∪ leftovers script)).
  { intros st2 H2 Hr. pose proof (IH st2 Hrest Hr) as Hrun.
    intros x Hx. apply Hrun in Hx. apply elem_of_union in Hx as [Hx|Hx].
    - apply H2 in Hx. apply elem_of_union in Hx as [Hx|Hx].
      + apply elem_of_union. left. exact Hx.
      + apply elem_of_union. right. apply elem_of_union. left. exact Hx.
    - apply elem_of_union. right. apply elem_of_union. right. exact Hx. }
  assert (Hstop : forall st2 : automation,
             files st2 ⊆ files st ∪ leftover (it_env it) ->
             files st2 ⊆ files st ∪ (leftover (it_env it) ∪ leftovers script)).
  { intros st2 H2 x Hx. apply H2 in Hx. apply elem_of_union in Hx as [Hx|Hx].
    - apply elem_of_union. left. exact Hx.
    - apply elem_of_union. right. apply elem_of_union. left. exact Hx. }
  assert (Hhandler : forall e st2,
             files st2 ⊆ files st ∪ leftover (it_env it) ->
             snd (loop_handler e (fun st => run_loop U st script) st2) <> Running ->
             files (fst (loop_handler e (fun st => run_loop U st script) st2))
             ⊆ files st ∪ (leftover (it_env it) ∪ leftovers script)).
  { intros e st2 H2. unfold loop_handler. destruct (exn_class_of e);
      cbn [fst snd]; intros Hr; try (apply Hstop; exact H2).
    apply Hnext; [exact H2|exact Hr]. }
  destruct r as [[|]|e|].
  - intros Hr. apply Hnext; [|exact Hr]. apply Hp. discriminate.
  - destruct (it_answer it) as [answer|e].
    + destruct (str_eqb _ _); cbn [fst snd]; intros Hr.
      * apply Hnext; [|exact Hr]. apply Hp. discriminate.
      * apply Hstop. apply Hp. discriminate.
    + apply Hhandler. apply Hp. discriminate.
  - apply Hhandler. apply Hp. discriminate.
  - cbn [snd]. congruence.
Qed.

(** A download that fails after it has created its file: the unit ends
    without a single [os.unlink], the file stays. *)
Lemma process_audio_leak (st : automation) (env : unit_env) (e : exn)
    (path : str) :
  falsy (env_audio_url env) = false ->
  env_download env = Err e ->
  env_partial_file env = Some path ->
  process_audio U st env
  = (emit (EvCreate path)
       (set_files ({[ path ]}
                   ∪ files (emit (EvHeader (S (audio_count st)))
                              (count_audio st)))
          (emit (EvHeader (S (audio_count st))) (count_audio st))),
     if is_Exception e then Return false else Raise e).
Proof.
  intros Hurl Hdl Hpart. unfold process_audio, download_audio.
  rewrite Hurl, Hdl, Hpart. cbn [except_Exception leave_partial].
  destruct (is_Exception e); reflexivity.
Qed.

End UnitMore.

(** X12. A unit of [gemini_multi_transcribe.py] returns [True] only after
    all of this: the provider answered with a response whose clean-up is
    not empty, the annotated clean-up of that response (itself not empty)
    was typed into the textarea, and a look within the time limit showed
    the submission. *)
Theorem unit_success_requirements (U : unicode_db) (st : automation)
    (env : unit_env) :
  snd (process_audio U st env) = Return true ->
  exists raw current_id k,
    In (Responded raw) (env_attempts env)
    /\ normalize_multi raw <> []
    /\ detect_code_switching U lists_gemini false (normalize_multi raw) <> []
    /\ In (EvType (detect_code_switching U lists_gemini false
                     (normalize_multi raw)))
          (trace (fst (process_audio U st env)))
    /\ env_current_url env = Ok current_id
    /\ k < 300
    /\ submitted_at current_id (env_polls env k).
Proof.
  intros Htrue.
  destruct (process_audio_true U st env Htrue)
    as (raw & text & st_w & st_r & Hin & -> & Hne & Htyped & Hwait).
  destruct (wait_for_submit_true st_w st_r env Hwait)
    as (current_id & k & Hurl & Hk & Hsub & _).
  exists raw, current_id, k. split; [exact Hin|]. split; [exact Hne|].
  split; [|split; [exact Htyped|split; [exact Hurl|split; assumption]]].
  apply detect_nonempty, nonempty_split; [|exact Hne].
  apply normalize_output_normal_multi.
Qed.

Lemma unit_success_requirements_witness :
  snd (process_audio ascii_db init good_unit) = Return true
  /\ exists raw current_id k,
      In (Responded raw) (env_attempts good_unit)
      /\ normalize_multi raw <> []
      /\ detect_code_switching ascii_db lists_gemini false (normalize_multi raw)
         <> []
      /\ In (EvType (detect_code_switching ascii_db lists_gemini false
                       (normalize_multi raw)))
            (trace (fst (process_audio ascii_db init good_unit)))
      /\ env_current_url good_unit = Ok current_id
      /\ k < 300
      /\ submitted_at current_id (env_polls good_unit k).
Proof.
  assert (H : snd (process_audio ascii_db init good_unit) = Return true)
    by (vm_compute; reflexivity).
  split; [exact H|]. exact (unit_success_requirements ascii_db init good_unit H).
Defined.

(** X13. The only temporary files that outlive a run are those of failed
    downloads: when the main loop has been left, no download gave an empty
    path and every [os.unlink] was carried out, every file on disk was
    there before the run or was left by a download that failed after
    creating it. *)
Theorem run_leaves_only_failed_downloads (U : unicode_db) (st : automation)
    (logged_in : bool) (script : list iteration) :
  unlinks_carried_out script ->
  snd (run U st logged_in script) <> Running ->
  files (fst (run U st logged_in script)) ⊆ files st ∪ leftovers script.
Proof.
  intros Hall. unfold run.
  destruct logged_in; [apply run_loop_files, Hall|].
  intros _. apply union_subseteq_l.
Qed.

Lemma run_leaves_only_failed_downloads_witness :
  unlinks_carried_out broken_then_decline
  /\ snd (run ascii_db init true broken_then_decline) <> Running
  /\ files (fst (run ascii_db init true broken_then_decline))
     ⊆ files init ∪ leftovers broken_then_decline.
Proof.
  assert (H1 : unlinks_carried_out broken_then_decline)
    by (repeat constructor; discriminate).
  assert (H2 : snd (run ascii_db init true broken_then_decline) <> Running)
    by (vm_compute; discriminate).
  split; [exact H1|]. split; [exact H2|].
  exact (run_leaves_only_failed_downloads ascii_db init true
           broken_then_decline H1 H2).
Defined.

(** X19. A download that fails after it has created the temporary file
    leaks it: the unit ends at once ([False], or the exception passed on
    when it is no [Exception]) with the file on disk, and [os.unlink] is
    not called on it; the [finally] that deletes the file is not reached. *)
Theorem failed_download_leaks_file (U : unicode_db) (st : automation)
    (env : unit_env) (e : exn) (path : str) :
  falsy (env_audio_url env) = false ->
  env_download env = Err e ->
  env_partial_file env = Some path ->
  let r := process_audio U st env in
  snd r = (if is_Exception e then Return false else Raise e)
  /\ path ∈ files (fst r)
  /\ unlink_calls path (fst r) = unlink_calls path st
  /\ last (trace (fst r)) = Some (EvCreate path).
Proof.
  intros Hurl Hdl Hpart r. subst r.
  rewrite (process_audio_leak U st env e path Hurl Hdl Hpart).
  cbn [fst snd]. split; [reflexivity|]. split; [|split].
  - cbn. apply elem_of_union. left. apply elem_of_singleton. reflexivity.
  - unfold unlink_calls. cbn [trace emit set_files count_audio].
    rewrite !List.filter_app, !length_app. cbn. lia.
  - cbn. rewrite last_snoc. reflexivity.
Qed.

Lemma failed_download_leaks_file_witness :
  snd (process_audio ascii_db init broken_download_unit) = Return false
  /\ u "/tmp/tmpd4.mp3" ∈ files (fst (process_audio ascii_db init broken_download_unit))
  /\ unlink_calls (u "/tmp/tmpd4.mp3")
       (fst (process_audio ascii_db init broken_download_unit)) = 0.
Proof.
  destruct (failed_download_leaks_file ascii_db init broken_download_unit
              {| exn_class_of := ExceptionClass;
                 exn_str := u "Connection broken: IncompleteRead" |}
              (u "/tmp/tmpd4.mp3") eq_refl eq_refl eq_refl)
    as (Hr & Hin & Hun & _).
  split; [exact Hr|]. split; [exact Hin|exact Hun].
Defined.

(** ** The downloaded file and its type *)

Lemma rfind_from_absent (c : N) (s : str) :
  Forall (fun x => x <> c) s ->
  forall i best, rfind_from c s i best = best.
Proof.
  induction 1 as [|x s Hx _ IH]; intros i best; [reflexivity|].
  cbn [rfind_from]. apply N.eqb_neq in Hx. rewrite Hx. apply IH.
Qed.

Lemma rfind_from_app (c : N) (a t : str) :
  forall i best,
    rfind_from c (a ++ t) i best
    = rfind_from c t (i + Z.of_nat (length a)) (rfind_from c a i best).
Proof.
  induction a as [|x a IH]; intros i best; cbn [app rfind_from length].
  - rewrite Z.add_0_r. reflexivity.
  - rewrite IH. f_equal. lia.
Qed.

Lemma rfind_from_bounds (c : N) (a : str) :
  forall i best, (best < i)%Z ->
    (best <= rfind_from c a i best < i + Z.of_nat (length a))%Z.
Proof.
  induction a as [|x a IH]; intros i best Hlt; cbn [rfind_from length].
  - lia.
  - destruct (x =? c)%N.
    + pose proof (IH (i + 1)%Z i ltac:(lia)). lia.
    + pose proof (IH (i + 1)%Z best ltac:(lia)). lia.
Qed.

(** The last occurrence, when nothing after it is [c]. *)
Lemma rfind_last (c : N) (a t : str) :
  Forall (fun x => x <> c) t ->
  rfind c (a ++ c :: t) = Z.of_nat (length a).
Proof.
  intros Ht. unfold rfind. rewrite rfind_from_app. cbn [rfind_from].
  rewrite N.eqb_refl. rewrite (rfind_from_absent _ _ Ht). lia.
Qed.

Lemma rfind_before (c : N) (a t : str) :
  Forall (fun x => x <> c) t ->
  (-1 <= rfind c (a ++ t) < Z.of_nat (length a))%Z.
Proof.
  intros Ht. unfold rfind. rewrite rfind_from_app.
  rewrite (rfind_from_absent _ _ Ht).
  pose proof (rfind_from_bounds c a 0 (-1) ltac:(lia)). lia.
Qed.

Lemma slice_stem (dir stem ext : str) (i : Z) :
  (0 <= i <= Z.of_nat (length dir))%Z ->
  slice (dir ++ stem ++ ext) i (Z.of_nat (length (dir ++ stem)))
  = drop (Z.to_nat i) dir ++ stem.
Proof.
  intros Hi. unfold slice. rewrite drop_app_le by lia.
  rewrite Nat2Z.id, (assoc_L app). apply take_app_length'.
  rewrite !length_app, length_drop. lia.
Qed.

(** A file name whose last component ends in a stem and a dotted suffix
    splits at that dot. *)
Lemma splitext_suffix (dir stem e : str) :
  stem <> [] -> Forall name_char stem -> Forall name_char e ->
  splitext (dir ++ stem ++ 46%N :: e) = (dir ++ stem, 46%N :: e).
Proof.
  intros Hne Hstem He. unfold splitext.
  assert (Hdot : rfind 46 (dir ++ stem ++ 46%N :: e)
                 = Z.of_nat (length (dir ++ stem))).
  { rewrite (assoc_L app). apply rfind_last.
    eapply Forall_impl; [exact He|]. intros c [H _]. exact H. }
  assert (Hsep : (-1 <= rfind 47 (dir ++ stem ++ 46%N :: e)
                  < Z.of_nat (length dir))%Z).
  { apply rfind_before. apply Forall_app. split.
    - eapply Forall_impl; [exact Hstem|]. intros c [_ H]. exact H.
    - constructor; [discriminate|].
      eapply Forall_impl; [exact He|]. intros c [_ H]. exact H. }
  rewrite Hdot. set (sepIndex := rfind 47 _) in *.
  rewrite slice_stem by lia. rewrite Nat2Z.id.
  replace (Z.of_nat (length (dir ++ stem)) >? sepIndex)%Z with true
    by (symmetry; apply Z.gtb_lt; rewrite length_app; lia).
  rewrite existsb_app.
  replace (existsb (fun c => negb (c =? 46)%N) stem) with true.
  - rewrite orb_true_r. cbn [andb]. rewrite (assoc_L app).
    rewrite take_app_length, drop_app_length. reflexivity.
  - symmetry. destruct Hstem as [|c stem [Hc _] _]; [congruence|].
    cbn [existsb]. apply N.eqb_neq in Hc. rewrite Hc. reflexivity.
Qed.

Lemma extension_3_cases (content_type : str) :
  extension_3 content_type = u ".mp3" \/ extension_3 content_type = u ".wav"
  \/ extension_3 content_type = u ".ogg" \/ extension_3 content_type = u ".webm".
Proof.
  unfold extension_3. repeat destruct (contains _ _); tauto.
Qed.

(** X14. The suffix of the downloaded file. Whatever the content type,
    both variants of [download_audio] pick one of [.mp3], [.wav], [.ogg]
    and [.webm]; the Gemini variants pick [.mp3] exactly when the content
    type contains none of [wav], [ogg] and [webm] (in lower case); and
    [transcribe_3.py] picks the same suffix as they do unless the content
    type contains [mp3] together with one of those three. *)
Theorem download_suffix_choice (content_type : str) :
  In (extension content_type) extensions
  /\ In (extension_3 content_type) extensions
  /\ (extension content_type = u ".mp3" <->
      contains (u "wav") content_type = false
      /\ contains (u "ogg") content_type = false
      /\ contains (u "webm") content_type = false)
  /\ (extension_3 content_type = extension content_type <->
      contains (u "mp3") content_type = false
      \/ extension content_type = u ".mp3").
Proof.
  unfold extension, extension_3, extensions.
  destruct (contains (u "mp3") content_type),
           (contains (u "wav") content_type),
           (contains (u "ogg") content_type),
           (contains (u "webm") content_type);
    cbn [In];
    (split; [tauto|]); (split; [tauto|]);
    (split; (split; [intros H|intros H]));
    try reflexivity; try tauto; try discriminate H;
    try (destruct H as (H1 & H2 & H3); discriminate);
    try (destruct H as [H|H]; discriminate H);
    try (left; reflexivity); try (right; reflexivity).
Qed.

(** X15. From the download to the OpenRouter request of
    [transcribe_3.py]: for a temporary file whose name ends in a non-empty
    stem free of dots and slashes followed by the suffix [download_audio]
    chose, [os.path.splitext] gives back that suffix, the MIME type is
    found in the dictionary (the default is not used), it is [audio/]
    followed by the suffix without its dot, and it is never [audio/mp4]. *)
Theorem downloaded_file_mime_type (U : unicode_db)
    (dir stem content_type : str) :
  stem <> [] ->
  Forall name_char stem ->
  let audio_file := dir ++ stem ++ extension_3 content_type in
  splitext audio_file = (dir ++ stem, extension_3 content_type)
  /\ mime_types !! lower U (snd (splitext audio_file))
     = Some (mime_type U audio_file)
  /\ mime_type U audio_file = u "audio/" ++ drop 1 (extension_3 content_type)
  /\ mime_type U audio_file <> u "audio/mp4".
Proof.
  intros Hne Hstem audio_file. subst audio_file. unfold mime_type.
  destruct (extension_3_cases content_type) as [H|[H|[H|H]]]; rewrite H;
    [change (u ".mp3") with (46%N :: u "mp3")
    |change (u ".wav") with (46%N :: u "wav")
    |change (u ".ogg") with (46%N :: u "ogg")
    |change (u ".webm") with (46%N :: u "webm")];
    (rewrite (splitext_suffix dir stem) by
       (try assumption; repeat constructor; discriminate));
    (split; [reflexivity|]); cbn [snd];
    (split; [vm_compute; reflexivity|]);
    (split; [vm_compute; reflexivity|vm_compute; discriminate]).
Qed.

Lemma downloaded_file_mime_type_witness :
  splitext (u "/var/tmp.d/" ++ u "tmpab12cd_x"
            ++ extension_3 (u "audio/ogg; codecs=opus"))
  = (u "/var/tmp.d/" ++ u "tmpab12cd_x",
     extension_3 (u "audio/ogg; codecs=opus"))
  /\ mime_type ascii_db (u "/var/tmp.d/" ++ u "tmpab12cd_x"
                         ++ extension_3 (u "audio/ogg; codecs=opus"))
     = u "audio/ogg".
Proof.
  destruct (downloaded_file_mime_type ascii_db (u "/var/tmp.d/")
              (u "tmpab12cd_x") (u "audio/ogg; codecs=opus"))
    as (Hsplit & _ & Hmime & _).
  - vm_compute. discriminate.
  - vm_compute. repeat constructor; discriminate.
  - split; [exact Hsplit|exact Hmime].
Defined.

(** ** The controller of [gemini_transcribe.py] *)

Lemma count_calls_app (f : api_call -> bool) (a b : list api_call) :
  count_calls f (a ++ b) = count_calls f a + count_calls f b.
Proof. unfold count_calls. rewrite List.filter_app, length_app. reflexivity. Qed.

(** The upload loop: one to three uploads, a pause of five seconds
    between two of them, nothing else. *)
Lemma upload_loop_calls (env : single_env) (st : api_state) :
  exists calls,
    api_calls (fst (upload_loop (seq 0 3) env st)) = api_calls st ++ calls
    /\ 1 <= count_calls is_upload calls <= 3
    /\ count_calls is_upload_pause calls + 1 = count_calls is_upload calls
    /\ count_calls is_generate calls = 0
    /\ snd (upload_loop (seq 0 3) env st) <> Pending.
Proof.
  cbn [seq upload_loop Nat.eqb].
  destruct (se_upload env 0); [| |];
    try (exists [ApiUpload]; cbn; repeat split; (lia || discriminate)).
  destruct (se_upload env 1); [| |];
    try (exists [ApiUpload; ApiSleep 5; ApiUpload]; cbn;
         rewrite <- ?app_assoc; repeat split; (lia || discriminate)).
  exists [ApiUpload; ApiSleep 5; ApiUpload; ApiSleep 5; ApiUpload].
  destruct (se_upload env 2); cbn; rewrite <- ?app_assoc;
    repeat split; (lia || discriminate).
Qed.

(** The processing loop only pauses two seconds and asks for the file. *)
Lemma processing_loop_calls (env : single_env) (fuel : nat) :
  forall (st : api_state) (state_name : str) (k : nat),
  exists calls,
    api_calls (fst (processing_loop fuel env st state_name k))
    = api_calls st ++ calls
    /\ count_calls is_upload calls = 0
    /\ count_calls is_upload_pause calls = 0
    /\ count_calls is_generate calls = 0.
Proof.
  induction fuel as [|fuel IH]; intros st state_name k; cbn [processing_loop].
  - exists []. rewrite app_nil_r. repeat split.
  - destruct (str_eqb state_name (u "PROCESSING")).
    + destruct (se_get_file env k) as [state_name'|e].
      * destruct (IH (api_do ApiGetFile (api_sleep 2 st)) state_name' (S k))
          as (calls & Hc & H1 & H2 & H3).
        exists ([ApiSleep 2; ApiGetFile] ++ calls). rewrite Hc.
        cbn [api_do api_sleep api_calls]. rewrite <- !app_assoc.
        split; [reflexivity|]. rewrite !count_calls_app, H1, H2, H3.
        repeat split.
      * exists [ApiSleep 2; ApiGetFile].
        cbn [fst api_do api_sleep api_calls]. rewrite <- !app_assoc.
        repeat split.
    + exists []. cbn [fst]. rewrite app_nil_r. repeat split.
Qed.

Lemma transcribe_body_single_calls (fuel : nat) (env : single_env)
    (st : api_state) :
  exists calls,
    api_calls (fst (transcribe_body_single fuel env st)) = api_calls st ++ calls
    /\ 1 <= count_calls is_upload calls <= 3
    /\ count_calls is_upload_pause calls + 1 = count_calls is_upload calls
    /\ count_calls is_generate calls <= 1.
Proof.
  unfold transcribe_body_single.
  destruct (upload_loop_calls env st) as (c1 & Hc1 & Hu1 & Hp1 & Hg1 & _).
  destruct (upload_loop (seq 0 3) env st) as [st1 r1]. cbn [fst] in Hc1.
  destruct r1 as [state_name|e|];
    try (exists c1; cbn [fst]; repeat split; (assumption || lia)).
  destruct (processing_loop_calls env fuel st1 state_name 0)
    as (c2 & Hc2 & Hu2 & Hp2 & Hg2).
  destruct (processing_loop fuel env st1 state_name 0) as [st2 r2].
  cbn [fst] in Hc2.
  assert (Hbase : api_calls st2 = api_calls st ++ (c1 ++ c2))
    by (rewrite Hc2, Hc1, app_assoc; reflexivity).
  assert (Hstop : exists calls,
             api_calls st2 = api_calls st ++ calls
             /\ 1 <= count_calls is_upload calls <= 3
             /\ count_calls is_upload_pause calls + 1
                = count_calls is_upload calls
             /\ count_calls is_generate calls <= 1).
  { exists (c1 ++ c2). rewrite !count_calls_app.
    split; [exact Hbase|]. repeat split; lia. }
  destruct r2 as [state_name'|e|]; cbn [fst]; try exact Hstop.
  destruct (str_eqb state_name' (u "FAILED")); [exact Hstop|].
  destruct (se_generate env) as [[]|e].
  - exists (c1 ++ c2 ++ [ApiGenerate; ApiDelete]).
    destruct (se_text env); cbn [fst api_do api_calls]; rewrite Hbase;
      rewrite <- !app_assoc; cbn [app]; (split; [reflexivity|]);
      rewrite !count_calls_app; cbn; repeat split; lia.
  - exists (c1 ++ c2 ++ [ApiGenerate]).
    cbn [fst api_do api_calls]. rewrite Hbase, <- !app_assoc.
    split; [reflexivity|]. rewrite !count_calls_app. cbn. repeat split; lia.
Qed.

Lemma transcribe_audio_single_state (fuel : nat) (env : single_env)
    (st : api_state) :
  fst (transcribe_audio_single fuel env st)
  = fst (transcribe_body_single fuel env st).
Proof.
  unfold transcribe_audio_single.
  destruct (transcribe_body_single fuel env st) as [st' [t|e|]];
    try reflexivity.
  destruct (is_Exception e); reflexivity.
Qed.

(** A text this controller returns is the clean-up of the response. *)
Lemma transcribe_audio_single_text (fuel : nat) (env : single_env)
    (st : api_state) (text : str) :
  snd (transcribe_audio_single fuel env st) = Return (Some text) ->
  exists raw,
    se_generate env = Ok tt /\ se_text env = Ok raw
    /\ text = normalize_single raw.
Proof.
  unfold transcribe_audio_single, transcribe_body_single.
  destruct (upload_loop (seq 0 3) env st) as [st1 [state_name|e|]];
    [| destruct (is_Exception e); discriminate | discriminate].
  destruct (processing_loop fuel env st1 state_name 0)
    as [st2 [state_name'|e|]];
    [| destruct (is_Exception e); discriminate | discriminate].
  destruct (str_eqb state_name' (u "FAILED")); [discriminate|].
  destruct (se_generate env) as [[]|e];
    [| destruct (is_Exception e); discriminate].
  destruct (se_text env) as [raw|e];
    [| destruct (is_Exception e); discriminate].
  cbn [snd]. intros [= <-]. exists raw. repeat split.
Qed.

(** X16. [transcribe_audio] of [gemini_transcribe.py], whatever the
    provider answers and however long the file is processed: the file is
    uploaded at least once and at most three times, with one pause of five
    seconds between two uploads; the model is asked at most once; no
    [Exception] leaves the call; when all three uploads meet a quota error
    the call returns [None] after exactly three uploads and ten seconds,
    without asking the model; and a text it returns is the clean-up of the
    model's response. *)
Theorem single_controller_bounded (fuel : nat) (env : single_env)
    (st : api_state) :
  let r := transcribe_audio_single fuel env st in
  (exists calls,
     api_calls (fst r) = api_calls st ++ calls
     /\ 1 <= count_calls is_upload calls <= 3
     /\ count_calls is_upload_pause calls + 1 = count_calls is_upload calls
     /\ count_calls is_generate calls <= 1)
  /\ (forall e, snd r = Raise e -> is_Exception e = false)
  /\ (uploads_exhausted env ->
      snd r = Return None
      /\ api_calls (fst r)
         = api_calls st
           ++ [ApiUpload; ApiSleep 5; ApiUpload; ApiSleep 5; ApiUpload]
      /\ api_clock (fst r) = (api_clock st + 10)%N)
  /\ (forall text, snd r = Return (Some text) ->
      exists raw,
        se_generate env = Ok tt /\ se_text env = Ok raw
        /\ text = normalize_single raw /\ whitespace_normal text).
Proof.
  cbv zeta. split; [|split; [|split]].
  - rewrite transcribe_audio_single_state. apply transcribe_body_single_calls.
  - unfold transcribe_audio_single.
    destruct (transcribe_body_single fuel env st) as [st' [t|e'|]];
      cbn [snd]; try discriminate.
    destruct (is_Exception e') eqn:He'; cbn [snd]; [discriminate|].
    intros e [= <-]. exact He'.
  - intros Hall.
    destruct (Hall 0 ltac:(lia)) as [m0 H0].
    destruct (Hall 1 ltac:(lia)) as [m1 H1].
    destruct (Hall 2 ltac:(lia)) as [m2 H2].
    unfold transcribe_audio_single, transcribe_body_single.
    cbn [seq upload_loop Nat.eqb]. rewrite H0, H1, H2.
    cbn. rewrite <- !app_assoc. repeat split. lia.
  - intros text Htext.
    destruct (transcribe_audio_single_text fuel env st text Htext)
      as (raw & Hg & Ht & ->).
    exists raw. repeat split; try assumption.
    + apply (normalize_output_normal_single raw).
    + apply (normalize_output_normal_single raw).
    + apply (normalize_output_normal_single raw).
Qed.

(** ** Start-up of [transcribe_3.py] *)

Lemma py_or_default (a : option str) :
  falsy (py_or a (Some default_openrouter_model)) = false.
Proof. unfold py_or. destruct (falsy a) eqn:H; [reflexivity|exact H]. Qed.

Lemma init_3_settings (library_loads : bool) (method : str)
    (k1 k2 k3 model : option str) (s : settings) :
  init_3 library_loads method k1 k2 k3 model = Constructed s ->
  s = {| cfg_method := method; cfg_openai_api_key := k1;
         cfg_gemini_api_key := k2; cfg_openrouter_api_key := k3;
         cfg_openrouter_model :=
           py_or model (Some default_openrouter_model) |}.
Proof.
  unfold init_3.
  repeat match goal with
         | |- context [if ?b then _ else _] => destruct b
         end; congruence.
Qed.

(** X17. Start-up of [transcribe_3.py]. The key check of [__init__] is
    never the one that stops the program started through [main]: [main]
    has made the same check before. When the object is constructed, the
    method is one of the four known ones, the key that method needs is
    not empty, the OpenRouter model is not empty, and each key is the one
    of the command line when that is not empty and the one of the
    environment otherwise. *)
Theorem startup_keys_checked_before_init (library_loads : bool)
    (args : cli_args) (env : environ) :
  main_3 library_loads args env <> SysExit InitMissingKey
  /\ forall s, main_3 library_loads args env = Constructed s ->
       cfg_method s = arg_method args
       /\ In (cfg_method s) transcription_methods
       /\ (forall key, key_of_method s = Some key -> falsy key = false)
       /\ falsy (cfg_openrouter_model s) = false
       /\ cfg_openai_api_key s
          = (if falsy (arg_api_key args) then OPENAI_API_KEY env
             else arg_api_key args)
       /\ cfg_gemini_api_key s
          = (if falsy (arg_gemini_key args) then GEMINI_API_KEY env
             else arg_gemini_key args)
       /\ cfg_openrouter_api_key s
          = (if falsy (arg_openrouter_key args) then OPENROUTER_API_KEY env
             else arg_openrouter_key args).
Proof.
  unfold main_3. case_bool_decide as Hmethod; cbn [negb].
  2: { split; [discriminate|]. intros s [=]. }
  set (k1 := py_or (arg_api_key args) (OPENAI_API_KEY env)).
  set (k2 := py_or (arg_gemini_key args) (GEMINI_API_KEY env)).
  set (k3 := py_or (arg_openrouter_key args) (OPENROUTER_API_KEY env)).
  set (model := py_or _ (Some default_openrouter_model)).
  destruct (str_eqb (arg_method args) (u "openai-api") && falsy k1) eqn:H1;
    [split; [discriminate|intros s [=]]|].
  destruct (str_eqb (arg_method args) (u "gemini-api") && falsy k2) eqn:H2;
    [split; [discriminate|intros s [=]]|].
  destruct (str_eqb (arg_method args) (u "openrouter") && falsy k3) eqn:H3;
    [split; [discriminate|intros s [=]]|].
  apply andb_false_iff in H1, H2, H3. split.
  - unfold init_3.
    destruct (str_eqb (arg_method args) (u "whisper-local"));
      [destruct library_loads; discriminate|].
    destruct (str_eqb (arg_method args) (u "openai-api")).
    { destruct H1 as [H1|H1]; [discriminate|]. rewrite H1.
      destruct library_loads; discriminate. }
    destruct (str_eqb (arg_method args) (u "gemini-api")).
    { destruct H2 as [H2|H2]; [discriminate|]. rewrite H2.
      destruct library_loads; discriminate. }
    destruct (str_eqb (arg_method args) (u "openrouter")); [|discriminate].
    destruct H3 as [H3|H3]; [discriminate|]. rewrite H3. discriminate.
  - intros s Hs. apply init_3_settings in Hs. subst s.
    cbn [cfg_method cfg_openai_api_key cfg_gemini_api_key
         cfg_openrouter_api_key cfg_openrouter_model].
    split; [reflexivity|]. split; [apply list_elem_of_In; exact Hmethod|].
    split; [|split; [apply py_or_default|repeat split]].
    intros key. unfold key_of_method.
    cbn [cfg_method cfg_openai_api_key cfg_gemini_api_key
         cfg_openrouter_api_key].
    destruct (str_eqb (arg_method args) (u "openai-api")).
    { intros [= <-]. destruct H1 as [H1|H1]; [discriminate|exact H1]. }
    destruct (str_eqb (arg_method args) (u "gemini-api")).
    { intros [= <-]. destruct H2 as [H2|H2]; [discriminate|exact H2]. }
    destruct (str_eqb (arg_method args) (u "openrouter")); [|discriminate].
    intros [= <-]. destruct H3 as [H3|H3]; [discriminate|exact H3].
Qed.

(** ** The review wait of [transcribe_3.py] *)

(** X18. In [transcribe_3.py], when the page has an ['Id:'] element as the
    wait starts, [current_id] is that element's text, and the last test of
    each look compares the page address with it.  So unless the first
    look is interrupted, fails to read the address, or reads an address
    equal to that text, [wait_for_submit] returns [True] at the first look,
    three or four seconds after it started, whatever the textarea and the
    ['Id:'] element show. *)
Theorem review_wait_3_ends_at_first_look (st : automation) (env : wait_env_3)
    (id url : str) :
  w3_start_id env = Some id ->
  p3_interrupt (w3_polls env 0) = None ->
  p3_url (w3_polls env 0) = Ok url ->
  url <> id ->
  snd (wait_for_submit_3 st env) = Return true
  /\ (clock st + 3 <= clock (fst (wait_for_submit_3 st env)))%N
  /\ (clock (fst (wait_for_submit_3 st env)) <= clock st + 4)%N.
Proof.
  intros Hid Hint Hurl Hneq. unfold wait_for_submit_3. rewrite Hid.
  unfold wait_fuel. cbn [wait_loop_3].
  replace (clock st - clock st <? review_timeout)%N with true
    by (symmetry; apply N.ltb_lt; rewrite N.sub_diag; reflexivity).
  rewrite Hint.
  destruct (textarea_cleared_3 (w3_polls env 0)).
  { cbn. split; [reflexivity|]. unfold review_interval. lia. }
  destruct (id_changed_3 id (w3_polls env 0)).
  { cbn. split; [reflexivity|]. unfold review_interval. lia. }
  rewrite Hurl. unfold str_eqb. rewrite bool_decide_eq_false_2 by exact Hneq.
  cbn. split; [reflexivity|]. unfold review_interval. lia.
Qed.

Lemma review_wait_3_ends_at_first_look_witness :
  snd (wait_for_submit_3 init unsubmitted_page_3) = Return true
  /\ (clock init + 3 <= clock (fst (wait_for_submit_3 init unsubmitted_page_3)))%N
  /\ (clock (fst (wait_for_submit_3 init unsubmitted_page_3)) <= clock init + 4)%N.
Proof.
  apply (review_wait_3_ends_at_first_look init unsubmitted_page_3
           (u "Id: 4711") (u "https://example.org/transcribe")).
  - reflexivity.
  - reflexivity.
  - reflexivity.
  - vm_compute. discriminate.
Defined.
